(** * generate_cv_pdf: a shallow embedding of the CV-to-PDF generator

    The development follows [generate_cv_pdf.py] top to bottom: the Python
    values the program manipulates (text as lists of code points, byte
    strings, IEEE doubles, unbounded integers), the two helpers of the
    standard library it leans on ([textwrap.wrap] and the string methods),
    then [pdf_escape], [wrap_text], the [StyledPdf] drawing object,
    [write_pdf], [load_cv_lines] and [generate].  The properties of the
    natural-language specification are stated and proved in the second half. *)

From Stdlib Require Import ZArith NArith List Bool Lia Floats String Ascii Strings.Byte DecimalString.
From Stdlib Require DecimalPos DecimalFacts.
From stdpp Require Import base option list gmap sorting list_numbers.

Set Warnings "-inexact-float".
Local Open Scope Z_scope.

(* ===================================================================== *)
(** ** Python values                                                      *)
(* ===================================================================== *)

(** A Python [str] is a sequence of Unicode code points, a [bytes] object a
    sequence of octets, an [int] an unbounded integer ([Z]) and a [float] an
    IEEE 754 binary64 number (the kernel's primitive [float]). *)
Abbreviation char := N (only parsing).
Abbreviation str := (list N) (only parsing).
Abbreviation bytes := (list byte) (only parsing).

(** String and bytes literals of the source, written [py "..."] and [pyb "..."]. *)
Definition py (s : string) : str := map N_of_ascii (list_ascii_of_string s).
Arguments py s%_string.

Definition pyb (s : string) : bytes := list_byte_of_string s.
Arguments pyb s%_string.

Definition TAB : char := 9%N.
Definition LF : char := 10%N.
Definition VT : char := 11%N.
Definition FF : char := 12%N.
Definition CR : char := 13%N.
Definition SP : char := 32%N.

(** [len(x)] as a Python integer. *)
Definition len {A} (l : list A) : Z := Z.of_nat (length l).

(** Truthiness of a sequence: [if not text]. *)
Definition is_empty {A} (l : list A) : bool :=
  match l with [] => true | _ => false end.

(** [str.isspace] on one character: the code points Unicode classes as
    white space (bidirectional type WS, B or S, or category Zs). *)
Definition isspace (c : char) : bool :=
  ((9 <=? c) && (c <=? 13) || (28 <=? c) && (c <=? 32) || (c =? 133) || (c =? 160)
   || (c =? 5760) || (8192 <=? c) && (c <=? 8202) || (c =? 8232) || (c =? 8233)
   || (c =? 8239) || (c =? 8287) || (c =? 12288))%N.

(** [s.strip() == ''] : every character of [s] is white space. *)
Definition blank (s : str) : bool := forallb isspace s.

Fixpoint lstrip (s : str) : str :=
  match s with
  | c :: r => if isspace c then lstrip r else s
  | [] => []
  end.

Definition rstrip (s : str) : str := rev (lstrip (rev s)).

Definition strip (s : str) : str := lstrip (rstrip s).

Fixpoint startswith (s prefix : str) : bool :=
  match prefix, s with
  | [], _ => true
  | p :: ps, c :: cs => (c =? p)%N && startswith cs ps
  | _ :: _, [] => false
  end.

(** [str.upper] on the ASCII letters.  The program upper-cases members of
    its closed heading set only, which are ASCII. *)
Definition upper_char (c : char) : char :=
  if ((97 <=? c) && (c <=? 122))%N then (c - 32)%N else c.

Definition upper (s : str) : str := map upper_char s.

(** [s.replace(old, new)] for a one-character [old]. *)
Definition replace1 (old : char) (new : str) (s : str) : str :=
  flat_map (fun c => if (c =? old)%N then new else [c]) s.

(** [sep.join(parts)]. *)
Fixpoint join (sep : str) (parts : list str) : str :=
  match parts with
  | [] => []
  | [p] => p
  | p :: rest => p ++ sep ++ join sep rest
  end.

(** [str(n)] and the [{n}] field of an f-string, for an integer. *)
Definition str_of_Z (z : Z) : str := py (NilZero.string_of_int (Z.to_int z)).

(** [{n:0wd}]: sign, then zeros up to [w] characters, then the digits. *)
Definition format_0wd (w : nat) (z : Z) : str :=
  let digits := str_of_Z (Z.abs z) in
  let sign := if z <? 0 then py "-" else [] in
  sign ++ repeat 48%N (w - length sign - length digits) ++ digits.

(** [s.encode("latin-1", errors="replace")]: one octet per character, a
    question mark for every character above U+00FF. *)
Definition encode_latin1_replace (s : str) : bytes :=
  map (fun c => default "?"%byte (Byte.of_N c)) s.

(** [s.encode("ascii")]: raises (here [None]) on a character above U+007F. *)
Definition encode_ascii (s : str) : option bytes :=
  mapM (fun c => if (c <? 128)%N then Byte.of_N c else None) s.

(** [str.splitlines]: the line boundaries of Python, with CR LF counted once;
    no empty last line after a final boundary. *)
Definition is_linebreak (c : char) : bool :=
  ((10 <=? c) && (c <=? 13) || (28 <=? c) && (c <=? 30) || (c =? 133)
   || (c =? 8232) || (c =? 8233))%N.

Fixpoint splitlines_from (cur : str) (s : str) : list str :=
  match s with
  | [] => if is_empty cur then [] else [rev cur]
  | c :: r =>
      if (c =? CR)%N then
        match r with
        | d :: r' => if (d =? LF)%N then rev cur :: splitlines_from [] r'
                     else rev cur :: splitlines_from [] r
        | [] => [rev cur]
        end
      else if is_linebreak c then rev cur :: splitlines_from [] r
      else splitlines_from (c :: cur) r
  end.

Definition splitlines (s : str) : list str := splitlines_from [] s.

(** *** Floats *)

(** [float(n)] for an integer the program uses (exact below 2^53). *)
Definition float_of_Z (z : Z) : float :=
  if z <? 0 then (- PrimFloat.of_uint63 (Uint63.of_Z (- z)))%float
  else PrimFloat.of_uint63 (Uint63.of_Z z).

(** [a / b] on floats: [ZeroDivisionError] when the divisor is zero. *)
Definition py_truediv (a b : float) : option float :=
  if PrimFloat.eqb b 0%float then None else Some (a / b)%float.

(** [int(x)]: truncation toward zero; [OverflowError] on an infinity and
    [ValueError] on a NaN. *)
Definition py_int (x : float) : option Z :=
  match Prim2SF x with
  | S754_zero _ => Some 0
  | S754_finite s m e =>
      let v := if 0 <=? e then Z.pos m * 2 ^ e else Z.pos m / 2 ^ (- e) in
      Some (if s then - v else v)
  | S754_infinity _ | S754_nan => None
  end.

(** Rounding of the rational [num / den] ([den > 0]) to the nearest integer,
    ties to even: the rule of Python's correctly rounded float formatting. *)
Definition round_half_even (num den : Z) : Z :=
  let q := num / den in
  let r := num mod den in
  if 2 * r <? den then q
  else if den <? 2 * r then q + 1
  else if Z.even q then q else q + 1.

(** [f"{x:.Nf}"] for a float (the sign is kept on a negative that rounds to
    zero, as Python does). *)
Definition format_f (prec : nat) (x : float) : str :=
  let scale := 10 ^ Z.of_nat prec in
  let fixed (neg : bool) (q : Z) : str :=
    (if neg then py "-" else []) ++ str_of_Z (q / scale)
    ++ match prec with O => [] | _ => py "." ++ format_0wd prec (q mod scale) end in
  match Prim2SF x with
  | S754_nan => py "nan"
  | S754_infinity s => if s then py "-inf" else py "inf"
  | S754_zero s => fixed s 0
  | S754_finite s m e =>
      fixed s (if 0 <=? e then Z.pos m * 2 ^ e * scale
               else round_half_even (Z.pos m * scale) (2 ^ (- e)))
  end.

(* ===================================================================== *)
(** ** textwrap.wrap                                                      *)
(* ===================================================================== *)

(** The standard library's [TextWrapper], with the options [wrap_text]
    passes ([break_long_words=False], [break_on_hyphens=False]) and the
    defaults for the others ([expand_tabs], [replace_whitespace],
    [drop_whitespace], [tabsize=8], empty indents, no [max_lines]). *)
Module textwrap.

(** [_whitespace = '\t\n\x0b\x0c\r '] *)
Definition whitespace (c : char) : bool :=
  ((9 <=? c) && (c <=? 13) || (c =? 32))%N.

(** [text.expandtabs(tabsize)], [col] being the current column. *)
Fixpoint expandtabs_from (tabsize col : nat) (s : str) : str :=
  match s with
  | [] => []
  | c :: r =>
      if (c =? TAB)%N then
        match tabsize with
        | O => expandtabs_from tabsize col r
        | _ => let incr := (tabsize - col mod tabsize)%nat in
               repeat SP incr ++ expandtabs_from tabsize (col + incr) r
        end
      else if ((c =? LF) || (c =? CR))%N then c :: expandtabs_from tabsize 0 r
      else c :: expandtabs_from tabsize (S col) r
  end.

Definition expandtabs (tabsize : nat) (s : str) : str := expandtabs_from tabsize 0 s.

(** [_munge_whitespace]: expand tabs, then turn each white-space character
    into a space. *)
Definition _munge_whitespace (text : str) : str :=
  map (fun c => if whitespace c then SP else c) (expandtabs 8 text).

(** [_split] with [wordsep_simple_re]: the maximal runs of white space and
    of other characters, in order, empty strings removed. *)
Fixpoint _split (text : str) : list str :=
  match text with
  | [] => []
  | c :: r =>
      match _split r with
      | (d :: w) :: rest =>
          if Bool.eqb (whitespace c) (whitespace d) then (c :: d :: w) :: rest
          else [c] :: (d :: w) :: rest
      | chunks => [c] :: chunks
      end
  end.

(** The inner [while chunks:] of [_wrap_chunks]: move chunks onto the
    current line while they fit.  (The source pops them off the end of the
    reversed list; here the list is kept in reading order and consumed from
    the front.) *)
Fixpoint fill_line (width : Z) (chunks cur_line : list str) (cur_len : Z)
  : list str * Z * list str :=
  match chunks with
  | c :: rest =>
      if cur_len + len c <=? width
      then fill_line width rest (cur_line ++ [c]) (cur_len + len c)
      else (cur_line, cur_len, chunks)
  | [] => (cur_line, cur_len, [])
  end.

(** [_handle_long_word] with [break_long_words] off: the long chunk goes on
    the line only when the line is still empty. *)
Definition _handle_long_word (chunks cur_line : list str) : list str * list str :=
  match chunks with
  | c :: rest => if is_empty cur_line then ([c], rest) else (cur_line, chunks)
  | [] => (cur_line, chunks)
  end.

(** One pass of the outer [while chunks:]. *)
Definition wrap_line (width : Z) (lines chunks : list str) : list str * list str :=
  let chunks :=
    match chunks with
    | c :: rest => if blank c && negb (is_empty lines) then rest else chunks
    | [] => []
    end in
  let '(cur_line, cur_len, chunks) := fill_line width chunks [] 0 in
  let '(cur_line, chunks) :=
    match chunks with
    | c :: _ => if width <? len c then _handle_long_word chunks cur_line
                else (cur_line, chunks)
    | [] => (cur_line, chunks)
    end in
  let cur_line :=
    match last cur_line with
    | Some c => if blank c then removelast cur_line else cur_line
    | None => cur_line
    end in
  (if is_empty cur_line then lines else lines ++ [concat cur_line], chunks).

(** The outer loop.  Every pass consumes a chunk, so [length chunks] passes
    are enough ([wrap_loop_fuel] below); [fuel] only makes that visible. *)
Fixpoint wrap_loop (fuel : nat) (width : Z) (lines chunks : list str) : list str :=
  match chunks, fuel with
  | [], _ => lines
  | _, O => lines
  | _, S fuel' =>
      let '(lines', chunks') := wrap_line width lines chunks in
      wrap_loop fuel' width lines' chunks'
  end.

(** [_wrap_chunks]: [ValueError] on a width that is not positive. *)
Definition _wrap_chunks (width : Z) (chunks : list str) : option (list str) :=
  if width <=? 0 then None
  else Some (wrap_loop (length chunks) width [] chunks).

Definition wrap (text : str) (width : Z) : option (list str) :=
  _wrap_chunks width (_split (_munge_whitespace text)).

End textwrap.

(* ===================================================================== *)
(** ** Module constants and the two text helpers                          *)
(* ===================================================================== *)

Definition PAGE_WIDTH : Z := 595.
Definition PAGE_HEIGHT : Z := 842.
Definition MARGIN_X : Z := 36.
Definition CONTENT_WIDTH : Z := PAGE_WIDTH - 2 * MARGIN_X.

Definition pdf_escape (text : str) : str :=
  replace1 41%N (py "\)") (replace1 40%N (py "\(") (replace1 92%N (py "\\") text)).

(** The character budget [wrap_text] computes. *)
Definition max_chars (width font_size : float) (bold : bool) : option Z :=
  let char_factor := if bold then 0.56%float else 0.53%float in
  q ← py_truediv width (font_size * char_factor)%float;
  n ← py_int q;
  Some (Z.max 12 n).

Definition wrap_text (text : str) (width font_size : float) (bold : bool)
  : option (list str) :=
  if is_empty text then Some [[]]
  else
    n ← max_chars width font_size bold;
    lines ← textwrap.wrap text n;
    Some (if is_empty lines then [text] else lines).

(** [circle_path]: a circle as four cubic Bezier arcs. *)
Definition circle_path (cx cy radius : float) : str :=
  let kappa := 0.5522847498%float in
  let c := (radius * kappa)%float in
  let f := format_f 2 in
  let sp := py " " in
  (f (cx + radius) ++ sp ++ f cy ++ py " m "
   ++ f (cx + radius) ++ sp ++ f (cy + c) ++ sp ++ f (cx + c) ++ sp ++ f (cy + radius)
      ++ sp ++ f cx ++ sp ++ f (cy + radius) ++ py " c "
   ++ f (cx - c) ++ sp ++ f (cy + radius) ++ sp ++ f (cx - radius) ++ sp ++ f (cy + c)
      ++ sp ++ f (cx - radius) ++ sp ++ f cy ++ py " c "
   ++ f (cx - radius) ++ sp ++ f (cy - c) ++ sp ++ f (cx - c) ++ sp ++ f (cy - radius)
      ++ sp ++ f cx ++ sp ++ f (cy - radius) ++ py " c "
   ++ f (cx + c) ++ sp ++ f (cy - radius) ++ sp ++ f (cx + radius) ++ sp ++ f (cy - c)
      ++ sp ++ f (cx + radius) ++ sp ++ f cy ++ py " c ")%float.

(* ===================================================================== *)
(** ** Theme and StyledPdf                                                *)
(* ===================================================================== *)

Abbreviation rgb := (float * float * float)%type (only parsing).

Module Theme.
Record Theme := {
  bg : rgb; panel : rgb; panel_alt : rgb; border : rgb;
  text : rgb; muted : rgb; accent : rgb; accent_alt : rgb }.
End Theme.

(** [Theme()]: the dataclass defaults. *)
Definition Theme_default : Theme.Theme :=
  {| Theme.bg := (0.03, 0.06, 0.14); Theme.panel := (0.07, 0.13, 0.28);
     Theme.panel_alt := (0.06, 0.11, 0.24); Theme.border := (0.22, 0.33, 0.50);
     Theme.text := (0.90, 0.95, 0.99); Theme.muted := (0.77, 0.84, 0.91);
     Theme.accent := (0.91, 0.76, 0.50); Theme.accent_alt := (0.56, 0.44, 0.74) |}%float.

(** The mutable fields of a [StyledPdf] object; every method below takes the
    object and returns it updated. *)
Record StyledPdf := {
  theme : Theme.Theme;
  page_streams : list str;
  current_stream : list str;
  page_no : Z }.

(** [StyledPdf.__init__] *)
Definition StyledPdf_init : StyledPdf :=
  {| theme := Theme_default; page_streams := []; current_stream := []; page_no := 0 |}.

Definition cmd (self : StyledPdf) (line : str) : StyledPdf :=
  {| theme := theme self; page_streams := page_streams self;
     current_stream := current_stream self ++ [line ++ [LF]];
     page_no := page_no self |}.

Definition color_fill (self : StyledPdf) (c : rgb) : StyledPdf :=
  let '(r, g, b) := c in
  cmd self (format_f 3 r ++ py " " ++ format_f 3 g ++ py " " ++ format_f 3 b ++ py " rg").

Definition color_stroke (self : StyledPdf) (c : rgb) : StyledPdf :=
  let '(r, g, b) := c in
  cmd self (format_f 3 r ++ py " " ++ format_f 3 g ++ py " " ++ format_f 3 b ++ py " RG").

Definition rect (self : StyledPdf) (x y w h : float)
    (fill stroke : option rgb) (line_width : float) : StyledPdf :=
  let self := match fill with Some c => color_fill self c | None => self end in
  let self :=
    match stroke with
    | Some c => cmd (color_stroke self c) (format_f 2 line_width ++ py " w")
    | None => self
    end in
  let self :=
    cmd self (format_f 2 x ++ py " " ++ format_f 2 y ++ py " " ++ format_f 2 w
              ++ py " " ++ format_f 2 h ++ py " re") in
  match fill, stroke with
  | Some _, Some _ => cmd self (py "B")
  | Some _, None => cmd self (py "f")
  | None, _ => cmd self (py "S")
  end.

Definition text (self : StyledPdf) (x y : float) (value : str)
    (size : float) (font : str) (color : option rgb) : StyledPdf :=
  let self := match color with Some c => color_fill self c | None => self end in
  let self := cmd self (py "BT") in
  let self := cmd self (py "/" ++ font ++ py " " ++ format_f 2 size ++ py " Tf") in
  let self := cmd self (py "1 0 0 1 " ++ format_f 2 x ++ py " " ++ format_f 2 y ++ py " Tm") in
  let self := cmd self (py "(" ++ pdf_escape value ++ py ") Tj") in
  cmd self (py "ET").

(** [range(n)] *)
Definition range (n : nat) : list Z := map Z.of_nat (seq 0 n).

Definition draw_decor (self : StyledPdf) : StyledPdf :=
  let fz := float_of_Z in
  (* Base dark background. *)
  let self := rect self 0 0 (fz PAGE_WIDTH) (fz PAGE_HEIGHT)
                   (Some (Theme.bg (theme self))) None 1 in
  (* Soft corner glows as simple circles. *)
  let self := color_fill self (0.08, 0.18, 0.30)%float in
  let self := cmd self (circle_path 40 (fz (PAGE_HEIGHT - 40)) 170 ++ py "f") in
  let self := color_fill self (0.12, 0.10, 0.24)%float in
  let self := cmd self (circle_path (fz (PAGE_WIDTH - 60)) 120 200 ++ py "f") in
  (* Top decorative rings. *)
  let self := color_stroke self (Theme.border (theme self)) in
  let self := cmd self (py "1.25 w") in
  let self := cmd self (circle_path (fz (PAGE_WIDTH - 78)) (fz (PAGE_HEIGHT - 66)) 24 ++ py "S") in
  let self := cmd self (circle_path (fz (PAGE_WIDTH - 78)) (fz (PAGE_HEIGHT - 66)) 40 ++ py "S") in
  (* Star dots. *)
  let self := color_fill self (0.82, 0.92, 1.0)%float in
  fold_left
    (fun self i =>
       let x := 20 + (i * 23) mod (PAGE_WIDTH - 40) in
       let y := 90 + (i * 67) mod (PAGE_HEIGHT - 140) in
       let size := if i mod 3 =? 0 then 1.8%float else 1.2%float in
       rect self (fz x) (fz y) size size (Some (0.82, 0.92, 1.0)%float) None 1)
    (range 24) self.

Definition begin_page (self : StyledPdf) (name subtitle : str) (first_page : bool)
  : StyledPdf :=
  let fz := float_of_Z in
  let self := {| theme := theme self; page_streams := page_streams self;
                 current_stream := []; page_no := page_no self + 1 |} in
  let self := draw_decor self in
  let header_h := if first_page then 86 else 56 in
  let header_y := PAGE_HEIGHT - 36 - header_h in
  let self := rect self (fz MARGIN_X) (fz header_y) (fz CONTENT_WIDTH) (fz header_h)
                   (Some (Theme.panel (theme self))) (Some (Theme.border (theme self)))
                   1.1 in
  let self := text self (fz (MARGIN_X + 16)) (fz (header_y + header_h - 32)) name
                   (if first_page then 24 else 18) (py "F2")
                   (Some (Theme.accent (theme self))) in
  let self := text self (fz (MARGIN_X + 16)) (fz (header_y + header_h - 52)) subtitle
                   11 (py "F1") (Some (Theme.text (theme self))) in
  if first_page then self
  else text self (fz (PAGE_WIDTH - 102)) (fz (header_y + 12))
            (py "Page " ++ str_of_Z (page_no self)) 9.5 (py "F1")
            (Some (Theme.muted (theme self))).

Definition finish_page (self : StyledPdf) : StyledPdf :=
  {| theme := theme self;
     page_streams := page_streams self ++ [concat (current_stream self)];
     current_stream := []; page_no := page_no self |}.

(* ===================================================================== *)
(** ** write_pdf                                                          *)
(* ===================================================================== *)

Definition NL : bytes := [x0a].

(** The three objects the [objects] dictionary starts with. *)
Definition catalog_object : bytes := pyb "<< /Type /Catalog /Pages 2 0 R >>".
Definition font1_object : bytes := pyb "<< /Type /Font /Subtype /Type1 /BaseFont /Helvetica >>".
Definition font2_object : bytes := pyb "<< /Type /Font /Subtype /Type1 /BaseFont /Helvetica-Bold >>".

(** [objects[content_id]] for one page stream. *)
Definition content_object (stream : str) : option bytes :=
  let stream_bytes := encode_latin1_replace stream in
  head ← encode_ascii (py "<< /Length " ++ str_of_Z (len stream_bytes) ++ py " >>"
                        ++ [LF] ++ py "stream" ++ [LF]);
  Some (head ++ stream_bytes ++ pyb "endstream").

(** [objects[page_id]] *)
Definition page_object (content_id : Z) : option bytes :=
  encode_ascii
    (py "<< /Type /Page /Parent 2 0 R /MediaBox [0 0 " ++ str_of_Z PAGE_WIDTH ++ py " "
     ++ str_of_Z PAGE_HEIGHT ++ py "] "
     ++ py "/Resources << /Font << /F1 3 0 R /F2 4 0 R >> >> /Contents "
     ++ str_of_Z content_id ++ py " 0 R >>").

(** The body of [for stream in self.page_streams:], on the loop's state
    [(objects, page_object_ids, next_id)]. *)
Definition add_page (st : gmap Z bytes * list Z * Z) (stream : str)
  : option (gmap Z bytes * list Z * Z) :=
  let '(objects, page_object_ids, next_id) := st in
  let page_id := next_id in
  let content_id := next_id + 1 in
  let next_id := next_id + 2 in
  let page_object_ids := page_object_ids ++ [page_id] in
  content ← content_object stream;
  let objects := <[content_id := content]> objects in
  page ← page_object content_id;
  let objects := <[page_id := page]> objects in
  Some (objects, page_object_ids, next_id).

(** A [for] loop whose body may raise. *)
Fixpoint for_each {S A} (body : S → A → option S) (items : list A) (st : S) : option S :=
  match items with
  | [] => Some st
  | x :: rest => st' ← body st x; for_each body rest st'
  end.

(** [objects[2]], the page tree. *)
Definition pages_object (page_object_ids : list Z) : option bytes :=
  let kids := join (py " ") (map (fun n => str_of_Z n ++ py " 0 R") page_object_ids) in
  encode_ascii (py "<< /Type /Pages /Count " ++ str_of_Z (len page_object_ids)
                ++ py " /Kids [" ++ kids ++ py "] >>").

(** The object dictionary as it stands when [sorted(objects)] is taken. *)
Definition build_objects (self : StyledPdf) : option (gmap Z bytes * list Z) :=
  let objects : gmap Z bytes :=
    <[4 := font2_object]> (<[3 := font1_object]> (<[1 := catalog_object]> ∅)) in
  '(objects, page_object_ids, _) ← for_each add_page (page_streams self) (objects, [], 5);
  pages ← pages_object page_object_ids;
  Some (<[2 := pages]> objects, page_object_ids).

(** [sorted(objects)]: the keys in ascending order. *)
Definition sorted (objects : gmap Z bytes) : list Z :=
  merge_sort Z.le (elements (dom objects)).

(** [sum(len(p) for p in output_parts)] *)
Definition sum_len (parts : list bytes) : Z :=
  fold_right (fun p acc => len p + acc) 0 parts.

Definition pdf_header : bytes :=
  pyb "%PDF-1.4" ++ [x0a; x25; xe2; xe3; xcf; xd3; x0a].

(** [f"{obj_id} 0 obj\n".encode("ascii")] *)
Definition obj_token (obj_id : Z) : option bytes :=
  encode_ascii (str_of_Z obj_id ++ py " 0 obj" ++ [LF]).

(** The body of [for obj_id in ordered:], on [(output_parts, offsets)]. *)
Definition emit_object (objects : gmap Z bytes) (st : list bytes * gmap Z Z) (obj_id : Z)
  : option (list bytes * gmap Z Z) :=
  let '(output_parts, offsets) := st in
  let offsets := <[obj_id := sum_len output_parts]> offsets in
  token ← obj_token obj_id;
  body ← objects !! obj_id;
  Some (output_parts ++ [token; body; NL ++ pyb "endobj" ++ NL], offsets).

Definition emit_objects (objects : gmap Z bytes) (ordered : list Z)
  : option (list bytes * gmap Z Z) :=
  for_each (emit_object objects) ordered ([pdf_header], {[0 := 0]}).

(** [max(ordered)]: [ValueError] on an empty list. *)
Definition py_max (l : list Z) : option Z :=
  match l with
  | [] => None
  | x :: r => Some (fold_left Z.max r x)
  end.

(** One line of the cross-reference table for a used object. *)
Definition xref_entry (offset : Z) : option bytes :=
  encode_ascii (format_0wd 10 offset ++ py " 00000 n " ++ [LF]).

(** The list [xref]. *)
Definition xref_table (offsets : gmap Z Z) (max_id : Z) : option (list bytes) :=
  head ← encode_ascii (py "xref" ++ [LF] ++ py "0 " ++ str_of_Z (max_id + 1) ++ [LF]);
  entries ← mapM (fun i => xref_entry (default 0 (offsets !! i))) (seqZ 1 max_id);
  Some ([head; pyb "0000000000 65535 f " ++ NL] ++ entries).

Definition pdf_trailer (max_id xref_pos : Z) : option bytes :=
  encode_ascii (py "trailer" ++ [LF] ++ py "<< /Size " ++ str_of_Z (max_id + 1)
                ++ py " /Root 1 0 R >>" ++ [LF]
                ++ py "startxref" ++ [LF] ++ str_of_Z xref_pos ++ [LF] ++ py "%%EOF" ++ [LF]).

(** [write_pdf]: the bytes handed to [path.write_bytes]. *)
Definition write_pdf (self : StyledPdf) : option bytes :=
  '(objects, page_object_ids) ← build_objects self;
  let ordered := sorted objects in
  '(output_parts, offsets) ← emit_objects objects ordered;
  let xref_pos := sum_len output_parts in
  max_id ← py_max ordered;
  xref ← xref_table offsets max_id;
  trailer ← pdf_trailer max_id xref_pos;
  Some (concat (output_parts ++ xref ++ [trailer])).

(* ===================================================================== *)
(** ** load_cv_lines                                                      *)
(* ===================================================================== *)

(** The body of [for ln in lines:], on [(skipped, remaining)]. *)
Definition keep_line (st : Z * list str) (ln : str) : Z * list str :=
  let '(skipped, remaining) := st in
  if negb (is_empty (strip ln)) then
    let skipped := skipped + 1 in
    if skipped <=? 2 then (skipped, remaining)
    else (skipped, remaining ++ [rstrip ln])
  else (skipped, remaining ++ [rstrip ln]).

(** [load_cv_lines], from the decoded text of the file. *)
Definition load_cv_lines (file_text : str) : str * str * list str :=
  let lines := splitlines file_text in
  let non_empty := map strip (List.filter (fun ln => negb (is_empty (strip ln))) lines) in
  let name :=
    match non_empty with
    | n :: _ => n
    | [] => py "Iro Karavasili"
    end in
  let subtitle :=
    match non_empty with
    | _ :: s :: _ => s
    | _ => py "Atlassian Engineer - Service Delivery - Process Design"
    end in
  (* Preserve original spacing but skip first two non-empty lines (name + subtitle). *)
  let '(_, remaining) := fold_left keep_line lines (0, []) in
  (name, subtitle, remaining).

(* ===================================================================== *)
(** ** generate                                                           *)
(* ===================================================================== *)

(** Header contact line. *)
Definition contact_line : str :=
  py "Email: iro-k@outlook.com  |  LinkedIn: linkedin.com/in/iro-karavasili-37379ab8  |  Location: Greece".

Definition metrics : list (str * str) :=
  [ (py "7+", py "Years in Atlassian environments");
    (py "5", py "Enterprise environments supported");
    (py "10+", py "Atlassian Marketplace apps");
    (py "Cloud & DC", py "Platform expertise") ].

Definition headings : gset (list N) :=
  list_to_set
    [ py "Contact"; py "Languages"; py "Professional Summary"; py "Current Focus";
      py "Core Strengths"; py "Tools and Platforms"; py "Atlassian Ecosystem";
      py "Delivery and Operations"; py "Process and Governance"; py "Experience";
      py "Education"; py "Certifications"; py "Interests" ].

Definition container_y : Z := PAGE_HEIGHT - 216.
Definition gap : Z := 8.
(** [card_w = (CONTENT_WIDTH - gap * 5) / 4], a true division. *)
Definition card_w : float := (float_of_Z (CONTENT_WIDTH - gap * 5) / 4)%float.
Definition x_text : Z := MARGIN_X + 12.
Definition bottom_limit : Z := 56.

(** [enumerate(l)] *)
Definition enumerate {A} (l : list A) : list (Z * A) := combine (range (length l)) l.

(** The body of [for idx, (value, label) in enumerate(metrics):]. *)
Definition draw_metric (pdf : StyledPdf) (item : Z * (str * str)) : option StyledPdf :=
  let '(idx, (value, label)) := item in
  let fz := float_of_Z in
  let x := (fz (MARGIN_X + gap)%Z + fz idx * (card_w + fz gap))%float in
  let y := container_y + 12 in
  let pdf := rect pdf x (fz y) card_w 64 (Some (0.08, 0.14, 0.30)%float)
                  (Some (Theme.border (theme pdf))) 0.8 in
  let pdf := text pdf (x + 8)%float (fz (y + 38)) value
                  (if idx <? 3 then 16 else 13.5) (py "F2")
                  (Some (Theme.accent (theme pdf))) in
  wrapped ← wrap_text label (card_w - 14)%float 8.8 false;
  let text_y := y + 18 in
  Some (fst (fold_left
               (fun '(pdf, text_y) line =>
                  (text pdf (x + 8)%float (fz text_y) line 8.8 (py "F1")
                        (Some (Theme.muted (theme pdf))),
                   text_y - 10))
               (take 2 wrapped) (pdf, text_y))).

(** What [generate] draws on the first page before the body: the contact
    line and the metrics row. *)
Definition draw_first_page_panel (pdf : StyledPdf) : option StyledPdf :=
  let fz := float_of_Z in
  let pdf := text pdf (fz (MARGIN_X + 16)) (fz (PAGE_HEIGHT - 118)) contact_line
                  9.2 (py "F1") (Some (Theme.muted (theme pdf))) in
  let pdf := rect pdf (fz MARGIN_X) (fz container_y) (fz CONTENT_WIDTH) 88
                  (Some (Theme.panel_alt (theme pdf))) (Some (Theme.border (theme pdf)))
                  1.0 in
  for_each draw_metric (enumerate metrics) pdf.

(** The local function [new_page] of [generate]. *)
Definition new_page (name subtitle : str) (pdf : StyledPdf) : StyledPdf * Z :=
  (begin_page (finish_page pdf) name subtitle false, PAGE_HEIGHT - 112).

(** The page-break test both wrapped-line loops start with. *)
Definition break_if_low (name subtitle : str) (st : StyledPdf * Z) : StyledPdf * Z :=
  let '(pdf, y) := st in
  if y <? bottom_limit + 10 then new_page name subtitle pdf else (pdf, y).

(** The body of [for i, part in enumerate(wrapped):] of a bullet. *)
Definition draw_bullet_part (name subtitle : str) (st : StyledPdf * Z) (item : Z * str)
  : StyledPdf * Z :=
  let '(i, part) := item in
  let '(pdf, y) := break_if_low name subtitle st in
  let prefix := if i =? 0 then py "- " else py "  " in
  (text pdf (float_of_Z (x_text + 8)) (float_of_Z y) (prefix ++ part) 9.6 (py "F1")
        (Some (Theme.text (theme pdf))),
   y - 12).

(** The body of [for part in wrapped:] of a plain line. *)
Definition draw_plain_part (name subtitle : str) (st : StyledPdf * Z) (part : str)
  : StyledPdf * Z :=
  let '(pdf, y) := break_if_low name subtitle st in
  (text pdf (float_of_Z x_text) (float_of_Z y) part 9.8 (py "F1")
        (Some (Theme.text (theme pdf))),
   y - 12).

(** [is_heading] and [is_bullet], the two tests made on a stripped line. *)
Definition is_heading (line : str) : bool :=
  bool_decide (line ∈ headings) && negb (startswith line (py "-")).

Definition is_bullet (line : str) : bool := startswith line (py "- ").

(** The body of [for raw_line in lines:], on [(pdf, y)]. *)
Definition layout_line (name subtitle : str) (st : StyledPdf * Z) (raw_line : str)
  : option (StyledPdf * Z) :=
  let '(pdf, y) := st in
  let line := strip raw_line in
  if is_empty line then
    let y := y - 7 in
    Some (if y <? bottom_limit then new_page name subtitle pdf else (pdf, y))
  else
    if is_heading line then
      let y := y - 6 in
      let '(pdf, y) :=
        if y <? bottom_limit + 16 then new_page name subtitle pdf else (pdf, y) in
      let pdf := text pdf (float_of_Z x_text) (float_of_Z y) (upper line) 11 (py "F2")
                      (Some (Theme.accent (theme pdf))) in
      Some (pdf, y - 14)
    else if is_bullet line then
      let item := strip (drop 2 line) in
      wrapped ← wrap_text item (float_of_Z (CONTENT_WIDTH - 38)) 9.6 false;
      Some (fold_left (draw_bullet_part name subtitle) (enumerate wrapped) (pdf, y))
    else
      wrapped ← wrap_text line (float_of_Z (CONTENT_WIDTH - 24)) 9.8 false;
      Some (fold_left (draw_plain_part name subtitle) wrapped (pdf, y)).

(** [generate] from [pdf = StyledPdf()] to the last [pdf.finish_page()]:
    the object whose [page_streams] are written out. *)
Definition layout (name subtitle : str) (lines : list str) : option StyledPdf :=
  let pdf := StyledPdf_init in
  let pdf := begin_page pdf name subtitle true in
  pdf ← draw_first_page_panel pdf;
  let y := container_y - 18 in
  '(pdf, _) ← for_each (layout_line name subtitle) lines (pdf, y);
  Some (finish_page pdf).

(** [generate], from the decoded text of cv.txt: the bytes written to
    cv.pdf and the line printed. *)
Definition generate (cv_txt : str) : option (bytes * str) :=
  let '(name, subtitle, lines) := load_cv_lines cv_txt in
  pdf ← layout name subtitle lines;
  out ← write_pdf pdf;
  Some (out, py "Generated cv.pdf with " ++ str_of_Z (len (page_streams pdf))
             ++ py " page(s).").

(** *** Runs of the layout *)






(* ===================================================================== *)
(** ** Notions the specification speaks of                                *)
(* ===================================================================== *)

(** Un-escaping a PDF string literal: a backslash and the character after
    it stand for that character. *)
Fixpoint unescape (s : str) : str :=
  match s with
  | [] => []
  | c :: r =>
      if (c =? 92)%N then
        match r with
        | d :: r' => d :: unescape r'
        | [] => [c]
        end
      else c :: unescape r
  end.

(** What escaping does to one character. *)
Definition escape_char (c : char) : str :=
  if ((c =? 92) || (c =? 40) || (c =? 41))%N then [92%N; c] else [c].

(** A blank line of the input: nothing left once stripped. *)
Definition blank_line (ln : str) : bool := is_empty (strip ln).

(** The line sequence with its first [n] non-blank lines removed. *)
Fixpoint remove_first_nonblank (n : nat) (lines : list str) : list str :=
  match lines with
  | [] => []
  | ln :: rest =>
      if blank_line ln then ln :: remove_first_nonblank n rest
      else match n with
           | O => ln :: remove_first_nonblank O rest
           | S n' => remove_first_nonblank n' rest
           end
  end.

Definition default_name : str := py "Iro Karavasili".
Definition default_subtitle : str :=
  py "Atlassian Engineer - Service Delivery - Process Design".

(** The words of a text, scanned left to right: the maximal runs of
    characters other than the white space [textwrap] breaks at ([cur] holds
    the run being read, last character first) ... *)
Definition flush (cur : str) : list str :=
  if is_empty cur then [] else [rev cur].

Fixpoint tokens_from (cur : str) (s : str) : list str :=
  match s with
  | [] => flush cur
  | c :: r =>
      if textwrap.whitespace c then flush cur ++ tokens_from [] r
      else tokens_from (c :: cur) r
  end.

(** ... those made of nothing but (Unicode) space left out. *)
Definition words (s : str) : list str :=
  List.filter (fun w => negb (blank w)) (tokens_from [] s).

(** A line respects the budget [n], or is one word that is longer than [n]. *)
Definition within_budget_or_single_word (n : Z) (line : str) : Prop :=
  len line ≤ n ∨ (words line = [line] ∧ n < len line).

(** The byte string [token] stands in [out] at byte position [offset]. *)
Definition occurs_at (out : bytes) (offset : Z) (token : bytes) : Prop :=
  ∃ before after, out = before ++ token ++ after ∧ len before = offset.

(** Reading a decimal numeral back: the integer a PDF reader finds in a
    run of digits. *)
Definition digit_value (c : char) : option Z :=
  if ((48 <=? c) && (c <=? 57))%N then Some (Z.of_N c - 48) else None.

Fixpoint parse_digits (acc : Z) (s : str) : option Z :=
  match s with
  | [] => Some acc
  | c :: r => d ← digit_value c; parse_digits (10 * acc + d) r
  end.

Definition int_of_str (s : str) : option Z :=
  if is_empty s then None else parse_digits 0 s.

(** [math.floor(x)]: the largest integer not above [x]. *)
Definition py_floor (x : float) : option Z :=
  match Prim2SF x with
  | S754_zero _ => Some 0
  | S754_finite s m e =>
      let num := if s then Z.neg m else Z.pos m in
      Some (if 0 <=? e then num * 2 ^ e else num / 2 ^ (- e))
  | S754_infinity _ | S754_nan => None
  end.

(** The budget as the specification words it:
    [max(12, floor(widthBudget / (fontSize * factor)))]. *)
Definition max_chars_spec (width font_size : float) (bold : bool) : option Z :=
  let factor := if bold then 0.56%float else 0.53%float in
  q ← py_truediv width (font_size * factor)%float;
  n ← py_floor q;
  Some (Z.max 12 n).

(* ===================================================================== *)
(** ** Notions the proofs use                                             *)
(* ===================================================================== *)

(** Invariants, and parts of [begin_page] and [generate] taken on their
    own; the lemmas [begin_page_unfold], [draw_metric_eq],
    [draw_metrics_row_eq] and [draw_first_page_panel_eq] below tie each
    part to the function it is taken from. *)

(** *** Chunks of [textwrap] *)

(** Chunks as [_split] makes them: each one non-empty and either all white
    space or free of it, the two kinds alternating. *)
Definition chunk_is_space (c : list N) : bool :=
  match c with x :: _ => textwrap.whitespace x | [] => false end.

Definition homogeneous (c : list N) : Prop :=
  c ≠ [] ∧ Forall (fun x => textwrap.whitespace x = chunk_is_space c) c.

Fixpoint well_formed (cs : list (list N)) : Prop :=
  match cs with
  | [] => True
  | c :: rest =>
      homogeneous c
      ∧ match rest with
        | d :: _ => chunk_is_space d = negb (chunk_is_space c)
        | [] => True
        end
      ∧ well_formed rest
  end.

(** *** The two properties of [wrap_text] as the specification states them *)

(** C1 as the specification states it: the words survive, and every line
    is within the budget or a single over-long word. *)
Definition wrap_text_words_and_budget : Prop :=
  ∀ text width font_size bold lines n,
    wrap_text text width font_size bold = Some lines →
    max_chars width font_size bold = Some n →
    words (join (py " ") lines) = words text
    ∧ Forall (within_budget_or_single_word n) lines.

(** Words of a text, as a set: used to say that one of them is too long. *)
Definition has_long_word (n : Z) (text : list N) : Prop :=
  ∃ w, In w (words text) ∧ n < len w.

(** C4 as the specification states it: the budget formula, the empty
    input, and the original text back whenever wrapping leaves the input,
    with its over-long word, in one piece. *)
Definition wrap_text_budget_and_unsplit : Prop :=
  ∀ text width font_size bold,
    max_chars width font_size bold = max_chars_spec width font_size bold
    ∧ wrap_text [] width font_size bold = Some [[]]
    ∧ ∀ n line, max_chars width font_size bold = Some n →
                has_long_word n text →
                wrap_text text width font_size bold = Some [line] →
                line = text.

(** *** Strings that encode to ASCII *)

Definition is_ascii (s : list N) : bool := forallb (fun c => (c <? 128)%N) s.

(** *** Drawing steps and the instructions they emit *)

(** The object with [ops] appended to its current stream. *)
Definition emit (pdf : StyledPdf) (ops : list (list N)) : StyledPdf :=
  {| theme := theme pdf; page_streams := page_streams pdf;
     current_stream := current_stream pdf ++ ops; page_no := page_no pdf |}.

(** A fresh object with the theme [th], and the instructions a drawing
    step emits: what it leaves in the current stream of a fresh object. *)
Definition blank_pdf (th : Theme.Theme) : StyledPdf :=
  {| theme := th; page_streams := []; current_stream := []; page_no := 0 |}.

Definition ops_of (draw : StyledPdf → StyledPdf) (th : Theme.Theme) : list (list N) :=
  current_stream (draw (blank_pdf th)).

(** A drawing step that does nothing but append its instructions. *)
Definition emitter (draw : StyledPdf → StyledPdf) : Prop :=
  ∀ pdf, draw pdf = emit pdf (ops_of draw (theme pdf)).

(** The part of [begin_page] that draws the background and the header
    panel with the name and the subtitle: all of it but the page label. *)
Definition draw_header (name subtitle : list N) (first_page : bool) (self : StyledPdf)
  : StyledPdf :=
  let fz := float_of_Z in
  let self := draw_decor self in
  let header_h := if first_page then 86 else 56 in
  let header_y := PAGE_HEIGHT - 36 - header_h in
  let self := rect self (fz MARGIN_X) (fz header_y) (fz CONTENT_WIDTH) (fz header_h)
                   (Some (Theme.panel (theme self))) (Some (Theme.border (theme self)))
                   1.1 in
  let self := text self (fz (MARGIN_X + 16)) (fz (header_y + header_h - 32)) name
                   (if first_page then 24 else 18) (py "F2")
                   (Some (Theme.accent (theme self))) in
  text self (fz (MARGIN_X + 16)) (fz (header_y + header_h - 52)) subtitle
       11 (py "F1") (Some (Theme.text (theme self))).

(** The instructions of the background and header panel of a page. *)
Definition header_ops (th : Theme.Theme) (name subtitle : list N) (first_page : bool)
  : list (list N) :=
  ops_of (draw_header name subtitle first_page) th.

(** The instructions of the label [Page n] of a page after the first. *)
Definition page_label_ops (th : Theme.Theme) (n : Z) : list (list N) :=
  ops_of (fun pdf => text pdf (float_of_Z (PAGE_WIDTH - 102))
                          (float_of_Z (PAGE_HEIGHT - 36 - 56 + 12))
                          (py "Page " ++ str_of_Z n) 9.5 (py "F1")
                          (Some (Theme.muted th))) th.

(** The instructions of the contact line. *)
Definition contact_ops (th : Theme.Theme) : list (list N) :=
  ops_of (fun pdf => text pdf (float_of_Z (MARGIN_X + 16)) (float_of_Z (PAGE_HEIGHT - 118))
                          contact_line 9.2 (py "F1") (Some (Theme.muted th))) th.

(** The part of [generate] that draws the metrics row: the container
    and, card by card, the value and the first two lines of the label. *)
Definition draw_metrics_row (pdf : StyledPdf) : option StyledPdf :=
  let fz := float_of_Z in
  let pdf := rect pdf (fz MARGIN_X) (fz container_y) (fz CONTENT_WIDTH) 88
                  (Some (Theme.panel_alt (theme pdf))) (Some (Theme.border (theme pdf)))
                  1.0 in
  for_each draw_metric (enumerate metrics) pdf.

(** The instructions of the metrics row. *)
Definition metrics_row_ops (th : Theme.Theme) : list (list N) :=
  match draw_metrics_row (blank_pdf th) with
  | Some pdf => current_stream pdf
  | None => []
  end.

(** The body of [draw_metric] once the label is wrapped. *)
Definition draw_metric_with (wrapped : list (list N)) (idx : Z) (value : list N)
    (pdf : StyledPdf) : StyledPdf :=
  let fz := float_of_Z in
  let x := (fz (MARGIN_X + gap)%Z + fz idx * (card_w + fz gap))%float in
  let y := container_y + 12 in
  let pdf := rect pdf x (fz y) card_w 64 (Some (0.08, 0.14, 0.30)%float)
                  (Some (Theme.border (theme pdf))) 0.8 in
  let pdf := text pdf (x + 8)%float (fz (y + 38)) value
                  (if idx <? 3 then 16 else 13.5) (py "F2")
                  (Some (Theme.accent (theme pdf))) in
  let text_y := y + 18 in
  fst (fold_left
         (fun '(pdf, text_y) line =>
            (text pdf (x + 8)%float (fz text_y) line 8.8 (py "F1")
                  (Some (Theme.muted (theme pdf))),
             text_y - 10))
         (take 2 wrapped) (pdf, text_y)).

(** The metrics row with the four labels wrapped as [wrap_text] wraps
    them ([metric_labels_wrap] below). *)
Definition draw_metrics_cards (pdf : StyledPdf) : StyledPdf :=
  let fz := float_of_Z in
  let pdf := rect pdf (fz MARGIN_X) (fz container_y) (fz CONTENT_WIDTH) 88
                  (Some (Theme.panel_alt (theme pdf))) (Some (Theme.border (theme pdf)))
                  1.0 in
  let pdf := draw_metric_with [py "Years in Atlassian"; py "environments"] 0 (py "7+") pdf in
  let pdf := draw_metric_with [py "Enterprise"; py "environments supported"] 1 (py "5") pdf in
  let pdf := draw_metric_with [py "Atlassian Marketplace"; py "apps"] 2 (py "10+") pdf in
  draw_metric_with [py "Platform expertise"] 3 (py "Cloud & DC") pdf.

(** *** The content of a page *)

(** The instructions of one text drawn at integer coordinates. *)
Definition text_ops (th : Theme.Theme) (x y : Z) (value : list N) (size : float)
    (font : list N) (color : float * float * float) : list (list N) :=
  ops_of (fun pdf => text pdf (float_of_Z x) (float_of_Z y) value size font (Some color)) th.

(** The instructions of one text of the body: a heading, a part of a
    bullet or a part of a plain line, each with its indent, size, font and
    colour. *)
Inductive body_text (th : Theme.Theme) : list (list N) → Prop :=
| heading_text y value :
    body_text th (text_ops th x_text y value 11 (py "F2") (Theme.accent th))
| bullet_text y value :
    body_text th (text_ops th (x_text + 8) y value 9.6 (py "F1") (Theme.text th))
| plain_text y value :
    body_text th (text_ops th x_text y value 9.8 (py "F1") (Theme.text th)).

(** The instructions of body text: any number of such texts. *)
Inductive body_ops (th : Theme.Theme) : list (list N) → Prop :=
| body_ops_nil : body_ops th []
| body_ops_snoc ops ops' : body_ops th ops → body_text th ops' → body_ops th (ops ++ ops').

(** What a page starts with: the first page (index 0) with the large
    header, the contact line and the metrics row; the page of index [i]
    after it with the small header and the label of its number [i + 1]. *)
Definition page_head (th : Theme.Theme) (name subtitle : list N) (i : nat)
  : list (list N) :=
  match i with
  | O => header_ops th name subtitle true ++ contact_ops th ++ metrics_row_ops th
  | S _ => header_ops th name subtitle false ++ page_label_ops th (Z.of_nat i + 1)
  end.

(** The instructions of the page of index [i]: its head, then body text. *)
Definition page_ok (th : Theme.Theme) (name subtitle : list N) (i : nat)
    (ops : list (list N)) : Prop :=
  ∃ body, body_ops th body ∧ ops = page_head th name subtitle i ++ body.

(** The invariant of the body loop of [generate]. *)
Record layout_inv (name subtitle : list N) (pdf : StyledPdf) : Prop := {
  inv_theme : theme pdf = Theme_default;
  inv_page_no : page_no pdf = len (page_streams pdf) + 1;
  inv_pages : ∀ (i : nat) stream, page_streams pdf !! i = Some stream →
              ∃ ops, page_ok Theme_default name subtitle i ops ∧ stream = concat ops;
  inv_current : page_ok Theme_default name subtitle (length (page_streams pdf))
                        (current_stream pdf) }.

(** The object [generate] has when the body loop starts. *)
Definition first_page (name subtitle : list N) : StyledPdf :=
  {| theme := Theme_default; page_streams := [];
     current_stream := page_head Theme_default name subtitle 0; page_no := 1 |}.

(** The instruction by which [text] places a text at [(x, y)], and the
    one that places the label of a page: 102 left of the right edge and 12
    above the bottom of the small header. *)
Definition tm_op (x y : Z) : list N :=
  (py "1 0 0 1 " ++ format_f 2 (float_of_Z x) ++ py " " ++ format_f 2 (float_of_Z y)
   ++ py " Tm") ++ [LF].

Definition label_tm : list N := tm_op (PAGE_WIDTH - 102) (PAGE_HEIGHT - 36 - 56 + 12).

(** Equality of two strings. *)
Fixpoint str_eqb (s t : list N) : bool :=
  match s, t with
  | [], [] => true
  | c :: s, d :: t => if (c =? d)%N then str_eqb s t else false
  | _, _ => false
  end.

(** Whether some text of a page is placed where the label goes: whether
    [label_tm] is one of its instructions. *)
Definition has_label (ops : list (list N)) : bool := existsb (str_eqb label_tm) ops.

(** *** Reading a string literal *)

(** A PDF reader on the text after the opening parenthesis of a string
    literal: a backslash stands for the character after it, parentheses
    that are not escaped nest, and the literal ends at the closing one that
    matches the opening.  The result is the string read and the text after
    the literal; there is none when the literal does not end. *)
Fixpoint read_literal (depth : nat) (s : list N) : option (list N * list N) :=
  match s with
  | [] => None
  | c :: r =>
      if (c =? 92)%N then
        match r with
        | d :: r' => '(v, rest) ← read_literal depth r'; Some (d :: v, rest)
        | [] => None
        end
      else if (c =? 40)%N then
        '(v, rest) ← read_literal (S depth) r; Some (c :: v, rest)
      else if (c =? 41)%N then
        match depth with
        | O => Some ([], r)
        | S depth' => '(v, rest) ← read_literal depth' r; Some (c :: v, rest)
        end
      else '(v, rest) ← read_literal depth r; Some (c :: v, rest)
  end.

(** *** Calls of the drawing methods *)

(** A drawing step that only appends instructions, all of them with the
    property [P]. *)
Definition emits (P : list N → Prop) (draw : StyledPdf → StyledPdf) : Prop :=
  emitter draw ∧ ∀ th, Forall P (ops_of draw th).

(** The calls of the methods of [StyledPdf] that draw, with any arguments. *)
Inductive drawing_call : (StyledPdf → StyledPdf) → Prop :=
| call_cmd line : drawing_call (fun self => cmd self line)
| call_color_fill c : drawing_call (fun self => color_fill self c)
| call_color_stroke c : drawing_call (fun self => color_stroke self c)
| call_rect x y w h fill stroke line_width :
    drawing_call (fun self => rect self x y w h fill stroke line_width)
| call_text x y value size font color :
    drawing_call (fun self => text self x y value size font color)
| call_draw_decor : drawing_call draw_decor.

(** The calls that write numbers and operators only, and the calls of
    [text] with a font name and a value in ASCII. *)
Inductive ascii_call : (StyledPdf → StyledPdf) → Prop :=
| ascii_color_fill c : ascii_call (fun self => color_fill self c)
| ascii_color_stroke c : ascii_call (fun self => color_stroke self c)
| ascii_rect x y w h fill stroke line_width :
    ascii_call (fun self => rect self x y w h fill stroke line_width)
| ascii_text x y value size font color :
    is_ascii font = true → is_ascii value = true →
    ascii_call (fun self => text self x y value size font color)
| ascii_draw_decor : ascii_call draw_decor.

(** *** Where the body is drawn *)

(** The instructions of one text of the body drawn with the cursor at [y]. *)
Inductive body_text_at (th : Theme.Theme) (y : Z) : list (list N) → Prop :=
| heading_text_at value :
    body_text_at th y (text_ops th x_text y value 11 (py "F2") (Theme.accent th))
| bullet_text_at value :
    body_text_at th y (text_ops th (x_text + 8) y value 9.6 (py "F1") (Theme.text th))
| plain_text_at value :
    body_text_at th y (text_ops th x_text y value 9.8 (py "F1") (Theme.text th)).

(** Body text drawn with every cursor between [lo] and [hi]. *)
Inductive body_between (th : Theme.Theme) (lo hi : Z) : list (list N) → Prop :=
| body_between_nil : body_between th lo hi []
| body_between_snoc ops y ops' :
    body_between th lo hi ops → body_text_at th y ops' → lo ≤ y ≤ hi →
    body_between th lo hi (ops ++ ops').

(** The cursor the body of a page starts at: below the metrics row on the
    first page, below the small header on the others. *)
Definition top_of_body (i : nat) : Z :=
  match i with
  | O => container_y - 18
  | S _ => PAGE_HEIGHT - 112
  end.

(** The instructions of the page of index [i] with its body inside the
    body area. *)
Definition page_within (name subtitle : list N) (i : nat) (ops : list (list N)) : Prop :=
  ∃ body, body_between Theme_default (bottom_limit + 10) (top_of_body i) body
          ∧ ops = page_head Theme_default name subtitle i ++ body.

(** The invariant of the body loop on the object and the cursor. *)
Record layout_bounds (name subtitle : list N) (st : StyledPdf * Z) : Prop := {
  bounds_theme : theme st.1 = Theme_default;
  bounds_page_no : page_no st.1 = len (page_streams st.1) + 1;
  bounds_cursor : st.2 ≤ top_of_body (length (page_streams st.1));
  bounds_pages : ∀ (i : nat) stream, page_streams st.1 !! i = Some stream →
                 ∃ ops, page_within name subtitle i ops ∧ stream = concat ops;
  bounds_current : page_within name subtitle (length (page_streams st.1))
                               (current_stream st.1) }.

(** *** Pages that grow *)

(** The pages an object would have were its open page finished now. *)
Definition pages_so_far (pdf : StyledPdf) : list (list N) :=
  page_streams pdf ++ [concat (current_stream pdf)].

(** [pdf'] continues [pdf]: it has the finished pages of [pdf], then the
    open page of [pdf] with more at its end, then more pages. *)
Definition continues (pdf pdf' : StyledPdf) : Prop :=
  ∃ extra rest,
    pages_so_far pdf'
    = page_streams pdf ++ [concat (current_stream pdf) ++ extra] ++ rest.

(** *** The file and its bytes *)

(** An indirect object as it stands in a PDF file: the digits of its id
    and [0 obj] on a line, the object, and [endobj] on a line of its own.
    [None] when the dictionary has no object of that id. *)
Definition object_bytes (objects : gmap Z (list byte)) (obj_id : Z) : option (list byte) :=
  body ← objects !! obj_id;
  Some (encode_latin1_replace (str_of_Z obj_id ++ py " 0 obj" ++ [LF])
        ++ body ++ NL ++ pyb "endobj" ++ NL).

(** Bytes read as Latin-1: one character per octet. *)
Definition decode_latin1 (b : list byte) : list N := map Byte.to_N b.

(** A string of characters up to U+00FF. *)
Definition latin1 (s : list N) : bool := forallb (fun c => (c <? 256)%N) s.

(** An object all of whose pages, the open one included, are Latin-1. *)
Definition latin1_object (pdf : StyledPdf) : Prop :=
  Forall (fun stream => latin1 stream = true) (page_streams pdf)
  ∧ Forall (fun op => latin1 op = true) (current_stream pdf).

(** *** What the body draws *)







(* ===================================================================== *)
(** * Properties                                                          *)
(* ===================================================================== *)

(* ===================================================================== *)
(** ** pdf_escape                                                         *)
(* ===================================================================== *)

Lemma replace1_app old new s1 s2 :
  replace1 old new (s1 ++ s2) = replace1 old new s1 ++ replace1 old new s2.
Proof. unfold replace1. apply flat_map_app. Qed.

Lemma replace1_cons old new c s :
  replace1 old new (c :: s) = (if (c =? old)%N then new else [c]) ++ replace1 old new s.
Proof. reflexivity. Qed.

Lemma pdf_escape_cons c s : pdf_escape (c :: s) = escape_char c ++ pdf_escape s.
Proof.
  unfold pdf_escape. rewrite replace1_cons, !replace1_app. f_equal.
  unfold escape_char.
  destruct (N.eqb_spec c 92) as [->|H92]; [reflexivity|].
  destruct (N.eqb_spec c 40) as [->|H40]; [reflexivity|].
  destruct (N.eqb_spec c 41) as [->|H41]; [reflexivity|].
  cbn. rewrite (proj2 (N.eqb_neq c 40) H40). cbn.
  now rewrite (proj2 (N.eqb_neq c 41) H41).
Qed.

Lemma pdf_escape_flat_map s : pdf_escape s = flat_map escape_char s.
Proof.
  induction s as [|c s IH]; [reflexivity|].
  rewrite pdf_escape_cons, IH. reflexivity.
Qed.

Lemma unescape_escape_char c s :
  unescape (escape_char c ++ s) = c :: unescape s.
Proof.
  unfold escape_char.
  destruct (N.eqb_spec c 92) as [->|H92]; [reflexivity|].
  cbn [orb]. apply N.eqb_neq in H92.
  destruct ((c =? 40) || (c =? 41))%N; cbn; [reflexivity|].
  now rewrite H92.
Qed.

(** C5. [pdf_escape] puts a backslash before each backslash and parenthesis
    and leaves every other character as it is, and un-escaping its result
    gives the original string back. *)
Theorem pdf_escape_unescape (s : list N) :
  pdf_escape s = flat_map escape_char s ∧ unescape (pdf_escape s) = s.
Proof.
  split; [apply pdf_escape_flat_map|].
  induction s as [|c s IH]; [reflexivity|].
  rewrite pdf_escape_cons, unescape_escape_char, IH. reflexivity.
Qed.

(* ===================================================================== *)
(** ** load_cv_lines                                                      *)
(* ===================================================================== *)

Lemma keep_line_fold lines : ∀ skipped remaining,
  0 ≤ skipped →
  snd (fold_left keep_line lines (skipped, remaining))
  = remaining ++ map rstrip (remove_first_nonblank (Z.to_nat (2 - skipped)) lines).
Proof.
  induction lines as [|ln lines IH]; intros skipped remaining Hs; cbn [fold_left].
  - cbn. now rewrite app_nil_r.
  - cbn [remove_first_nonblank keep_line]. unfold blank_line.
    destruct (is_empty (strip ln)) eqn:Hb; cbn [negb].
    + rewrite IH by lia. cbn [map]. now rewrite <- app_assoc.
    + destruct (Z.leb_spec (skipped + 1) 2) as [Hle|Hgt].
      * rewrite IH by lia.
        replace (Z.to_nat (2 - skipped)) with (S (Z.to_nat (2 - (skipped + 1)))) by lia.
        reflexivity.
      * rewrite IH by lia.
        replace (Z.to_nat (2 - skipped)) with O by lia.
        replace (Z.to_nat (2 - (skipped + 1))) with O by lia.
        cbn [map]. now rewrite <- app_assoc.
Qed.

(** C10. [load_cv_lines] falls back on the fixed name and subtitle when the
    file has no non-blank line, takes the only non-blank line (trimmed) as
    the name and the fixed subtitle when there is exactly one, and in every
    case returns as body the lines of the file without the first two
    non-blank ones, each right-stripped, in the original order. *)
Theorem load_cv_lines_defaults_and_body (file_text : list N) :
  let lines := splitlines file_text in
  let non_blank := List.filter (fun ln => negb (blank_line ln)) lines in
  let '(name, subtitle, body) := load_cv_lines file_text in
  (non_blank = [] → name = default_name ∧ subtitle = default_subtitle)
  ∧ (∀ only, non_blank = [only] → name = strip only ∧ subtitle = default_subtitle)
  ∧ body = map rstrip (remove_first_nonblank 2 lines).
Proof.
  cbv zeta. unfold load_cv_lines.
  pose proof (keep_line_fold (splitlines file_text) 0 [] ltac:(lia)) as Hbody.
  destruct (fold_left keep_line (splitlines file_text) (0, [])) as [sk remaining].
  cbn [snd] in Hbody. subst remaining. cbn [app].
  cbv beta iota.
  change (fun ln : list N => negb (is_empty (strip ln)))
    with (fun ln : list N => negb (blank_line ln)).
  split; [|split].
  - intros ->. now split.
  - intros only ->. now split.
  - reflexivity.
Qed.

(* ===================================================================== *)
(** ** textwrap: words and chunks                                         *)
(* ===================================================================== *)

Lemma len_app {A} (l1 l2 : list A) : len (l1 ++ l2) = len l1 + len l2.
Proof. unfold len. rewrite length_app. lia. Qed.

Lemma len_nonneg {A} (l : list A) : 0 ≤ len l.
Proof. unfold len. lia. Qed.

Lemma len_nil {A} : len (@nil A) = 0.
Proof. reflexivity. Qed.

Lemma len_cons {A} (x : A) l : len (x :: l) = 1 + len l.
Proof. unfold len. cbn [length]. lia. Qed.

Lemma len_concat_nil {A} : len (concat (@nil (list A))) = 0.
Proof. reflexivity. Qed.

Lemma whitespace_isspace c : textwrap.whitespace c = true → isspace c = true.
Proof.
  unfold textwrap.whitespace, isspace. intros H.
  apply orb_true_iff in H as [H|H].
  - rewrite H. reflexivity.
  - apply N.eqb_eq in H. subst c. reflexivity.
Qed.

Lemma flush_nonempty c cur : flush (c :: cur) = [rev (c :: cur)].
Proof. reflexivity. Qed.

Lemma tokens_from_app_ws a : ∀ cur c b,
  textwrap.whitespace c = true →
  tokens_from cur (a ++ c :: b) = tokens_from cur a ++ tokens_from [] b.
Proof.
  induction a as [|x a IH]; intros cur c b Hc; cbn.
  - now rewrite Hc.
  - destruct (textwrap.whitespace x).
    + rewrite (IH [] c b Hc). now rewrite app_assoc.
    + apply IH, Hc.
Qed.

Lemma tokens_from_word w : ∀ cur rest,
  Forall (fun c => textwrap.whitespace c = false) w →
  tokens_from cur (w ++ rest) = tokens_from (rev w ++ cur) rest.
Proof.
  induction w as [|x w IH]; intros cur rest Hw; [reflexivity|].
  inversion Hw as [|? ? Hx Hw']; subst. cbn. rewrite Hx, IH by assumption.
  now rewrite <- app_assoc.
Qed.

Lemma tokens_from_space s : ∀ cur rest,
  s ≠ [] → Forall (fun c => textwrap.whitespace c = true) s →
  tokens_from cur (s ++ rest) = flush cur ++ tokens_from [] rest.
Proof.
  induction s as [|x s IH]; intros cur rest Hne Hs; [congruence|].
  inversion Hs as [|? ? Hx Hs']; subst. cbn. rewrite Hx. f_equal.
  destruct s as [|y s]; [reflexivity|].
  rewrite IH; [reflexivity|discriminate|assumption].
Qed.

Lemma words_app_space a b : words (a ++ SP :: b) = words a ++ words b.
Proof.
  unfold words. rewrite tokens_from_app_ws by reflexivity.
  apply List.filter_app.
Qed.

Lemma words_join_space lines :
  words (join (py " ") lines) = flat_map words lines.
Proof.
  induction lines as [|l lines IH]; [reflexivity|].
  destruct lines as [|l' lines].
  - cbn. now rewrite app_nil_r.
  - change (join (py " ") (l :: l' :: lines)) with (l ++ SP :: join (py " ") (l' :: lines)).
    rewrite words_app_space, IH. reflexivity.
Qed.

Lemma well_formed_app_r cs1 cs2 : well_formed (cs1 ++ cs2) → well_formed cs2.
Proof.
  induction cs1 as [|c cs1 IH]; [trivial|]. cbn [app well_formed].
  intros (_ & _ & H). now apply IH.
Qed.

Lemma well_formed_app_l cs1 cs2 : well_formed (cs1 ++ cs2) → well_formed cs1.
Proof.
  induction cs1 as [|c cs1 IH]; [constructor|]. cbn [app well_formed].
  intros (Hc & Hn & H). split; [assumption|]. split; [|now apply IH].
  destruct cs1; [trivial|exact Hn].
Qed.

Lemma split_cons c r :
  textwrap._split (c :: r)
  = match textwrap._split r with
    | (d :: w) :: rest =>
        if Bool.eqb (textwrap.whitespace c) (textwrap.whitespace d)
        then (c :: d :: w) :: rest else [c] :: (d :: w) :: rest
    | chunks => [c] :: chunks
    end.
Proof. reflexivity. Qed.

Lemma split_spec s :
  well_formed (textwrap._split s) ∧ concat (textwrap._split s) = s
  ∧ match textwrap._split s, s with
    | c :: _, x :: _ => chunk_is_space c = textwrap.whitespace x
    | [], [] => True
    | _, _ => False
    end.
Proof.
  induction s as [|x s (Hwf & Hcat & Hhd)]; [now cbn|].
  rewrite split_cons.
  destruct (textwrap._split s) as [|[|d w] rest] eqn:Hs.
  - destruct s; [|contradiction].
    repeat split; try constructor; auto; try discriminate.
  - destruct Hwf as ((Hne & _) & _). congruence.
  - destruct s as [|y s]; [contradiction|].
    cbn [chunk_is_space] in Hhd. destruct Hwf as ((_ & Hd) & Hn & Hwf).
    cbn [chunk_is_space] in Hd, Hn. cbn [concat] in Hcat.
    destruct (Bool.eqb (textwrap.whitespace x) (textwrap.whitespace d)) eqn:He.
    + apply Bool.eqb_prop in He.
      split; [|split]; [|cbn [concat app]; now rewrite <- Hcat|reflexivity].
      cbn [well_formed]. rewrite <- He in Hd, Hn.
      split; [|split]; [|assumption|assumption].
      split; [discriminate|]. constructor; [reflexivity|exact Hd].
    + apply Bool.eqb_false_iff in He.
      split; [|split]; [|cbn [concat app]; now rewrite <- Hcat|reflexivity].
      split; [|split].
      * split; [discriminate|]. cbn [chunk_is_space].
        constructor; [reflexivity|constructor].
      * cbn [chunk_is_space].
        revert He. clear.
        destruct (textwrap.whitespace x), (textwrap.whitespace d); cbn; congruence.
      * split; [|split]; [|assumption|assumption].
        split; [discriminate|assumption].
Qed.

Lemma space_chunk_blank c :
  homogeneous c → chunk_is_space c = true → blank c = true.
Proof.
  intros (_ & H) Hs. rewrite Hs in H. unfold blank.
  apply forallb_forall. intros x Hx. apply whitespace_isspace.
  rewrite Forall_forall in H. apply H. now apply list_elem_of_In.
Qed.

Lemma flush_rev (c : list N) : c ≠ [] → flush (rev c) = [c].
Proof.
  intros Hne. unfold flush. destruct (rev c) eqn:Hr.
  - apply (f_equal (@rev N)) in Hr. rewrite rev_involutive in Hr. now subst c.
  - cbn [is_empty]. rewrite <- Hr, rev_involutive. reflexivity.
Qed.

Lemma tokens_concat cs :
  well_formed cs →
  tokens_from [] (concat cs) = List.filter (fun c => negb (chunk_is_space c)) cs.
Proof.
  induction cs as [|c cs IH]; [reflexivity|].
  intros (Hc & Hn & Hwf). specialize (IH Hwf).
  destruct Hc as (Hne & Hc). cbn [concat List.filter].
  destruct (chunk_is_space c) eqn:Hs; cbn [negb].
  - rewrite tokens_from_space; [exact IH|assumption|assumption].
  - rewrite tokens_from_word by assumption. rewrite app_nil_r.
    destruct cs as [|d cs].
    + cbn [concat tokens_from List.filter]. now apply flush_rev.
    + cbn [negb] in Hn. destruct Hwf as ((Hdne & Hd) & _). rewrite Hn in Hd.
      cbn [concat] in *. rewrite tokens_from_space in * by assumption.
      cbn [flush is_empty app] in IH. rewrite IH, flush_rev by assumption.
      reflexivity.
Qed.

Lemma words_concat cs :
  well_formed cs → words (concat cs) = List.filter (fun c => negb (blank c)) cs.
Proof.
  intros Hwf. unfold words. rewrite tokens_concat by assumption.
  induction cs as [|c cs IH]; [reflexivity|].
  destruct Hwf as (Hc & _ & Hwf). cbn [List.filter].
  destruct (chunk_is_space c) eqn:Hs; cbn [negb].
  - rewrite (space_chunk_blank c Hc Hs). cbn. now apply IH.
  - cbn [List.filter]. rewrite IH by assumption. reflexivity.
Qed.

Lemma tokens_from_translate s : ∀ cur,
  tokens_from cur (map (fun c => if textwrap.whitespace c then SP else c) s)
  = tokens_from cur s.
Proof.
  induction s as [|c s IH]; intros cur; [reflexivity|]. cbn [map tokens_from].
  destruct (textwrap.whitespace c) eqn:Hc.
  - change (textwrap.whitespace SP) with true. cbn iota. now rewrite IH.
  - rewrite Hc. apply IH.
Qed.

Lemma tokens_from_spaces k cur rest :
  tokens_from cur (repeat SP (S k) ++ rest) = flush cur ++ tokens_from [] rest.
Proof.
  apply tokens_from_space; [discriminate|].
  apply Forall_forall. intros x Hx. apply list_elem_of_In, repeat_spec in Hx. now subst x.
Qed.

Lemma tokens_from_expandtabs s : ∀ col cur,
  tokens_from cur (textwrap.expandtabs_from 8 col s) = tokens_from cur s.
Proof.
  induction s as [|c s IH]; intros col cur; [reflexivity|].
  cbn [textwrap.expandtabs_from].
  destruct (N.eqb_spec c TAB) as [->|Htab].
  - pose proof (Nat.mod_upper_bound col 8 ltac:(lia)) as Hlt.
    destruct (8 - col mod 8)%nat as [|k] eqn:Hk; [lia|].
    rewrite tokens_from_spaces, IH. reflexivity.
  - destruct ((c =? LF) || (c =? CR))%N; cbn [tokens_from];
      destruct (textwrap.whitespace c); now rewrite ?IH.
Qed.

Lemma words_munge text : words (textwrap._munge_whitespace text) = words text.
Proof.
  unfold words, textwrap._munge_whitespace, textwrap.expandtabs.
  now rewrite tokens_from_translate, tokens_from_expandtabs.
Qed.

(** The chunks [wrap] hands to [_wrap_chunks] carry the words of the text. *)
Lemma words_split_munge text :
  let chunks := textwrap._split (textwrap._munge_whitespace text) in
  well_formed chunks ∧ List.filter (fun c => negb (blank c)) chunks = words text.
Proof.
  cbv zeta.
  destruct (split_spec (textwrap._munge_whitespace text)) as (Hwf & Hcat & _).
  split; [assumption|].
  rewrite <- words_concat, Hcat by assumption. apply words_munge.
Qed.

(* ===================================================================== *)
(** ** textwrap: the wrapping loop                                        *)
(* ===================================================================== *)

Lemma fill_line_spec width chunks : ∀ cur n,
  ∃ taken rest,
    textwrap.fill_line width chunks cur n = (cur ++ taken, n + len (concat taken), rest)
    ∧ chunks = taken ++ rest
    ∧ (taken = [] ∨ n + len (concat taken) ≤ width)
    ∧ match rest with
      | c :: _ => width < n + len (concat taken) + len c
      | [] => True
      end.
Proof.
  induction chunks as [|c chunks IH]; intros cur n; cbn [textwrap.fill_line].
  - exists [], []. rewrite app_nil_r. cbn. rewrite Z.add_0_r. auto.
  - destruct (Z.leb_spec (n + len c) width) as [Hfit|Hno].
    + destruct (IH (cur ++ [c]) (n + len c)) as (taken & rest & Hf & Hs & Hb & Hn).
      exists (c :: taken), rest. cbn [concat]. rewrite len_app, Z.add_assoc.
      rewrite Hf, <- app_assoc. cbn [app]. subst chunks.
      repeat split; try assumption.
      right. destruct Hb as [->|Hb]; [|lia].
      rewrite len_concat_nil. lia.
    + exists [], (c :: chunks). rewrite app_nil_r. cbn. rewrite Z.add_0_r.
      repeat split; auto.
Qed.

Lemma drop_trailing_spec (cur : list (list N)) :
  ∃ kept post,
    match last cur with
    | Some c => if blank c then removelast cur else cur
    | None => cur
    end = kept
    ∧ cur = kept ++ post
    ∧ Forall (fun c => blank c = true) post
    ∧ (post = [] → ∀ c, last cur = Some c → blank c = false).
Proof.
  destruct (last cur) as [c|] eqn:Hl.
  - destruct (blank c) eqn:Hb.
    + apply last_Some in Hl as (l' & ->). exists l', [c].
      rewrite removelast_last. repeat split; [now constructor|discriminate].
    + exists cur, []. rewrite app_nil_r. repeat split; [constructor|].
      intros _ c' [= <-]. exact Hb.
  - exists cur, []. rewrite app_nil_r. repeat split; [constructor|discriminate].
Qed.

Lemma len_concat_app_le (kept post : list (list N)) :
  len (concat kept) ≤ len (concat (kept ++ post)).
Proof. rewrite concat_app, len_app. pose proof (len_nonneg (concat post)). lia. Qed.

(** One pass of the outer loop splits the chunks into blank chunks it
    drops, the chunks of the line it emits, and the chunks it leaves. *)
Lemma wrap_line_spec width lines chunks :
  0 ≤ width → chunks ≠ [] →
  ∃ pre cur post rest,
    textwrap.wrap_line width lines chunks
    = (if is_empty cur then lines else lines ++ [concat cur], rest)
    ∧ chunks = pre ++ cur ++ post ++ rest
    ∧ Forall (fun c => blank c = true) pre
    ∧ Forall (fun c => blank c = true) post
    ∧ (length rest < length chunks)%nat
    ∧ (len (concat cur) ≤ width ∨ ∃ c, cur = [c] ∧ width < len c ∧ blank c = false).
Proof.
  intros Hw Hne. destruct chunks as [|c0 r0]; [congruence|]. clear Hne.
  unfold textwrap.wrap_line.
  set (chunks1 := if blank c0 && negb (is_empty lines) then r0 else c0 :: r0).
  assert (Hpre : ∃ pre, c0 :: r0 = pre ++ chunks1
                        ∧ Forall (fun c => blank c = true) pre
                        ∧ (pre = [] → chunks1 = c0 :: r0)).
  { subst chunks1. destruct (blank c0 && negb (is_empty lines)) eqn:Hd.
    - exists [c0]. apply andb_true_iff in Hd as (Hb & _).
      repeat split; [now constructor|discriminate].
    - exists []. repeat split; constructor. }
  destruct Hpre as (pre & Hsplit & Hblank & Hpre0).
  destruct (fill_line_spec width chunks1 [] 0) as (taken & rest1 & Hf & Hs & Hb & Hn).
  rewrite Hf. cbn [app]. rewrite Z.add_0_l in *.
  assert (Hlong : ∃ cur rest,
    match rest1 with
    | c :: _ => if width <? len c then textwrap._handle_long_word rest1 taken
                else (taken, rest1)
    | [] => (taken, rest1)
    end = (cur, rest)
    ∧ taken ++ rest1 = cur ++ rest
    ∧ (len (concat cur) ≤ width ∨ ∃ c, cur = [c] ∧ width < len c)
    ∧ (pre = [] → length rest < length (c0 :: r0))%nat).
  { destruct rest1 as [|c r1].
    - exists taken, []. repeat split.
      + destruct Hb as [->|Hb]; [left; rewrite len_concat_nil; lia|now left].
      + intros Hp. rewrite (Hpre0 Hp) in Hs. rewrite Hs, app_nil_r.
        destruct taken; [discriminate|cbn; lia].
    - destruct (Z.ltb_spec width (len c)) as [Hl|Hl].
      + cbn [textwrap._handle_long_word]. destruct taken as [|t taken].
        * exists [c], r1. repeat split.
          -- right. now exists c.
          -- intros Hp. rewrite (Hpre0 Hp) in Hs. cbn in Hs. rewrite Hs. cbn. lia.
        * exists (t :: taken), (c :: r1). repeat split.
          -- destruct Hb as [Hb|Hb]; [discriminate|now left].
          -- intros Hp. rewrite (Hpre0 Hp) in Hs. rewrite Hs, length_app. cbn. lia.
      + exists taken, (c :: r1). repeat split.
        * destruct Hb as [->|Hb]; [left; rewrite len_concat_nil; lia|now left].
        * intros Hp. rewrite (Hpre0 Hp) in Hs. rewrite Hs, length_app.
          destruct taken as [|t taken]; [|cbn; lia].
          exfalso. rewrite len_concat_nil in Hn. lia. }
  destruct Hlong as (cur & rest & Hh & Hsplit2 & Hbudget & Hprog). rewrite Hh.
  destruct (drop_trailing_spec cur) as (kept & post & Hk & Hcur & Hpost & Hlast).
  rewrite Hk.
  exists pre, kept, post, rest. repeat split; try assumption.
  - rewrite Hsplit, Hs, Hsplit2, Hcur, <- app_assoc. reflexivity.
  - destruct pre as [|p pre]; [now apply Hprog|].
    apply (f_equal (@length _)) in Hsplit.
    rewrite Hs, Hsplit2 in Hsplit. cbn in Hsplit. rewrite !length_app in Hsplit.
    cbn. lia.
  - destruct Hbudget as [Hle|(c & -> & Hl)].
    + left. subst cur. pose proof (len_concat_app_le kept post). lia.
    + destruct kept as [|k kept].
      * left. rewrite len_concat_nil. lia.
      * right. exists c. destruct kept; [|destruct kept; discriminate].
        cbn in Hcur. destruct post; [|discriminate]. inversion Hcur. subst k.
        repeat split; [assumption|]. now apply Hlast.
Qed.

Lemma filter_blank_chunks (cs : list (list N)) :
  Forall (fun c => blank c = true) cs → List.filter (fun c => negb (blank c)) cs = [].
Proof.
  induction 1 as [|c cs Hc _ IH]; [reflexivity|]. cbn. now rewrite Hc.
Qed.

Lemma wrap_line_words width lines chunks :
  0 ≤ width → chunks ≠ [] → well_formed chunks →
  ∃ new rest,
    textwrap.wrap_line width lines chunks = (lines ++ new, rest)
    ∧ (length rest < length chunks)%nat
    ∧ well_formed rest
    ∧ flat_map words new ++ List.filter (fun c => negb (blank c)) rest
      = List.filter (fun c => negb (blank c)) chunks
    ∧ Forall (within_budget_or_single_word width) new.
Proof.
  intros Hw Hne Hwf.
  destruct (wrap_line_spec width lines chunks Hw Hne)
    as (pre & cur & post & rest & Hl & Hsplit & Hpre & Hpost & Hlt & Hbudget).
  assert (Hwf_cur : well_formed cur).
  { rewrite Hsplit in Hwf. now apply well_formed_app_r, well_formed_app_l in Hwf. }
  assert (Hwf_rest : well_formed rest).
  { rewrite Hsplit in Hwf. now do 3 apply well_formed_app_r in Hwf. }
  assert (Hfilter : List.filter (fun c => negb (blank c)) chunks
                    = List.filter (fun c => negb (blank c)) cur
                      ++ List.filter (fun c => negb (blank c)) rest).
  { rewrite Hsplit, !List.filter_app.
    now rewrite (filter_blank_chunks pre), (filter_blank_chunks post). }
  exists (if is_empty cur then [] else [concat cur]), rest. rewrite Hl, Hfilter.
  destruct cur as [|c cur]; cbn [is_empty].
  - rewrite app_nil_r. repeat split; auto.
  - repeat split; try assumption.
    + cbn [flat_map]. rewrite app_nil_r, words_concat by assumption. reflexivity.
    + constructor; [|constructor]. unfold within_budget_or_single_word.
      destruct Hbudget as [Hle|(c' & [= -> ->] & Hlong & Hnb)]; [now left|right].
      rewrite words_concat by assumption. cbn [List.filter concat].
      rewrite Hnb, app_nil_r. cbn. auto.
Qed.

(** The loop never runs out of [fuel] when it starts with one unit per chunk. *)
Lemma wrap_loop_fuel width : 0 ≤ width → ∀ fuel1 fuel2 lines chunks,
  (length chunks ≤ fuel1)%nat → (length chunks ≤ fuel2)%nat →
  textwrap.wrap_loop fuel1 width lines chunks = textwrap.wrap_loop fuel2 width lines chunks.
Proof.
  intros Hw. induction fuel1 as [|fuel1 IH]; intros fuel2 lines chunks H1 H2.
  - destruct chunks; [|cbn in H1; lia]. now destruct fuel2.
  - destruct chunks as [|c chunks]; [now destruct fuel2|].
    destruct fuel2 as [|fuel2]; [cbn in H2; lia|].
    cbn [textwrap.wrap_loop].
    destruct (wrap_line_spec width lines (c :: chunks) Hw ltac:(discriminate))
      as (pre & cur & post & rest & Hl & _ & _ & _ & Hlt & _).
    rewrite Hl. apply IH; cbn in *; lia.
Qed.

Lemma wrap_loop_words width : 0 ≤ width → ∀ fuel lines chunks,
  (length chunks ≤ fuel)%nat → well_formed chunks →
  ∃ new,
    textwrap.wrap_loop fuel width lines chunks = lines ++ new
    ∧ flat_map words new = List.filter (fun c => negb (blank c)) chunks
    ∧ Forall (within_budget_or_single_word width) new.
Proof.
  intros Hw. induction fuel as [|fuel IH]; intros lines chunks Hfuel Hwf.
  - destruct chunks; [|cbn in Hfuel; lia].
    exists []. rewrite app_nil_r. repeat split. constructor.
  - destruct chunks as [|c chunks].
    + exists []. rewrite app_nil_r. repeat split. constructor.
    + cbn [textwrap.wrap_loop].
      destruct (wrap_line_words width lines (c :: chunks) Hw ltac:(discriminate) Hwf)
        as (new & rest & Hl & Hlt & Hwf' & Hwords & Hfit).
      rewrite Hl.
      destruct (IH (lines ++ new) rest ltac:(cbn in *; lia) Hwf')
        as (new' & Hloop & Hwords' & Hfit').
      exists (new ++ new'). rewrite Hloop, <- app_assoc.
      repeat split.
      * rewrite flat_map_app, Hwords', Hwords. reflexivity.
      * now apply Forall_app.
Qed.

(** What [textwrap.wrap] returns carries the words of the text, line by
    line, and each line respects the width unless it is one long word. *)
Lemma textwrap_wrap_spec text width lines :
  textwrap.wrap text width = Some lines →
  0 < width ∧ flat_map words lines = words text
  ∧ Forall (within_budget_or_single_word width) lines.
Proof.
  unfold textwrap.wrap, textwrap._wrap_chunks.
  destruct (Z.leb_spec width 0) as [|Hw]; [discriminate|]. intros [= <-].
  destruct (words_split_munge text) as (Hwf & Hwords).
  destruct (wrap_loop_words width ltac:(lia) _ [] _ (Nat.le_refl _) Hwf)
    as (new & Hloop & Hnew & Hfit).
  rewrite Hloop. cbn [app]. rewrite Hnew, Hwords. auto.
Qed.

Lemma max_chars_ge width font_size bold n :
  max_chars width font_size bold = Some n → 12 ≤ n.
Proof.
  unfold max_chars. destruct (py_truediv _ _); [|discriminate]. cbn.
  destruct (py_int _); [|discriminate]. cbn. intros [= <-]. lia.
Qed.

(** How [wrap_text] comes to its result on a non-empty text. *)
Lemma wrap_text_nonempty text width font_size bold result :
  text ≠ [] →
  wrap_text text width font_size bold = Some result →
  ∃ n lines, max_chars width font_size bold = Some n
             ∧ textwrap.wrap text n = Some lines
             ∧ result = if is_empty lines then [text] else lines.
Proof.
  intros Hne. unfold wrap_text. destruct text as [|c text]; [congruence|].
  cbn [is_empty].
  destruct (max_chars width font_size bold) as [n|]; [|discriminate]. cbn.
  destruct (textwrap.wrap _ n) as [lines|] eqn:Hw; [|discriminate]. cbn.
  intros [= <-]. eauto.
Qed.

(** C1, counterexample.  Twenty spaces with a budget of 18: [textwrap.wrap]
    yields no line, [wrap_text] falls back on the text itself, and that
    line is longer than the budget without being a word. *)
Lemma wrap_text_blank_over_budget : ¬ wrap_text_words_and_budget.
Proof.
  intros H.
  destruct (H (repeat SP 20) 100%float 10%float false [repeat SP 20] 18
              ltac:(vm_compute; reflexivity) ltac:(vm_compute; reflexivity)) as (_ & Hfit).
  inversion Hfit as [|? ? [Hle|(Hw & _)] _]; subst.
  - vm_compute in Hle. now apply Hle.
  - vm_compute in Hw. discriminate.
Qed.

(** C1, amended.  The lines [wrap_text] returns, joined with single spaces,
    have exactly the words of the input, in order; and every line is within
    the character budget, unless it is a single word longer than the budget
    or the input has no word at all and comes back unchanged as the only
    line. *)
Theorem wrap_text_keeps_words_within_budget
    (text : list N) (width font_size : float) (bold : bool) (lines : list (list N)) :
  wrap_text text width font_size bold = Some lines →
  words (join (py " ") lines) = words text
  ∧ ∀ n, max_chars width font_size bold = Some n →
         Forall (fun line => within_budget_or_single_word n line
                             ∨ (lines = [text] ∧ words text = [])) lines.
Proof.
  intros Hwrap. rewrite words_join_space.
  destruct text as [|c text].
  - change (Some [[]] = Some lines) in Hwrap.
    injection Hwrap as <-. split; [reflexivity|].
    intros n Hn%max_chars_ge. constructor; [|constructor].
    left. left. rewrite len_nil. lia.
  - destruct (wrap_text_nonempty (c :: text) _ _ _ _ ltac:(discriminate) Hwrap)
      as (n & lines0 & Hn & Hw & ->).
    destruct (textwrap_wrap_spec _ _ _ Hw) as (_ & Hwords & Hfit).
    destruct lines0 as [|l lines0]; cbn [is_empty].
    + cbn [flat_map] in *. rewrite app_nil_r. split; [reflexivity|].
      intros n' _. constructor; [|constructor]. right. now split.
    + split; [assumption|]. intros n' Hn'. rewrite Hn in Hn'. injection Hn' as <-.
      eapply Forall_impl; [exact Hfit|]. intros line Hline. now left.
Qed.

(** A run of [wrap_text] the theorem applies to: the label of the first
    metric card, wrapped at the budget of 22 characters of a card. *)
Lemma wrap_text_keeps_words_within_budget_witness :
  wrap_text (py "Years in Atlassian environments") 106.75%float 8.8%float false
    = Some [py "Years in Atlassian"; py "environments"]
  ∧ words (join (py " ") [py "Years in Atlassian"; py "environments"])
    = words (py "Years in Atlassian environments")
  ∧ ∀ n, max_chars 106.75%float 8.8%float false = Some n →
         Forall (fun line =>
                   within_budget_or_single_word n line
                   ∨ ([py "Years in Atlassian"; py "environments"]
                      = [py "Years in Atlassian environments"]
                      ∧ words (py "Years in Atlassian environments") = []))
                [py "Years in Atlassian"; py "environments"].
Proof.
  split; [vm_compute; reflexivity|].
  apply (wrap_text_keeps_words_within_budget
           (py "Years in Atlassian environments") 106.75%float 8.8%float false).
  vm_compute. reflexivity.
Defined.

(* ===================================================================== *)
(** ** wrap_text: the budget and the fallbacks                            *)
(* ===================================================================== *)

(** Under [max(12, _)], truncating and flooring a float agree. *)
Lemma py_int_floor_max q :
  (n ← py_int q; Some (Z.max 12 n)) = (n ← py_floor q; Some (Z.max 12 n)).
Proof.
  unfold py_int, py_floor. destruct (Prim2SF q) as [s|s| |s m e]; try reflexivity.
  cbn. f_equal. destruct s; [|reflexivity].
  destruct (Z.leb_spec 0 e) as [He|He].
  - f_equal. rewrite <- Pos2Z.opp_pos. ring.
  - assert (Hd : 0 < 2 ^ (- e)) by (apply Z.pow_pos_nonneg; lia).
    pose proof (Z.div_pos (Z.pos m) (2 ^ (- e)) ltac:(lia) Hd).
    assert (Z.neg m / 2 ^ (- e) ≤ 0) by (apply Z.div_le_upper_bound; lia).
    lia.
Qed.

Lemma max_chars_is_spec width font_size bold :
  max_chars width font_size bold = max_chars_spec width font_size bold.
Proof.
  unfold max_chars, max_chars_spec.
  destruct (py_truediv _ _) as [q|]; [|reflexivity]. apply py_int_floor_max.
Qed.

Lemma split_homogeneous s : homogeneous s → textwrap._split s = [s].
Proof.
  induction s as [|x s IH]; intros (Hne & Hall); [congruence|].
  rewrite split_cons. destruct s as [|d w]; [reflexivity|].
  cbn [chunk_is_space] in Hall. inversion Hall as [|? ? _ Hall']; subst.
  assert (Hd : textwrap.whitespace d = textwrap.whitespace x) by now inversion Hall'.
  rewrite IH.
  - now rewrite Hd, Bool.eqb_reflx.
  - split; [discriminate|]. cbn [chunk_is_space]. now rewrite Hd.
Qed.

Lemma wrap_single_chunk s n :
  textwrap.wrap_loop 1 n [] [s] = if blank s then [] else [s].
Proof.
  cbn [textwrap.wrap_loop]. unfold textwrap.wrap_line.
  cbn [is_empty negb]. rewrite andb_false_r. cbn [textwrap.fill_line].
  destruct (Z.leb_spec (0 + len s) n) as [Hfit|Hno].
  - cbn [app last]. destruct (blank s); cbn; now rewrite ?app_nil_r.
  - cbn [app]. destruct (Z.ltb_spec n (len s)) as [_|]; [|lia].
    cbn [textwrap._handle_long_word is_empty last].
    destruct (blank s); cbn; now rewrite ?app_nil_r.
Qed.

Lemma expandtabs_whitespace s : ∀ col,
  Forall (fun c => textwrap.whitespace c = true) s →
  Forall (fun c => textwrap.whitespace c = true) (textwrap.expandtabs_from 8 col s)
  ∧ (s ≠ [] → textwrap.expandtabs_from 8 col s ≠ []).
Proof.
  induction s as [|c s IH]; intros col Hs; [split; [constructor|congruence]|].
  inversion Hs as [|? ? Hc Hs']; subst. cbn [textwrap.expandtabs_from].
  destruct (N.eqb_spec c TAB) as [->|Htab].
  - pose proof (Nat.mod_upper_bound col 8 ltac:(lia)) as Hlt.
    destruct (8 - col mod 8)%nat as [|k] eqn:Hk; [lia|].
    destruct (IH (col + S k)%nat Hs') as (IH1 & _).
    split; [|discriminate]. apply Forall_app. split; [|assumption].
    apply Forall_forall. intros x Hx%list_elem_of_In%repeat_spec. now subst x.
  - destruct ((c =? LF) || (c =? CR))%N; (split; [|discriminate]);
      constructor; try assumption; now apply IH.
Qed.

Lemma expandtabs_no_whitespace s : ∀ col,
  Forall (fun c => textwrap.whitespace c = false) s →
  textwrap.expandtabs_from 8 col s = s.
Proof.
  induction s as [|c s IH]; intros col Hs; [reflexivity|].
  inversion Hs as [|? ? Hc Hs']; subst. cbn [textwrap.expandtabs_from].
  destruct (N.eqb_spec c TAB) as [->|_]; [discriminate|].
  destruct (N.eqb_spec c LF) as [->|_]; [discriminate|].
  destruct (N.eqb_spec c CR) as [->|_]; [discriminate|].
  cbn [orb]. now rewrite IH.
Qed.

(** A non-empty text of white space only: [textwrap.wrap] has no line for it. *)
Lemma wrap_whitespace_only text n :
  0 < n → text ≠ [] → Forall (fun c => textwrap.whitespace c = true) text →
  textwrap.wrap text n = Some [].
Proof.
  intros Hn Hne Hws. unfold textwrap.wrap, textwrap._wrap_chunks.
  destruct (Z.leb_spec n 0); [lia|].
  destruct (expandtabs_whitespace text 0 Hws) as (He & Hene). specialize (Hene Hne).
  set (m := textwrap._munge_whitespace text).
  assert (Hm : m ≠ [] ∧ Forall (fun c => c = SP) m).
  { subst m. unfold textwrap._munge_whitespace, textwrap.expandtabs.
    destruct (textwrap.expandtabs_from 8 0 text) as [|e es]; [congruence|].
    split; [discriminate|]. apply Forall_forall. intros x Hx.
    apply list_elem_of_In, in_map_iff in Hx as (y & <- & Hy).
    rewrite Forall_forall in He. now rewrite (He y (proj2 (list_elem_of_In _ _) Hy)). }
  destruct Hm as (Hmne & Hsp).
  assert (Hh : homogeneous m).
  { split; [assumption|]. destruct m as [|x m']; [congruence|].
    inversion Hsp; subst. eapply Forall_impl; [exact Hsp|]. now intros ? ->. }
  assert (Hb : blank m = true).
  { apply forallb_forall. intros x Hx. rewrite Forall_forall in Hsp.
    now rewrite (Hsp x (proj2 (list_elem_of_In _ _) Hx)). }
  rewrite (split_homogeneous m Hh). cbn [length].
  now rewrite wrap_single_chunk, Hb.
Qed.

(** A non-empty text without white space is one chunk, never broken. *)
Lemma wrap_no_whitespace text n :
  0 < n → text ≠ [] → Forall (fun c => textwrap.whitespace c = false) text →
  textwrap.wrap text n = Some (if blank text then [] else [text]).
Proof.
  intros Hn Hne Hws. unfold textwrap.wrap, textwrap._wrap_chunks.
  destruct (Z.leb_spec n 0); [lia|].
  assert (Hm : textwrap._munge_whitespace text = text).
  { unfold textwrap._munge_whitespace, textwrap.expandtabs.
    rewrite expandtabs_no_whitespace by assumption.
    clear Hne. induction Hws as [|c s Hc _ IH]; [reflexivity|].
    cbn [map]. now rewrite Hc, IH. }
  rewrite Hm, split_homogeneous.
  - cbn [length]. now rewrite wrap_single_chunk.
  - split; [assumption|]. destruct text as [|x text]; [congruence|].
    cbn [chunk_is_space]. inversion Hws as [|? ? Hx _]; subst. now rewrite Hx.
Qed.

(** [textwrap.wrap] returns on every positive width, and [wrap_text]
    whenever its budget is defined. *)
Lemma wrap_total text width : 0 < width → ∃ lines, textwrap.wrap text width = Some lines.
Proof.
  intros Hw. unfold textwrap.wrap, textwrap._wrap_chunks.
  destruct (Z.leb_spec width 0); [lia|]. eexists. reflexivity.
Qed.

Lemma wrap_text_total text width font_size bold n :
  max_chars width font_size bold = Some n →
  ∃ wrapped, wrap_text text width font_size bold = Some wrapped.
Proof.
  intros Hn. pose proof (max_chars_ge _ _ _ _ Hn) as Hge.
  unfold wrap_text. destruct (is_empty text); [eexists; reflexivity|].
  rewrite Hn. cbn [mbind option_bind].
  destruct (wrap_total text n ltac:(lia)) as [lines ->].
  eexists. reflexivity.
Qed.

(** C4, counterexample.  A space and a word of twenty letters, budget 18:
    the word is wider than the budget, the result is one line, and that
    line is the word without the space, not the original text. *)
Lemma wrap_text_long_word_not_unchanged : ¬ wrap_text_budget_and_unsplit.
Proof.
  intros H.
  destruct (H (SP :: repeat 97%N 20) 100%float 10%float false) as (_ & _ & Hline).
  specialize (Hline 18 (repeat 97%N 20) ltac:(vm_compute; reflexivity)).
  assert (Hne : repeat 97%N 20 ≠ SP :: repeat 97%N 20) by (vm_compute; discriminate).
  apply Hne, Hline; [|vm_compute; reflexivity].
  exists (repeat 97%N 20). split; [vm_compute; auto|vm_compute; reflexivity].
Qed.

(** C4, amended.  [wrap_text] computes its budget as
    [max(12, floor(width / (font_size * factor)))], factor 0.56 when bold
    and 0.53 otherwise; the empty text gives one empty line; with the
    budget defined [wrap_text] returns on every text; and the text comes
    back unchanged as a single line whenever [textwrap.wrap] has no line
    for it, as for a non-empty text of white space only, and whenever the
    text is free of white space, however long it is. *)
Theorem wrap_text_budget_and_fallbacks
    (text : list N) (width font_size : float) (bold : bool) :
  max_chars width font_size bold = max_chars_spec width font_size bold
  ∧ wrap_text [] width font_size bold = Some [[]]
  ∧ ∀ n, max_chars width font_size bold = Some n → text ≠ [] →
         (∃ lines, wrap_text text width font_size bold = Some lines)
         ∧ (textwrap.wrap text n = Some [] → wrap_text text width font_size bold = Some [text])
         ∧ (Forall (fun c => textwrap.whitespace c = true) text →
            wrap_text text width font_size bold = Some [text])
         ∧ (Forall (fun c => textwrap.whitespace c = false) text →
            wrap_text text width font_size bold = Some [text]).
Proof.
  split; [apply max_chars_is_spec|]. split; [reflexivity|].
  intros n Hn Hne. pose proof (max_chars_ge _ _ _ _ Hn) as Hge.
  assert (Hstep : ∀ lines, textwrap.wrap text n = Some lines →
            wrap_text text width font_size bold
            = Some (if is_empty lines then [text] else lines)).
  { intros lines Hw. unfold wrap_text. destruct text as [|c text]; [congruence|].
    cbn [is_empty]. rewrite Hn. cbn. rewrite Hw. reflexivity. }
  split; [exact (wrap_text_total text _ _ _ _ Hn)|]. split; [|split].
  - intros Hw. now rewrite (Hstep _ Hw).
  - intros Hws. now rewrite (Hstep _ (wrap_whitespace_only text n ltac:(lia) Hne Hws)).
  - intros Hws. rewrite (Hstep _ (wrap_no_whitespace text n ltac:(lia) Hne Hws)).
    now destruct (blank text).
Qed.

(* ===================================================================== *)
(** ** Encodings and decimal numerals                                     *)
(* ===================================================================== *)

Lemma is_ascii_app s1 s2 : is_ascii (s1 ++ s2) = is_ascii s1 && is_ascii s2.
Proof. apply forallb_app. Qed.

Lemma encode_latin1_app s1 s2 :
  encode_latin1_replace (s1 ++ s2) = encode_latin1_replace s1 ++ encode_latin1_replace s2.
Proof. apply map_app. Qed.

Lemma length_encode_latin1 s : length (encode_latin1_replace s) = length s.
Proof. apply length_map. Qed.

(** Encoding pure ASCII never raises, and is the Latin-1 encoding. *)
Lemma encode_ascii_ok s :
  is_ascii s = true → encode_ascii s = Some (encode_latin1_replace s).
Proof.
  intros Hs. apply mapM_Some_2. unfold encode_latin1_replace.
  induction s as [|c s IH]; [constructor|].
  cbn in Hs. apply andb_true_iff in Hs as (Hc & Hs).
  cbn [map]. constructor; [|now apply IH].
  rewrite Hc. apply N.ltb_lt in Hc.
  destruct (Byte.of_N c) eqn:Hb; [reflexivity|].
  apply Byte.of_N_None_iff in Hb. lia.
Qed.

Lemma is_ascii_digits d : is_ascii (py (NilEmpty.string_of_uint d)) = true.
Proof.
  unfold is_ascii, py.
  induction d as [|d IH|d IH|d IH|d IH|d IH|d IH|d IH|d IH|d IH|d IH];
    [reflexivity|..];
    cbn [NilEmpty.string_of_uint list_ascii_of_string map forallb];
    rewrite IH; reflexivity.
Qed.

Lemma is_ascii_uint d : is_ascii (py (NilZero.string_of_uint d)) = true.
Proof. destruct d; [reflexivity|..]; apply is_ascii_digits. Qed.

Lemma is_ascii_str_of_Z z : is_ascii (str_of_Z z) = true.
Proof.
  unfold str_of_Z. destruct z as [|p|p]; cbn [Z.to_int NilZero.string_of_int].
  - reflexivity.
  - apply is_ascii_uint.
  - apply (is_ascii_uint (Pos.to_uint p)).
Qed.

Lemma is_ascii_repeat c k : (c <? 128)%N = true → is_ascii (repeat c k) = true.
Proof. intros Hc. induction k; cbn; [reflexivity|]. now rewrite Hc. Qed.

Lemma is_ascii_format_0wd w z : is_ascii (format_0wd w z) = true.
Proof.
  unfold format_0wd. rewrite !is_ascii_app, is_ascii_str_of_Z, is_ascii_repeat by reflexivity.
  now destruct (z <? 0).
Qed.

(** Discharges [is_ascii] of a string put together from literals, numerals
    and padded numerals. *)
Ltac ascii :=
  repeat rewrite is_ascii_app;
  repeat rewrite is_ascii_str_of_Z;
  repeat rewrite is_ascii_format_0wd;
  reflexivity.

(* ===================================================================== *)
(** ** write_pdf: the object dictionary                                   *)
(* ===================================================================== *)

(** [content_object] never raises: its header is ASCII. *)
Lemma content_object_eq stream :
  content_object stream
  = Some (encode_latin1_replace
            (py "<< /Length " ++ str_of_Z (len (encode_latin1_replace stream))
             ++ py " >>" ++ [LF] ++ py "stream" ++ [LF])
          ++ encode_latin1_replace stream ++ pyb "endstream").
Proof. unfold content_object. rewrite encode_ascii_ok by ascii. reflexivity. Qed.

Lemma page_object_some content_id : is_Some (page_object content_id).
Proof. unfold page_object. rewrite encode_ascii_ok by ascii. eauto. Qed.

Lemma is_ascii_join sep parts :
  is_ascii sep = true → Forall (fun p => is_ascii p = true) parts →
  is_ascii (join sep parts) = true.
Proof.
  intros Hsep. induction 1 as [|p parts Hp Hparts IH]; [reflexivity|].
  destruct parts as [|q parts]; [exact Hp|].
  change (join sep (p :: q :: parts)) with (p ++ sep ++ join sep (q :: parts)).
  now rewrite !is_ascii_app, Hp, Hsep, IH.
Qed.

Lemma pages_object_some ids : is_Some (pages_object ids).
Proof.
  unfold pages_object. rewrite encode_ascii_ok; [eauto|].
  rewrite !is_ascii_app, is_ascii_str_of_Z, is_ascii_join; [reflexivity..|].
  apply Forall_forall. intros p Hp.
  apply list_elem_of_In, in_map_iff in Hp as (k & <- & _). ascii.
Qed.

Lemma range_S n : range (S n) = 0 :: map (fun i => i + 1) (range n).
Proof.
  unfold range. cbn [seq map]. f_equal. rewrite <- seq_shift, !map_map.
  apply map_ext. intros i. lia.
Qed.

Lemma add_page_eq (objects : gmap Z (list byte)) ids next stream page content :
  page_object (next + 1) = Some page → content_object stream = Some content →
  add_page (objects, ids, next) stream
  = Some (<[next := page]> (<[next + 1 := content]> objects), ids ++ [next], next + 2).
Proof. intros Hp Hc. unfold add_page. now rewrite Hc, Hp. Qed.

(** The loop over the page streams: the pairs of ids it allots from
    [next_id] on, and what it stores under them. *)
Lemma add_pages_spec streams : ∀ (objects : gmap Z (list byte)) ids next,
  ∃ objects' : gmap Z (list byte),
    for_each add_page streams (objects, ids, next)
    = Some (objects', ids ++ map (fun i => next + 2 * i) (range (length streams)),
            next + 2 * len streams)
    ∧ (∀ k, k < next ∨ next + 2 * len streams ≤ k → objects' !! k = objects !! k)
    ∧ (∀ (i : nat) stream, streams !! i = Some stream →
         objects' !! (next + 2 * Z.of_nat i) = page_object (next + 2 * Z.of_nat i + 1)
         ∧ objects' !! (next + 2 * Z.of_nat i + 1) = content_object stream).
Proof.
  induction streams as [|s streams IH]; intros objects ids next.
  - exists objects. cbn [for_each length range seq map]. rewrite app_nil_r.
    unfold len. cbn [length]. rewrite Z.add_0_r.
    split; [reflexivity|]. split; [auto|].
    intros i stream Hi. now rewrite lookup_nil in Hi.
  - cbn [for_each].
    destruct (page_object_some (next + 1)) as [page Hpage].
    rewrite (add_page_eq _ _ _ _ _ _ Hpage (content_object_eq s)).
    cbn [mbind option_bind].
    set (objects1 := <[next := page]> (<[next + 1 := _]> objects)).
    destruct (IH objects1 (ids ++ [next]) (next + 2)) as (objects' & Hloop & Hout & Hin).
    exists objects'. rewrite Hloop. split; [|split].
    + f_equal. f_equal; [f_equal|rewrite len_cons; lia].
      cbn [length]. rewrite <- app_assoc, range_S. cbn [app map]. rewrite map_map.
      do 2 f_equal; [lia|]. apply map_ext. intros i. lia.
    + intros k Hk. rewrite len_cons in Hk. pose proof (len_nonneg streams).
      rewrite Hout by lia.
      subst objects1. rewrite !lookup_insert_ne by lia. reflexivity.
    + intros [|i] stream Hi.
      * injection Hi as <-. change (Z.of_nat 0) with 0. rewrite Z.mul_0_r, Z.add_0_r.
        rewrite !Hout by lia. subst objects1.
        rewrite lookup_insert_eq, lookup_insert_ne, lookup_insert_eq by lia.
        now rewrite Hpage, content_object_eq.
      * cbn [lookup list_lookup] in Hi. destruct (Hin i stream Hi) as (H1 & H2).
        replace (next + 2 * Z.of_nat (S i)) with (next + 2 + 2 * Z.of_nat i) by lia.
        now rewrite H1, H2.
Qed.

(** The dictionary [write_pdf] has built when it sorts the keys. *)
Lemma build_objects_spec self :
  let streams := page_streams self in
  let ids := map (fun i => 5 + 2 * i) (range (length streams)) in
  ∃ objects : gmap Z (list byte),
    build_objects self = Some (objects, ids)
    ∧ objects !! 1 = Some catalog_object
    ∧ objects !! 2 = pages_object ids
    ∧ objects !! 3 = Some font1_object
    ∧ objects !! 4 = Some font2_object
    ∧ (∀ (i : nat) stream, streams !! i = Some stream →
         objects !! (5 + 2 * Z.of_nat i) = page_object (6 + 2 * Z.of_nat i)
         ∧ objects !! (6 + 2 * Z.of_nat i) = content_object stream)
    ∧ (∀ k, is_Some (objects !! k) ↔ 1 ≤ k ≤ 4 + 2 * len streams).
Proof.
  cbv zeta. unfold build_objects.
  set (base := <[4 := font2_object]> (<[3 := font1_object]> (<[1 := catalog_object]> ∅))
        : gmap Z (list byte)).
  destruct (add_pages_spec (page_streams self) base [] 5) as (objects' & Hloop & Hout & Hin).
  rewrite Hloop. cbn [mbind option_bind app].
  destruct (pages_object_some (map (fun i => 5 + 2 * i) (range (length (page_streams self)))))
    as [pages Hpages].
  rewrite Hpages. cbn [mbind option_bind].
  pose proof (len_nonneg (page_streams self)) as Hn.
  exists (<[2 := pages]> objects'). split; [reflexivity|].
  assert (Hpage : ∀ (i : nat) stream, page_streams self !! i = Some stream →
            <[2 := pages]> objects' !! (5 + 2 * Z.of_nat i) = page_object (6 + 2 * Z.of_nat i)
            ∧ <[2 := pages]> objects' !! (6 + 2 * Z.of_nat i) = content_object stream).
  { intros i stream Hi. rewrite !lookup_insert_ne by lia.
    destruct (Hin i stream Hi) as (H1 & H2).
    replace (6 + 2 * Z.of_nat i) with (5 + 2 * Z.of_nat i + 1) by lia. now split. }
  split; [rewrite lookup_insert_ne, Hout by lia; reflexivity|].
  split; [now rewrite lookup_insert_eq|].
  split; [rewrite lookup_insert_ne, Hout by lia; reflexivity|].
  split; [rewrite lookup_insert_ne, Hout by lia; reflexivity|].
  split; [exact Hpage|].
  intros k. split.
  - destruct (decide (5 ≤ k ≤ 4 + 2 * len (page_streams self))); [lia|].
    destruct (decide (k = 2)) as [->|]; [lia|].
    rewrite lookup_insert_ne, Hout by lia. subst base.
    destruct (decide (k = 4)) as [->|]; [lia|]. rewrite lookup_insert_ne by lia.
    destruct (decide (k = 3)) as [->|]; [lia|]. rewrite lookup_insert_ne by lia.
    destruct (decide (k = 1)) as [->|]; [lia|]. rewrite lookup_insert_ne by lia.
    rewrite lookup_empty. now intros [? ?].
  - intros (Hlo & Hhi).
    destruct (decide (k ≤ 4)) as [Hk|Hk].
    + assert (k = 1 ∨ k = 2 ∨ k = 3 ∨ k = 4) as [-> | [-> | [-> | ->]]] by lia.
      * rewrite lookup_insert_ne, Hout by lia. subst base. eauto.
      * rewrite lookup_insert_eq. eauto.
      * rewrite lookup_insert_ne, Hout by lia. subst base. eauto.
      * rewrite lookup_insert_ne, Hout by lia. subst base. eauto.
    + assert (Hi : ∃ i : nat, (i < length (page_streams self))%nat
                     ∧ (k = 5 + 2 * Z.of_nat i ∨ k = 6 + 2 * Z.of_nat i)).
      { exists (Z.to_nat ((k - 5) / 2)).
        pose proof (Z.div_pos (k - 5) 2 ltac:(lia) ltac:(lia)) as Hq.
        pose proof (Z.div_mod (k - 5) 2 ltac:(lia)).
        pose proof (Z.mod_pos_bound (k - 5) 2 ltac:(lia)).
        unfold len in Hhi. split; lia. }
      destruct Hi as (i & Hi & Hk2).
      destruct (lookup_lt_is_Some_2 _ _ Hi) as [stream Hstream].
      destruct (Hpage i stream Hstream) as (H1 & H2).
      destruct Hk2 as [-> | ->].
      * rewrite H1. apply page_object_some.
      * rewrite H2, content_object_eq. eauto.
Qed.

Lemma Sorted_seqZ (k : nat) : ∀ m, Sorted Z.le (seqZ m (Z.of_nat k)).
Proof.
  induction k as [|k IH]; intros m.
  - rewrite seqZ_nil by reflexivity. constructor.
  - rewrite seqZ_cons by lia. replace (Z.pred (Z.of_nat (S k))) with (Z.of_nat k) by lia.
    constructor; [apply IH|].
    destruct k as [|k].
    + rewrite seqZ_nil by reflexivity. constructor.
    + rewrite seqZ_cons by lia. constructor. lia.
Qed.

(** [sorted(objects)] when the keys are exactly 1 .. [max_id]. *)
Lemma sorted_dense (objects : gmap Z (list byte)) max_id :
  0 ≤ max_id →
  (∀ k, is_Some (objects !! k) ↔ 1 ≤ k ≤ max_id) →
  sorted objects = seqZ 1 max_id.
Proof.
  intros Hmax Hdom. unfold sorted.
  apply (Sorted_unique Z.le).
  - apply Sorted_merge_sort, _.
  - rewrite <- (Z2Nat.id max_id Hmax). apply Sorted_seqZ.
  - rewrite merge_sort_Permutation.
    apply NoDup_Permutation; [apply NoDup_elements|apply NoDup_seqZ|].
    intros k. rewrite elem_of_elements, elem_of_dom, elem_of_seqZ, Hdom. lia.
Qed.

(** *** Numerals read back *)

Lemma parse_digits_cons c s acc k :
  digit_value (N_of_ascii c) = Some k →
  parse_digits acc (py (String c s)) = parse_digits (10 * acc + k) (py s).
Proof.
  intros Hk. unfold py. cbn [list_ascii_of_string map parse_digits].
  now rewrite Hk.
Qed.

Lemma parse_digits_acc d : ∀ acc : positive,
  parse_digits (Z.pos acc) (py (NilEmpty.string_of_uint d))
  = Some (Z.pos (Pos.of_uint_acc d acc)).
Proof.
  induction d as [|d IH|d IH|d IH|d IH|d IH|d IH|d IH|d IH|d IH|d IH]; intros acc;
    [reflexivity|..];
    cbn [NilEmpty.string_of_uint Pos.of_uint_acc];
    erewrite parse_digits_cons by reflexivity;
    rewrite <- IH; f_equal;
    match goal with
    | |- context [Z.of_N (N_of_ascii ?c) - 48] =>
        let v := eval vm_compute in (Z.of_N (N_of_ascii c) - 48) in
        change (Z.of_N (N_of_ascii c) - 48) with v
    end; lia.
Qed.

Lemma parse_digits_uint d :
  parse_digits 0 (py (NilEmpty.string_of_uint d)) = Some (Z.of_N (Pos.of_uint d)).
Proof.
  induction d as [|d IH|d IH|d IH|d IH|d IH|d IH|d IH|d IH|d IH|d IH];
    [reflexivity|exact IH|..];
    cbn [NilEmpty.string_of_uint Pos.of_uint];
    erewrite parse_digits_cons by reflexivity;
    cbn [Z.of_N]; rewrite <- parse_digits_acc; reflexivity.
Qed.

Lemma str_of_Z_pos p : str_of_Z (Z.pos p) = py (NilEmpty.string_of_uint (Pos.to_uint p)).
Proof.
  unfold str_of_Z. cbn [Z.to_int NilZero.string_of_int].
  pose proof (DecimalPos.Unsigned.to_uint_nonnil p).
  now destruct (Pos.to_uint p).
Qed.

Lemma str_of_Z_nonempty z : str_of_Z z ≠ [].
Proof.
  destruct z as [|p|p]; [discriminate| |discriminate].
  rewrite str_of_Z_pos. pose proof (DecimalPos.Unsigned.to_uint_nonnil p).
  now destruct (Pos.to_uint p).
Qed.

Lemma parse_str_of_Z z : 0 ≤ z → parse_digits 0 (str_of_Z z) = Some z.
Proof.
  intros Hz. destruct z as [|p|p]; [reflexivity| |lia].
  now rewrite str_of_Z_pos, parse_digits_uint, DecimalPos.Unsigned.of_to.
Qed.

(** The digits of a non-negative integer read back as that integer ... *)
Lemma int_of_str_of_Z z : 0 ≤ z → int_of_str (str_of_Z z) = Some z.
Proof.
  intros Hz. unfold int_of_str. pose proof (str_of_Z_nonempty z).
  destruct (str_of_Z z) eqn:Hs; [congruence|]. cbn [is_empty].
  rewrite <- Hs. now apply parse_str_of_Z.
Qed.

Lemma parse_digits_zeros k s : parse_digits 0 (repeat 48%N k ++ s) = parse_digits 0 s.
Proof. induction k as [|k IH]; [reflexivity|exact IH]. Qed.

(** ... and so do they behind any zero padding. *)
Lemma int_of_str_format_0wd w z : 0 ≤ z → int_of_str (format_0wd w z) = Some z.
Proof.
  intros Hz. unfold format_0wd. destruct (Z.ltb_spec z 0); [lia|]. cbn [app].
  rewrite Z.abs_eq by lia. unfold int_of_str.
  rewrite parse_digits_zeros, parse_str_of_Z by lia.
  pose proof (str_of_Z_nonempty z).
  destruct (repeat 48%N _) ; [|reflexivity]. cbn [app].
  now destruct (str_of_Z z).
Qed.

Lemma length_digits d : length (py (NilEmpty.string_of_uint d)) = Decimal.nb_digits d.
Proof.
  unfold py.
  induction d as [|d IH|d IH|d IH|d IH|d IH|d IH|d IH|d IH|d IH|d IH];
    [reflexivity|..];
    cbn [NilEmpty.string_of_uint list_ascii_of_string map length Decimal.nb_digits];
    now rewrite IH.
Qed.

Lemma of_uint_acc_lower d : ∀ acc,
  Z.pos acc * 10 ^ Z.of_nat (Decimal.nb_digits d) ≤ Z.pos (Pos.of_uint_acc d acc).
Proof.
  induction d as [|d IH|d IH|d IH|d IH|d IH|d IH|d IH|d IH|d IH|d IH]; intros acc;
    cbn [Pos.of_uint_acc Decimal.nb_digits]; [lia|..];
    (etransitivity; [|apply IH]);
    rewrite Nat2Z.inj_succ, Z.pow_succ_r by lia;
    pose proof (Z.pow_pos_nonneg 10 (Z.of_nat (Decimal.nb_digits d)) ltac:(lia) ltac:(lia));
    nia.
Qed.

(** A numeral without a leading zero is at least the power of ten of its
    further digits. *)
Lemma of_uint_lower d :
  (∀ d', d ≠ Decimal.D0 d') → d ≠ Decimal.Nil →
  10 ^ (Z.of_nat (Decimal.nb_digits d) - 1) ≤ Z.of_N (Pos.of_uint d).
Proof.
  intros Hzero Hnil.
  destruct d as [|d|d|d|d|d|d|d|d|d|d]; [congruence|now destruct (Hzero d)|..];
    cbn [Pos.of_uint Decimal.nb_digits Z.of_N];
    (etransitivity; [|apply of_uint_acc_lower]);
    replace (Z.of_nat (S (Decimal.nb_digits d)) - 1) with (Z.of_nat (Decimal.nb_digits d)) by lia;
    pose proof (Z.pow_pos_nonneg 10 (Z.of_nat (Decimal.nb_digits d)) ltac:(lia) ltac:(lia));
    nia.
Qed.

Lemma to_uint_no_leading_zero p d : Pos.to_uint p ≠ Decimal.D0 d.
Proof.
  intros H.
  assert (Hnorm : Decimal.unorm (Pos.to_uint p) = Pos.to_uint p).
  { rewrite <- DecimalPos.Unsigned.to_of, DecimalPos.Unsigned.of_to. reflexivity. }
  rewrite H, DecimalFacts.unorm_D0 in Hnorm.
  destruct (Decimal.uint_eq_dec d Decimal.Nil) as [-> | Hd].
  - exact (DecimalPos.Unsigned.to_uint_nonzero p H).
  - pose proof (DecimalFacts.nb_digits_unorm d Hd) as Hle.
    rewrite Hnorm in Hle. cbn [Decimal.nb_digits] in Hle. lia.
Qed.

Lemma length_str_of_Z z k : 0 ≤ z < 10 ^ Z.of_nat k → (0 < k)%nat → (length (str_of_Z z) ≤ k)%nat.
Proof.
  intros [Hz Hlt] Hk. destruct z as [|p|p]; [cbn; lia| |lia].
  rewrite str_of_Z_pos, length_digits.
  pose proof (of_uint_lower (Pos.to_uint p) (to_uint_no_leading_zero p)
                (DecimalPos.Unsigned.to_uint_nonnil p)) as Hlow.
  rewrite DecimalPos.Unsigned.of_to in Hlow. cbn [Z.of_N] in Hlow.
  destruct (Nat.le_gt_cases (Decimal.nb_digits (Pos.to_uint p)) k) as [|Hgt]; [assumption|].
  exfalso.
  assert (10 ^ Z.of_nat k ≤ 10 ^ (Z.of_nat (Decimal.nb_digits (Pos.to_uint p)) - 1))
    by (apply Z.pow_le_mono_r; lia).
  lia.
Qed.

(** The padded numeral of an offset below ten thousand million has exactly
    ten digits. *)
Lemma length_format_0wd z : 0 ≤ z < 10 ^ 10 → length (format_0wd 10 z) = 10%nat.
Proof.
  intros Hz. pose proof (length_str_of_Z z 10 Hz ltac:(lia)) as Hlen.
  unfold format_0wd. destruct (Z.ltb_spec z 0); [lia|]. cbn [app length].
  rewrite Z.abs_eq by lia. rewrite length_app, repeat_length. lia.
Qed.

(* ===================================================================== *)
(** ** write_pdf: offsets and the cross-reference table                   *)
(* ===================================================================== *)

Lemma sum_len_concat parts : sum_len parts = len (concat parts).
Proof.
  induction parts as [|p parts IH]; [reflexivity|].
  cbn [sum_len fold_right concat]. rewrite len_app. unfold sum_len in IH. now rewrite IH.
Qed.

Lemma obj_token_some obj_id : is_Some (obj_token obj_id).
Proof. unfold obj_token. rewrite encode_ascii_ok by ascii. eauto. Qed.

Lemma emit_object_eq (objects : gmap Z (list byte)) parts (offsets : gmap Z Z)
    obj_id token body :
  obj_token obj_id = Some token → objects !! obj_id = Some body →
  emit_object objects (parts, offsets) obj_id
  = Some (parts ++ [token; body; NL ++ pyb "endobj" ++ NL],
          <[obj_id := sum_len parts]> offsets).
Proof. intros Ht Hb. unfold emit_object. now rewrite Ht, Hb. Qed.

(** The loop that writes the objects: each one stands in the output at the
    offset recorded for it, whatever is written after the loop. *)
Lemma emit_objects_loop (objects : gmap Z (list byte)) ids :
  ∀ (parts : list (list byte)) (offsets : gmap Z Z),
  NoDup ids → (∀ id, id ∈ ids → is_Some (objects !! id)) →
  ∃ parts' (offsets' : gmap Z Z),
    for_each (emit_object objects) ids (parts, offsets) = Some (parts ++ parts', offsets')
    ∧ (∀ id, id ∉ ids → offsets' !! id = offsets !! id)
    ∧ (∀ id, id ∈ ids →
         ∃ off token body,
           offsets' !! id = Some off ∧ obj_token id = Some token
           ∧ objects !! id = Some body
           ∧ ∀ tail, occurs_at (concat (parts ++ parts') ++ tail) off
                               (token ++ body ++ NL ++ pyb "endobj" ++ NL)).
Proof.
  induction ids as [|id ids IH]; intros parts offsets Hnd Hdom.
  - exists [], offsets. rewrite app_nil_r. split; [reflexivity|]. split; [auto|].
    intros id Hid. now apply elem_of_nil in Hid.
  - apply NoDup_cons in Hnd as (Hnotin & Hnd).
    destruct (obj_token_some id) as [token Htoken].
    destruct (Hdom id ltac:(left)) as [body Hbody].
    cbn [for_each]. rewrite (emit_object_eq _ _ _ _ _ _ Htoken Hbody).
    cbn [mbind option_bind].
    set (written := [token; body; NL ++ pyb "endobj" ++ NL]).
    destruct (IH (parts ++ written) (<[id := sum_len parts]> offsets) Hnd
                 ltac:(intros; apply Hdom; now right))
      as (parts' & offsets' & Hloop & Hother & Hin).
    exists (written ++ parts'), offsets'. rewrite app_assoc. split; [exact Hloop|].
    split.
    + intros id' Hid'. apply not_elem_of_cons in Hid' as (Hne & Hid').
      rewrite Hother by assumption. now rewrite lookup_insert_ne.
    + intros id' Hid'. apply elem_of_cons in Hid' as [->|Hid'].
      * exists (sum_len parts), token, body.
        rewrite Hother, lookup_insert_eq by assumption. repeat split; try assumption.
        intros tail. exists (concat parts), (concat parts' ++ tail). split.
        -- subst written. rewrite !concat_app. cbn [concat]. rewrite app_nil_r.
           now rewrite <- !app_assoc.
        -- symmetry. apply sum_len_concat.
      * exact (Hin id' Hid').
Qed.

Lemma mapM_total {A B} (f : A → option B) (g : A → B) l :
  (∀ x, f x = Some (g x)) → mapM f l = Some (map g l).
Proof.
  intros Hf. apply mapM_Some_2. induction l; constructor; auto.
Qed.


(** The table [xref]: a head line, the free entry, then one entry per id. *)
Lemma xref_table_spec (offsets : gmap Z Z) max_id :
  0 ≤ max_id →
  ∃ xref head,
    xref_table offsets max_id = Some xref
    ∧ length xref = (2 + Z.to_nat max_id)%nat
    ∧ xref !! 0%nat = Some head
    ∧ xref !! 1%nat = Some (pyb "0000000000 65535 f " ++ NL)
    ∧ ∀ id, 1 ≤ id ≤ max_id →
            xref !! (1 + Z.to_nat id)%nat = xref_entry (default 0 (offsets !! id)).
Proof.
  intros Hmax. unfold xref_table. rewrite encode_ascii_ok by ascii.
  cbn [mbind option_bind].
  set (entry := fun i : Z =>
         encode_latin1_replace
           (format_0wd 10 (default 0 (offsets !! i)) ++ py " 00000 n " ++ [LF])).
  assert (Hentry : ∀ i, xref_entry (default 0 (offsets !! i)) = Some (entry i)).
  { intros i. unfold xref_entry. now rewrite encode_ascii_ok by ascii. }
  rewrite (mapM_total _ entry) by exact Hentry. cbn [mbind option_bind].
  eexists _, _. split; [reflexivity|].
  split; [cbn [length app]; now rewrite length_map, length_seqZ|].
  split; [reflexivity|]. split; [reflexivity|].
  intros id Hid. rewrite Hentry.
  replace (1 + Z.to_nat id)%nat with (S (S (Z.to_nat (id - 1)))) by lia.
  cbn [app lookup list_lookup].
  change (map entry (seqZ 1 max_id) !! Z.to_nat (id - 1) = Some (entry id)).
  rewrite list_lookup_fmap, lookup_seqZ_lt by lia. cbn. do 2 f_equal. lia.
Qed.

Lemma py_max_seqZ (k : nat) : py_max (seqZ 1 (Z.of_nat (S k))) = Some (Z.of_nat (S k)).
Proof.
  rewrite seqZ_cons by lia. cbn [py_max]. f_equal.
  replace (Z.pred (Z.of_nat (S k))) with (Z.of_nat k) by lia.
  replace (Z.of_nat (S k)) with (1 + Z.of_nat k) by lia.
  induction k as [|k IH]; [reflexivity|].
  rewrite seqZ_S, fold_left_app, IH. cbn [fold_left]. lia.
Qed.

Lemma pdf_trailer_some max_id xref_pos : is_Some (pdf_trailer max_id xref_pos).
Proof. unfold pdf_trailer. rewrite encode_ascii_ok by ascii. eauto. Qed.


(** The file [write_pdf] assembles: the objects in ascending id order, each
    at its recorded offset, then the table, then the trailer. *)
Lemma write_pdf_layout self :
  let max_id := 4 + 2 * len (page_streams self) in
  ∃ (objects : gmap Z (list byte)) ids (offsets : gmap Z Z) parts xref trailer,
    build_objects self = Some (objects, ids)
    ∧ sorted objects = seqZ 1 max_id
    ∧ write_pdf self = Some (concat parts ++ concat xref ++ trailer)
    ∧ xref_table offsets max_id = Some xref
    ∧ pdf_trailer max_id (len (concat parts)) = Some trailer
    ∧ ∀ id, 1 ≤ id ≤ max_id →
        ∃ off token body,
          offsets !! id = Some off ∧ obj_token id = Some token
          ∧ objects !! id = Some body
          ∧ occurs_at (concat parts ++ concat xref ++ trailer) off
                      (token ++ body ++ NL ++ pyb "endobj" ++ NL).
Proof.
  cbv zeta. pose proof (len_nonneg (page_streams self)) as Hn.
  set (max_id := 4 + 2 * len (page_streams self)).
  destruct (build_objects_spec self) as (objects & Hbuild & _ & _ & _ & _ & _ & Hdom).
  cbv zeta in Hbuild. fold max_id in Hdom.
  pose proof (sorted_dense objects max_id ltac:(lia) Hdom) as Hsorted.
  destruct (emit_objects_loop objects (seqZ 1 max_id) [pdf_header] {[0 := 0]}
              (NoDup_seqZ _ _))
    as (parts' & offsets & Hemit & _ & Hin).
  { intros id Hid%elem_of_seqZ. apply Hdom. lia. }
  destruct (xref_table_spec offsets max_id ltac:(lia)) as (xref & head & Hxref & _).
  destruct (pdf_trailer_some max_id (len (concat ([pdf_header] ++ parts'))))
    as [trailer Htrailer].
  eexists objects, _, offsets, ([pdf_header] ++ parts'), xref, trailer.
  split; [exact Hbuild|]. split; [exact Hsorted|]. split; [|split; [exact Hxref|]].
  - unfold write_pdf. rewrite Hbuild. cbn [mbind option_bind].
    unfold emit_objects. rewrite Hsorted, Hemit. cbn [mbind option_bind].
    replace max_id with (Z.of_nat (S (Z.to_nat (max_id - 1)))) at 1 by lia.
    rewrite py_max_seqZ. cbn [mbind option_bind].
    replace (Z.of_nat (S (Z.to_nat (max_id - 1)))) with max_id by lia.
    rewrite Hxref, sum_len_concat, Htrailer. cbn [mbind option_bind].
    f_equal. rewrite (concat_app ([pdf_header] ++ parts')), (concat_app xref).
    do 2 f_equal. apply app_nil_r.
  - split; [exact Htrailer|]. intros id Hid.
    destruct (Hin id ltac:(apply elem_of_seqZ; lia)) as (off & token & body & H1 & H2 & H3 & H4).
    exists off, token, body. repeat split; try assumption. apply H4.
Qed.



(** C3. For every page, the content-stream object of the file is its
    dictionary, the marker [stream] and a line feed, the stream body and
    [endstream]; the body is the page stream encoded to Latin-1 with
    replacement, one byte per character; and the digits written after
    [/Length] read back as the number of bytes of that body. *)
Theorem content_stream_length_is_body_length (self : StyledPdf) :
  ∃ (objects : gmap Z (list byte)) page_ids (out : list byte),
    build_objects self = Some (objects, page_ids)
    ∧ write_pdf self = Some out
    ∧ ∀ (i : nat) stream, page_streams self !! i = Some stream →
        let body := encode_latin1_replace stream in
        ∃ digits dict token off,
          encode_ascii (py "<< /Length " ++ digits ++ py " >>" ++ [LF]) = Some dict
          ∧ int_of_str digits = Some (len body)
          ∧ len body = len stream
          ∧ objects !! (6 + 2 * Z.of_nat i)
            = Some (dict ++ pyb "stream" ++ NL ++ body ++ pyb "endstream")
          ∧ obj_token (6 + 2 * Z.of_nat i) = Some token
          ∧ occurs_at out off
              (token ++ (dict ++ pyb "stream" ++ NL ++ body ++ pyb "endstream")
               ++ NL ++ pyb "endobj" ++ NL).
Proof.
  destruct (build_objects_spec self) as (objects & Hbuild & _ & _ & _ & _ & Hpages & _).
  destruct (write_pdf_layout self)
    as (objects' & ids & offsets & parts & xref & trailer
        & Hbuild' & _ & Hwrite & _ & _ & Hobj).
  cbv zeta in Hbuild. rewrite Hbuild in Hbuild'. injection Hbuild' as <- <-.
  eexists objects, _, _. split; [exact Hbuild|]. split; [exact Hwrite|].
  intros i stream Hi. cbv zeta.
  set (body := encode_latin1_replace stream).
  destruct (Hpages i stream Hi) as (_ & Hcontent).
  assert (Hi' : (i < length (page_streams self))%nat) by (eapply lookup_lt_Some; eauto).
  destruct (Hobj (6 + 2 * Z.of_nat i) ltac:(unfold len; lia))
    as (off & token & obody & _ & Htoken & Hbody & Hocc).
  rewrite Hcontent, content_object_eq in Hbody. fold body in Hbody.
  assert (Heq : encode_latin1_replace
                  (py "<< /Length " ++ str_of_Z (len body) ++ py " >>" ++ [LF]
                   ++ py "stream" ++ [LF])
                ++ body ++ pyb "endstream"
                = encode_latin1_replace
                    (py "<< /Length " ++ str_of_Z (len body) ++ py " >>" ++ [LF])
                  ++ pyb "stream" ++ NL ++ body ++ pyb "endstream").
  { rewrite !encode_latin1_app, <- !app_assoc. reflexivity. }
  rewrite Heq in Hbody. injection Hbody as <-.
  exists (str_of_Z (len body)),
         (encode_latin1_replace (py "<< /Length " ++ str_of_Z (len body) ++ py " >>" ++ [LF])),
         token, off.
  split; [apply encode_ascii_ok; ascii|].
  split; [apply int_of_str_of_Z, len_nonneg|].
  split; [unfold len, body; now rewrite length_encode_latin1|].
  split; [rewrite Hcontent, content_object_eq; fold body; now rewrite Heq|].
  split; [exact Htoken|exact Hocc].
Qed.

(* ===================================================================== *)
(** ** Drawing: every method only appends to the current stream           *)
(* ===================================================================== *)

(** Projections of an object written out, and of [emit]: used by rewriting,
    so that no proof has to evaluate a chain of drawing steps. *)
Lemma theme_mk th ps cs n :
  theme {| theme := th; page_streams := ps; current_stream := cs; page_no := n |} = th.
Proof. reflexivity. Qed.

Lemma page_streams_mk th ps cs n :
  page_streams {| theme := th; page_streams := ps; current_stream := cs; page_no := n |} = ps.
Proof. reflexivity. Qed.

Lemma current_stream_mk th ps cs n :
  current_stream {| theme := th; page_streams := ps; current_stream := cs; page_no := n |} = cs.
Proof. reflexivity. Qed.

Lemma page_no_mk th ps cs n :
  page_no {| theme := th; page_streams := ps; current_stream := cs; page_no := n |} = n.
Proof. reflexivity. Qed.

Lemma emit_mk th ps cs n ops :
  emit {| theme := th; page_streams := ps; current_stream := cs; page_no := n |} ops
  = {| theme := th; page_streams := ps; current_stream := cs ++ ops; page_no := n |}.
Proof. reflexivity. Qed.

Lemma theme_emit pdf ops : theme (emit pdf ops) = theme pdf.
Proof. reflexivity. Qed.

Lemma page_streams_emit pdf ops : page_streams (emit pdf ops) = page_streams pdf.
Proof. reflexivity. Qed.

Lemma current_stream_emit pdf ops : current_stream (emit pdf ops) = current_stream pdf ++ ops.
Proof. reflexivity. Qed.

Lemma page_no_emit pdf ops : page_no (emit pdf ops) = page_no pdf.
Proof. reflexivity. Qed.

Lemma emit_emit pdf ops1 ops2 : emit (emit pdf ops1) ops2 = emit pdf (ops1 ++ ops2).
Proof. unfold emit. cbn. now rewrite app_assoc. Qed.

Lemma emit_nil pdf : emit pdf [] = pdf.
Proof. destruct pdf. unfold emit. cbn. now rewrite app_nil_r. Qed.

Lemma emitter_id : emitter (fun pdf => pdf).
Proof. intros pdf. unfold ops_of. cbn. now rewrite emit_nil. Qed.

Lemma emitter_cmd line : emitter (fun pdf => cmd pdf line).
Proof. intros pdf. reflexivity. Qed.

Lemma emitter_compose f g :
  emitter f → emitter g → emitter (fun pdf => g (f pdf)).
Proof.
  intros Hf Hg pdf. unfold ops_of.
  rewrite (Hf (blank_pdf (theme pdf))), (Hg (emit _ _)), (Hf pdf), (Hg (emit pdf _)).
  rewrite emit_emit. unfold emit. cbn. reflexivity.
Qed.

Lemma ops_of_compose f g th :
  emitter f → emitter g →
  ops_of (fun pdf => g (f pdf)) th = ops_of f th ++ ops_of g th.
Proof.
  intros Hf Hg. unfold ops_of at 1.
  rewrite (Hf (blank_pdf th)), (Hg (emit _ _)). reflexivity.
Qed.

(** A step that reads the theme of the object it draws on. *)
Lemma emitter_themed (draw : Theme.Theme → StyledPdf → StyledPdf) :
  (∀ th, emitter (draw th)) → emitter (fun pdf => draw (theme pdf) pdf).
Proof. intros H pdf. rewrite (H (theme pdf) pdf). reflexivity. Qed.

Lemma emitter_color_fill c : emitter (fun pdf => color_fill pdf c).
Proof. destruct c as [[r g] b]. apply emitter_cmd. Qed.

Lemma emitter_color_stroke c : emitter (fun pdf => color_stroke pdf c).
Proof. destruct c as [[r g] b]. apply emitter_cmd. Qed.

Lemma emitter_rect x y w h fill stroke line_width :
  emitter (fun pdf => rect pdf x y w h fill stroke line_width).
Proof.
  unfold rect.
  apply (emitter_compose
           (fun pdf =>
              cmd (match stroke with
                   | Some c => cmd (color_stroke
                                      (match fill with
                                       | Some c => color_fill pdf c
                                       | None => pdf
                                       end) c)
                                   (format_f 2 line_width ++ py " w")
                   | None => match fill with
                             | Some c => color_fill pdf c
                             | None => pdf
                             end
                   end) _)
           (fun pdf => match fill, stroke with
                       | Some _, Some _ => cmd pdf (py "B")
                       | Some _, None => cmd pdf (py "f")
                       | None, _ => cmd pdf (py "S")
                       end)).
  - apply (emitter_compose _ (fun pdf => cmd pdf _)); [|apply emitter_cmd].
    destruct stroke as [s|], fill as [f|];
      repeat first [ apply emitter_id
                   | apply emitter_color_fill
                   | apply (emitter_compose _ (fun pdf => cmd pdf _));
                     [|apply emitter_cmd]
                   | apply (emitter_compose _ (fun pdf => color_stroke pdf _));
                     [|apply emitter_color_stroke] ].
  - destruct fill, stroke; apply emitter_cmd.
Qed.

Lemma emitter_text x y value size font color :
  emitter (fun pdf => text pdf x y value size font color).
Proof.
  unfold text.
  repeat (apply (emitter_compose _ (fun pdf => cmd pdf _)); [|apply emitter_cmd]).
  destruct color; [apply emitter_color_fill|apply emitter_id].
Qed.

Lemma emitter_fold {A} (step : StyledPdf → A → StyledPdf) (items : list A) :
  (∀ x, emitter (fun pdf => step pdf x)) →
  emitter (fun pdf => fold_left step items pdf).
Proof.
  intros Hstep. induction items as [|x items IH]; [apply emitter_id|].
  cbn [fold_left].
  exact (emitter_compose (fun pdf => step pdf x) (fun pdf => fold_left step items pdf)
           (Hstep x) IH).
Qed.

Lemma emitter_draw_decor : emitter draw_decor.
Proof.
  unfold draw_decor.
  apply (emitter_compose _ (fun pdf => fold_left _ _ pdf));
    [|apply emitter_fold; intros i; apply emitter_rect].
  apply (emitter_compose _ (fun pdf => color_fill pdf _)); [|apply emitter_color_fill].
  apply (emitter_compose _ (fun pdf => cmd pdf _)); [|apply emitter_cmd].
  apply (emitter_compose _ (fun pdf => cmd pdf _)); [|apply emitter_cmd].
  apply (emitter_compose _ (fun pdf => cmd pdf _)); [|apply emitter_cmd].
  apply (emitter_compose _ (fun pdf => color_stroke pdf (Theme.border (theme pdf)))).
  2: { apply (emitter_themed (fun th pdf => color_stroke pdf (Theme.border th))).
       intros th. apply emitter_color_stroke. }
  apply (emitter_compose _ (fun pdf => cmd pdf _)); [|apply emitter_cmd].
  apply (emitter_compose _ (fun pdf => color_fill pdf _)); [|apply emitter_color_fill].
  apply (emitter_compose _ (fun pdf => cmd pdf _)); [|apply emitter_cmd].
  apply (emitter_compose _ (fun pdf => color_fill pdf _)); [|apply emitter_color_fill].
  apply (emitter_themed (fun th pdf => rect pdf _ _ _ _ (Some (Theme.bg th)) None _)).
  intros th. apply emitter_rect.
Qed.

(* ===================================================================== *)
(** ** Pages: what begin_page and the first-page panel draw               *)
(* ===================================================================== *)

Lemma emitter_draw_header name subtitle first_page :
  emitter (draw_header name subtitle first_page).
Proof.
  unfold draw_header.
  apply (emitter_compose _ (fun pdf => text pdf _ _ subtitle _ _ (Some (Theme.text (theme pdf))))).
  2: { apply (emitter_themed (fun th pdf => text pdf _ _ _ _ _ (Some (Theme.text th)))).
       intros th. apply emitter_text. }
  apply (emitter_compose _ (fun pdf => text pdf _ _ name _ _ (Some (Theme.accent (theme pdf))))).
  2: { apply (emitter_themed (fun th pdf => text pdf _ _ _ _ _ (Some (Theme.accent th)))).
       intros th. apply emitter_text. }
  apply (emitter_compose draw_decor
           (fun pdf => rect pdf _ _ _ _ (Some (Theme.panel (theme pdf)))
                            (Some (Theme.border (theme pdf))) _));
    [apply emitter_draw_decor|].
  apply (emitter_themed
           (fun th pdf => rect pdf _ _ _ _ (Some (Theme.panel th)) (Some (Theme.border th)) _)).
  intros th. apply emitter_rect.
Qed.

Lemma text_emit pdf x y value size font color :
  text pdf x y value size font color
  = emit pdf (ops_of (fun p => text p x y value size font color) (theme pdf)).
Proof. exact (emitter_text x y value size font color pdf). Qed.

Lemma draw_header_emit name subtitle first_page pdf :
  draw_header name subtitle first_page pdf
  = emit pdf (header_ops (theme pdf) name subtitle first_page).
Proof. exact (emitter_draw_header name subtitle first_page pdf). Qed.

Lemma begin_page_unfold pdf name subtitle first_page :
  begin_page pdf name subtitle first_page
  = let self :=
      draw_header name subtitle first_page
        {| theme := theme pdf; page_streams := page_streams pdf;
           current_stream := []; page_no := page_no pdf + 1 |} in
    if first_page then self
    else text self (float_of_Z (PAGE_WIDTH - 102))
              (float_of_Z (PAGE_HEIGHT - 36 - 56 + 12))
              (py "Page " ++ str_of_Z (page_no self)) 9.5 (py "F1")
              (Some (Theme.muted (theme self))).
Proof.
  unfold begin_page, draw_header. cbv zeta. destruct first_page; reflexivity.
Qed.

(** [begin_page]: a new current stream with the header, and the label on
    every page but the first; the counter goes up by one. *)
Lemma begin_page_eq pdf name subtitle first_page :
  begin_page pdf name subtitle first_page
  = {| theme := theme pdf; page_streams := page_streams pdf;
       current_stream :=
         header_ops (theme pdf) name subtitle first_page
         ++ (if first_page then [] else page_label_ops (theme pdf) (page_no pdf + 1));
       page_no := page_no pdf + 1 |}.
Proof.
  rewrite begin_page_unfold. cbv zeta. rewrite !draw_header_emit.
  destruct first_page.
  - rewrite emit_mk, theme_mk, app_nil_l, app_nil_r. reflexivity.
  - rewrite text_emit, emit_emit, !theme_emit, !page_no_emit, !theme_mk, page_no_mk,
      emit_mk, app_nil_l.
    reflexivity.
Qed.

(** *** The first-page panel *)

Lemma draw_metric_eq pdf idx value label :
  draw_metric pdf (idx, (value, label))
  = (wrapped ← wrap_text label (card_w - 14)%float 8.8 false;
     Some (draw_metric_with wrapped idx value pdf)).
Proof. unfold draw_metric, draw_metric_with. cbv zeta. reflexivity. Qed.

Lemma emitter_label_lines x (lines : list (list N)) : ∀ text_y,
  emitter (fun pdf =>
             fst (fold_left
                    (fun '(pdf, text_y) line =>
                       (text pdf x (float_of_Z text_y) line 8.8 (py "F1")
                             (Some (Theme.muted (theme pdf))),
                        text_y - 10))
                    lines (pdf, text_y))).
Proof.
  induction lines as [|line lines IH]; intros text_y; [apply emitter_id|].
  cbn [fold_left].
  apply (emitter_compose
           (fun pdf => text pdf x (float_of_Z text_y) line 8.8 (py "F1")
                            (Some (Theme.muted (theme pdf))))
           (fun pdf => fst (fold_left _ lines (pdf, text_y - 10)))); [|apply IH].
  apply (emitter_themed (fun th pdf => text pdf _ _ _ _ _ (Some (Theme.muted th)))).
  intros th. apply emitter_text.
Qed.

Lemma emitter_draw_metric_with wrapped idx value :
  emitter (draw_metric_with wrapped idx value).
Proof.
  unfold draw_metric_with. cbv zeta.
  apply (emitter_compose _ (fun pdf => fst (fold_left _ (take 2 wrapped) (pdf, _))));
    [|apply emitter_label_lines].
  apply (emitter_compose _ (fun pdf => text pdf _ _ value _ _ (Some (Theme.accent (theme pdf))))).
  2: { apply (emitter_themed (fun th pdf => text pdf _ _ _ _ _ (Some (Theme.accent th)))).
       intros th. apply emitter_text. }
  apply (emitter_themed (fun th pdf => rect pdf _ _ _ _ _ (Some (Theme.border th)) _)).
  intros th. apply emitter_rect.
Qed.

(** The four labels wrap, at the budget of 22 characters of a card. *)
Lemma metric_labels_wrap :
  wrap_text (py "Years in Atlassian environments") (card_w - 14)%float 8.8 false
  = Some [py "Years in Atlassian"; py "environments"]
  ∧ wrap_text (py "Enterprise environments supported") (card_w - 14)%float 8.8 false
    = Some [py "Enterprise"; py "environments supported"]
  ∧ wrap_text (py "Atlassian Marketplace apps") (card_w - 14)%float 8.8 false
    = Some [py "Atlassian Marketplace"; py "apps"]
  ∧ wrap_text (py "Platform expertise") (card_w - 14)%float 8.8 false
    = Some [py "Platform expertise"].
Proof. repeat split; vm_compute; reflexivity. Qed.

Lemma for_each_cons {S A} (body : S → A → option S) x rest st :
  for_each body (x :: rest) st = (body st x ≫= for_each body rest).
Proof. reflexivity. Qed.

Lemma for_each_nil {S A} (body : S → A → option S) st : for_each body [] st = Some st.
Proof. reflexivity. Qed.

Lemma bind_Some {A B} (x : A) (f : A → option B) : (Some x ≫= f) = f x.
Proof. reflexivity. Qed.

Lemma enumerate_metrics :
  enumerate metrics
  = [ (0, (py "7+", py "Years in Atlassian environments"));
      (1, (py "5", py "Enterprise environments supported"));
      (2, (py "10+", py "Atlassian Marketplace apps"));
      (3, (py "Cloud & DC", py "Platform expertise")) ].
Proof. reflexivity. Qed.

Lemma draw_metrics_row_eq pdf : draw_metrics_row pdf = Some (draw_metrics_cards pdf).
Proof.
  destruct metric_labels_wrap as (H0 & H1 & H2 & H3).
  unfold draw_metrics_row, draw_metrics_cards. cbv zeta.
  rewrite enumerate_metrics.
  rewrite for_each_cons, draw_metric_eq, H0, !bind_Some.
  rewrite for_each_cons, draw_metric_eq, H1, !bind_Some.
  rewrite for_each_cons, draw_metric_eq, H2, !bind_Some.
  rewrite for_each_cons, draw_metric_eq, H3, !bind_Some.
  rewrite for_each_nil. reflexivity.
Qed.

Lemma emitter_draw_metrics_cards : emitter draw_metrics_cards.
Proof.
  unfold draw_metrics_cards. cbv zeta.
  repeat (apply (emitter_compose _ (draw_metric_with _ _ _));
          [|apply emitter_draw_metric_with]).
  apply (emitter_themed
           (fun th pdf => rect pdf _ _ _ _ (Some (Theme.panel_alt th)) (Some (Theme.border th)) _)).
  intros th. apply emitter_rect.
Qed.

Lemma metrics_row_ops_eq th : metrics_row_ops th = ops_of draw_metrics_cards th.
Proof. unfold metrics_row_ops. rewrite draw_metrics_row_eq. unfold ops_of. reflexivity. Qed.

Lemma draw_metrics_cards_emit pdf :
  draw_metrics_cards pdf = emit pdf (metrics_row_ops (theme pdf)).
Proof.
  rewrite (metrics_row_ops_eq (theme pdf)). exact (emitter_draw_metrics_cards pdf).
Qed.

(** What [generate] draws on the first page before the body. *)
Lemma draw_first_page_panel_eq pdf :
  draw_first_page_panel pdf
  = Some (emit pdf (contact_ops (theme pdf) ++ metrics_row_ops (theme pdf))).
Proof.
  transitivity
    (draw_metrics_row
       (text pdf (float_of_Z (MARGIN_X + 16)) (float_of_Z (PAGE_HEIGHT - 118))
             contact_line 9.2 (py "F1") (Some (Theme.muted (theme pdf))))).
  { unfold draw_first_page_panel, draw_metrics_row. cbv zeta. reflexivity. }
  rewrite draw_metrics_row_eq, draw_metrics_cards_emit.
  rewrite text_emit, emit_emit, theme_emit. unfold contact_ops. reflexivity.
Qed.

(* ===================================================================== *)
(** ** Layout: what every page holds                                      *)
(* ===================================================================== *)

(** The head of a page after the first. *)
Lemma page_head_S th name subtitle i :
  page_head th name subtitle (S i)
  = header_ops th name subtitle false ++ page_label_ops th (Z.of_nat (S i) + 1).
Proof. unfold page_head. reflexivity. Qed.

Lemma page_ok_head th name subtitle i : page_ok th name subtitle i (page_head th name subtitle i).
Proof. exists []. split; [constructor|]. now rewrite app_nil_r. Qed.

Lemma page_ok_text th name subtitle i ops ops' :
  page_ok th name subtitle i ops →
  body_text th ops' →
  page_ok th name subtitle i (ops ++ ops').
Proof.
  intros (body & Hbody & ->) Htext.
  exists (body ++ ops'). split.
  - now constructor.
  - now rewrite app_assoc.
Qed.

(** [generate] up to the body loop: the first page with its head drawn. *)
Lemma first_page_eq name subtitle :
  draw_first_page_panel (begin_page StyledPdf_init name subtitle true)
  = Some (first_page name subtitle).
Proof.
  rewrite draw_first_page_panel_eq, begin_page_eq. unfold StyledPdf_init.
  rewrite !theme_mk, page_streams_mk, page_no_mk, emit_mk, app_nil_r.
  unfold first_page, page_head. rewrite app_assoc. reflexivity.
Qed.

Lemma layout_inv_first_page name subtitle : layout_inv name subtitle (first_page name subtitle).
Proof.
  unfold first_page. split.
  - apply theme_mk.
  - rewrite page_no_mk, page_streams_mk. reflexivity.
  - intros i stream. rewrite page_streams_mk. intros H. discriminate H.
  - rewrite page_streams_mk, current_stream_mk. apply page_ok_head.
Qed.

(** [new_page]: the current stream becomes a finished page, and the next
    one starts with the small header and the label of its number. *)
Lemma new_page_eq name subtitle pdf :
  new_page name subtitle pdf
  = ({| theme := theme pdf;
        page_streams := page_streams pdf ++ [concat (current_stream pdf)];
        current_stream := header_ops (theme pdf) name subtitle false
                          ++ page_label_ops (theme pdf) (page_no pdf + 1);
        page_no := page_no pdf + 1 |},
     PAGE_HEIGHT - 112).
Proof.
  unfold new_page. rewrite begin_page_eq. unfold finish_page.
  rewrite !theme_mk, page_streams_mk, page_no_mk. reflexivity.
Qed.

(** The invariant goes through a page break, a text of the body and the
    loops over the parts of a wrapped line. *)
Lemma layout_inv_pages_snoc name subtitle pdf :
  layout_inv name subtitle pdf →
  ∀ (i : nat) stream,
    (page_streams pdf ++ [concat (current_stream pdf)]) !! i = Some stream →
    ∃ ops, page_ok Theme_default name subtitle i ops ∧ stream = concat ops.
Proof.
  intros [Hth Hno Hpages Hcur] i stream Hi.
  apply lookup_app_Some in Hi as [Hi | [Hlen Hi]].
  - exact (Hpages i stream Hi).
  - destruct (i - length (page_streams pdf))%nat as [|k] eqn:Hk; [|destruct k; discriminate Hi].
    injection Hi as <-. exists (current_stream pdf). split; [|reflexivity].
    replace i with (length (page_streams pdf)) by lia. exact Hcur.
Qed.

Lemma layout_inv_new_page name subtitle pdf :
  layout_inv name subtitle pdf → layout_inv name subtitle (fst (new_page name subtitle pdf)).
Proof.
  intros Hinv. rewrite new_page_eq. cbn [fst]. split.
  - rewrite theme_mk. apply Hinv.
  - rewrite page_no_mk, page_streams_mk. rewrite (inv_page_no _ _ _ Hinv).
    unfold len. rewrite length_app. cbn [length]. lia.
  - rewrite page_streams_mk. apply layout_inv_pages_snoc, Hinv.
  - rewrite page_streams_mk, current_stream_mk, (inv_theme _ _ _ Hinv).
    rewrite length_app. cbn [length]. rewrite Nat.add_1_r.
    rewrite (inv_page_no _ _ _ Hinv). unfold len.
    replace (Z.of_nat (length (page_streams pdf)) + 1 + 1)
      with (Z.of_nat (S (length (page_streams pdf))) + 1) by lia.
    rewrite <- page_head_S. apply page_ok_head.
Qed.

Lemma layout_inv_text name subtitle pdf x y value size font color :
  layout_inv name subtitle pdf →
  body_text Theme_default (text_ops Theme_default x y value size font (color Theme_default)) →
  layout_inv name subtitle
    (text pdf (float_of_Z x) (float_of_Z y) value size font (Some (color (theme pdf)))).
Proof.
  intros Hinv Htext. rewrite text_emit. split.
  - rewrite theme_emit. apply Hinv.
  - rewrite page_no_emit, page_streams_emit. apply Hinv.
  - rewrite page_streams_emit. apply Hinv.
  - rewrite page_streams_emit, current_stream_emit, (inv_theme _ _ _ Hinv).
    apply (page_ok_text Theme_default name subtitle _ _ _ (inv_current _ _ _ Hinv) Htext).
Qed.

Lemma layout_inv_break name subtitle pdf y (low : bool) :
  layout_inv name subtitle pdf →
  layout_inv name subtitle (fst (if low then new_page name subtitle pdf else (pdf, y))).
Proof. intros Hinv. destruct low; [apply layout_inv_new_page, Hinv|exact Hinv]. Qed.

Lemma break_if_low_eq name subtitle pdf y :
  break_if_low name subtitle (pdf, y)
  = if y <? bottom_limit + 10 then new_page name subtitle pdf else (pdf, y).
Proof. reflexivity. Qed.

Lemma layout_inv_break_if_low name subtitle st :
  layout_inv name subtitle (fst st) →
  layout_inv name subtitle (fst (break_if_low name subtitle st)).
Proof.
  destruct st as [pdf y]. cbn [fst]. intros Hinv. rewrite break_if_low_eq.
  apply layout_inv_break, Hinv.
Qed.

Lemma draw_bullet_part_eq name subtitle st i part :
  draw_bullet_part name subtitle st (i, part)
  = (text (fst (break_if_low name subtitle st)) (float_of_Z (x_text + 8))
          (float_of_Z (snd (break_if_low name subtitle st)))
          ((if i =? 0 then py "- " else py "  ") ++ part) 9.6 (py "F1")
          (Some (Theme.text (theme (fst (break_if_low name subtitle st))))),
     snd (break_if_low name subtitle st) - 12).
Proof. unfold draw_bullet_part. destruct (break_if_low name subtitle st). reflexivity. Qed.

Lemma draw_plain_part_eq name subtitle st part :
  draw_plain_part name subtitle st part
  = (text (fst (break_if_low name subtitle st)) (float_of_Z x_text)
          (float_of_Z (snd (break_if_low name subtitle st)))
          part 9.8 (py "F1")
          (Some (Theme.text (theme (fst (break_if_low name subtitle st))))),
     snd (break_if_low name subtitle st) - 12).
Proof. unfold draw_plain_part. destruct (break_if_low name subtitle st). reflexivity. Qed.

Lemma layout_inv_bullet_part name subtitle st item :
  layout_inv name subtitle (fst st) →
  layout_inv name subtitle (fst (draw_bullet_part name subtitle st item)).
Proof.
  intros Hinv. destruct item as [i part]. rewrite draw_bullet_part_eq. cbn [fst].
  apply (layout_inv_text name subtitle _ (x_text + 8) _ _ _ _ Theme.text);
    [apply layout_inv_break_if_low, Hinv|apply bullet_text].
Qed.

Lemma layout_inv_plain_part name subtitle st part :
  layout_inv name subtitle (fst st) →
  layout_inv name subtitle (fst (draw_plain_part name subtitle st part)).
Proof.
  intros Hinv. rewrite draw_plain_part_eq. cbn [fst].
  apply (layout_inv_text name subtitle _ x_text _ _ _ _ Theme.text);
    [apply layout_inv_break_if_low, Hinv|apply plain_text].
Qed.

Lemma layout_inv_fold {A} name subtitle (step : StyledPdf * Z → A → StyledPdf * Z) items :
  (∀ st item, layout_inv name subtitle (fst st) → layout_inv name subtitle (fst (step st item))) →
  ∀ st, layout_inv name subtitle (fst st) →
        layout_inv name subtitle (fst (fold_left step items st)).
Proof.
  intros Hstep. induction items as [|item items IH]; intros st Hinv; [exact Hinv|].
  cbn [fold_left]. apply IH, Hstep, Hinv.
Qed.

(** The wrapping of body text cannot fail: the two budgets are the
    constants 95 and 96. *)
Lemma max_chars_bullet : max_chars (float_of_Z (CONTENT_WIDTH - 38)) 9.6 false = Some 95.
Proof. vm_compute. reflexivity. Qed.

Lemma max_chars_plain : max_chars (float_of_Z (CONTENT_WIDTH - 24)) 9.8 false = Some 96.
Proof. vm_compute. reflexivity. Qed.

(** *** One body line *)

(** The four cases of the body of the loop, each as one equation. *)
Lemma heading_not_empty line : is_heading line = true → is_empty line = false.
Proof.
  intros H. apply andb_true_iff in H as [H _]. apply bool_decide_eq_true in H.
  unfold headings in H. rewrite elem_of_list_to_set in H.
  repeat (apply elem_of_cons in H as [-> | H]; [reflexivity|]).
  now apply elem_of_nil in H.
Qed.

Lemma layout_line_blank name subtitle pdf y raw_line :
  is_empty (strip raw_line) = true →
  layout_line name subtitle (pdf, y) raw_line
  = Some (if y - 7 <? bottom_limit then new_page name subtitle pdf else (pdf, y - 7)).
Proof. intros H. unfold layout_line. rewrite H. reflexivity. Qed.

Lemma layout_line_heading name subtitle pdf y raw_line :
  is_heading (strip raw_line) = true →
  layout_line name subtitle (pdf, y) raw_line
  = Some (text (fst (if y - 6 <? bottom_limit + 16 then new_page name subtitle pdf
                     else (pdf, y - 6)))
               (float_of_Z x_text)
               (float_of_Z (snd (if y - 6 <? bottom_limit + 16 then new_page name subtitle pdf
                                 else (pdf, y - 6))))
               (upper (strip raw_line)) 11 (py "F2")
               (Some (Theme.accent
                        (theme (fst (if y - 6 <? bottom_limit + 16
                                     then new_page name subtitle pdf else (pdf, y - 6)))))),
          snd (if y - 6 <? bottom_limit + 16 then new_page name subtitle pdf else (pdf, y - 6))
          - 14).
Proof.
  intros H. unfold layout_line. rewrite (heading_not_empty _ H), H. cbv zeta.
  destruct (if y - 6 <? bottom_limit + 16 then new_page name subtitle pdf else (pdf, y - 6)).
  reflexivity.
Qed.

Lemma layout_line_bullet name subtitle pdf y raw_line :
  is_empty (strip raw_line) = false →
  is_heading (strip raw_line) = false →
  is_bullet (strip raw_line) = true →
  layout_line name subtitle (pdf, y) raw_line
  = (wrapped ← wrap_text (strip (drop 2 (strip raw_line)))
                         (float_of_Z (CONTENT_WIDTH - 38)) 9.6 false;
     Some (fold_left (draw_bullet_part name subtitle) (enumerate wrapped) (pdf, y))).
Proof. intros H1 H2 H3. unfold layout_line. rewrite H1, H2, H3. reflexivity. Qed.

Lemma layout_line_plain name subtitle pdf y raw_line :
  is_empty (strip raw_line) = false →
  is_heading (strip raw_line) = false →
  is_bullet (strip raw_line) = false →
  layout_line name subtitle (pdf, y) raw_line
  = (wrapped ← wrap_text (strip raw_line) (float_of_Z (CONTENT_WIDTH - 24)) 9.8 false;
     Some (fold_left (draw_plain_part name subtitle) wrapped (pdf, y))).
Proof. intros H1 H2 H3. unfold layout_line. rewrite H1, H2, H3. reflexivity. Qed.

(** The body of the loop returns on every line and keeps the invariant. *)
Lemma layout_line_inv name subtitle st raw_line :
  layout_inv name subtitle (fst st) →
  ∃ st', layout_line name subtitle st raw_line = Some st'
         ∧ layout_inv name subtitle (fst st').
Proof.
  destruct st as [pdf y]. cbn [fst]. intros Hinv.
  destruct (is_empty (strip raw_line)) eqn:Hempty.
  { rewrite (layout_line_blank _ _ _ _ _ Hempty). eexists. split; [reflexivity|].
    apply layout_inv_break, Hinv. }
  destruct (is_heading (strip raw_line)) eqn:Hhead.
  { rewrite (layout_line_heading _ _ _ _ _ Hhead). eexists. split; [reflexivity|].
    cbn [fst].
    apply (layout_inv_text name subtitle _ x_text _ _ _ _ Theme.accent);
      [apply layout_inv_break, Hinv|apply heading_text]. }
  destruct (is_bullet (strip raw_line)) eqn:Hbullet.
  - rewrite (layout_line_bullet _ _ _ _ _ Hempty Hhead Hbullet).
    destruct (wrap_text_total (strip (drop 2 (strip raw_line))) _ _ _ _ max_chars_bullet)
      as [wrapped ->].
    rewrite bind_Some. eexists. split; [reflexivity|].
    apply layout_inv_fold; [apply layout_inv_bullet_part|exact Hinv].
  - rewrite (layout_line_plain _ _ _ _ _ Hempty Hhead Hbullet).
    destruct (wrap_text_total (strip raw_line) _ _ _ _ max_chars_plain) as [wrapped ->].
    rewrite bind_Some. eexists. split; [reflexivity|].
    apply layout_inv_fold; [apply layout_inv_plain_part|exact Hinv].
Qed.

Lemma layout_lines_inv name subtitle lines : ∀ st,
  layout_inv name subtitle (fst st) →
  ∃ st', for_each (layout_line name subtitle) lines st = Some st'
         ∧ layout_inv name subtitle (fst st').
Proof.
  induction lines as [|raw_line lines IH]; intros st Hinv.
  - exists st. split; [reflexivity|exact Hinv].
  - destruct (layout_line_inv name subtitle st raw_line Hinv) as (st1 & Hst1 & Hinv1).
    destruct (IH st1 Hinv1) as (st' & Hst' & Hinv').
    exists st'. split; [|exact Hinv'].
    rewrite for_each_cons, Hst1, bind_Some. exact Hst'.
Qed.

(** *** The whole layout *)

Lemma layout_unfold name subtitle lines :
  layout name subtitle lines
  = (pdf ← draw_first_page_panel (begin_page StyledPdf_init name subtitle true);
     st ← for_each (layout_line name subtitle) lines (pdf, container_y - 18);
     Some (finish_page (fst st))).
Proof.
  unfold layout. cbv zeta.
  destruct (draw_first_page_panel (begin_page StyledPdf_init name subtitle true)) as [pdf|];
    [|reflexivity].
  rewrite !bind_Some.
  destruct (for_each (layout_line name subtitle) lines (pdf, container_y - 18)) as [[pdf' y]|];
    reflexivity.
Qed.

(** [layout] returns on every input; the object it returns has no open
    page, its counter is its number of pages, and its page of index [i]
    is the head of that page followed by body text. *)
Lemma layout_pages name subtitle lines :
  ∃ pdf, layout name subtitle lines = Some pdf
         ∧ theme pdf = Theme_default
         ∧ current_stream pdf = []
         ∧ page_no pdf = len (page_streams pdf)
         ∧ page_streams pdf ≠ []
         ∧ ∀ (i : nat) stream, page_streams pdf !! i = Some stream →
             ∃ ops, page_ok Theme_default name subtitle i ops ∧ stream = concat ops.
Proof.
  destruct (layout_lines_inv name subtitle lines (first_page name subtitle, container_y - 18)
              (layout_inv_first_page name subtitle)) as ([pdf y] & Hrun & Hinv).
  cbn [fst] in Hinv. exists (finish_page pdf).
  split.
  { rewrite layout_unfold, first_page_eq, bind_Some, Hrun, bind_Some. reflexivity. }
  unfold finish_page. rewrite theme_mk, current_stream_mk, page_no_mk, page_streams_mk.
  split; [apply Hinv|]. split; [reflexivity|].
  split. { rewrite (inv_page_no _ _ _ Hinv). unfold len. rewrite length_app. cbn [length]. lia. }
  split. { intros H. apply app_eq_nil in H as [_ H]. discriminate H. }
  apply layout_inv_pages_snoc, Hinv.
Qed.

(** *** Headings *)



(** *** Page labels *)

(** The six instructions of a text. *)
Lemma text_ops_eq th x y value size font r g b :
  text_ops th x y value size font (r, g, b)
  = [ (format_f 3 r ++ py " " ++ format_f 3 g ++ py " " ++ format_f 3 b ++ py " rg") ++ [LF];
      py "BT" ++ [LF];
      (py "/" ++ font ++ py " " ++ format_f 2 size ++ py " Tf") ++ [LF];
      tm_op x y;
      (py "(" ++ pdf_escape value ++ py ") Tj") ++ [LF];
      py "ET" ++ [LF] ].
Proof. reflexivity. Qed.

(** A numeral has nothing to escape. *)
Lemma escape_digits d :
  flat_map escape_char (py (NilEmpty.string_of_uint d)) = py (NilEmpty.string_of_uint d).
Proof.
  unfold py.
  induction d as [|d IH|d IH|d IH|d IH|d IH|d IH|d IH|d IH|d IH|d IH];
    [reflexivity|..];
    cbn [NilEmpty.string_of_uint list_ascii_of_string map flat_map];
    rewrite IH; reflexivity.
Qed.

Lemma escape_uint d :
  flat_map escape_char (py (NilZero.string_of_uint d)) = py (NilZero.string_of_uint d).
Proof. destruct d; [reflexivity|..]; apply escape_digits. Qed.

Lemma pdf_escape_str_of_Z z : pdf_escape (str_of_Z z) = str_of_Z z.
Proof.
  rewrite pdf_escape_flat_map. unfold str_of_Z.
  destruct z as [|p|p]; cbn [Z.to_int NilZero.string_of_int].
  - reflexivity.
  - apply escape_uint.
  - change (py (String "-" (NilZero.string_of_uint (Pos.to_uint p))))
      with (45%N :: py (NilZero.string_of_uint (Pos.to_uint p))).
    cbn [flat_map]. rewrite escape_uint. reflexivity.
Qed.

Lemma page_label_ops_text th n :
  page_label_ops th n
  = text_ops th (PAGE_WIDTH - 102) (PAGE_HEIGHT - 80) (py "Page " ++ str_of_Z n) 9.5 (py "F1")
             (Theme.muted th).
Proof. unfold page_label_ops, text_ops. reflexivity. Qed.

(** The label of page [n], instruction by instruction. *)
Lemma page_label_ops_eq n :
  page_label_ops Theme_default n
  = [ py "0.770 0.840 0.910 rg" ++ [LF];
      py "BT" ++ [LF];
      py "/F1 9.50 Tf" ++ [LF];
      py "1 0 0 1 493.00 762.00 Tm" ++ [LF];
      py "(Page " ++ str_of_Z n ++ py ") Tj" ++ [LF];
      py "ET" ++ [LF] ].
Proof.
  rewrite page_label_ops_text.
  change (Theme.muted Theme_default) with (0.77, 0.84, 0.91)%float.
  rewrite text_ops_eq, pdf_escape_flat_map, flat_map_app, <- (pdf_escape_flat_map (str_of_Z n)),
    pdf_escape_str_of_Z.
  rewrite <- !app_assoc. generalize (str_of_Z n). intros digits. vm_compute. reflexivity.
Qed.

Lemma str_eqb_eq s : ∀ t, str_eqb s t = true ↔ s = t.
Proof.
  induction s as [|c s IH]; intros [|d t]; cbn [str_eqb]; try easy.
  destruct (N.eqb_spec c d) as [-> | Hne].
  - rewrite IH. split; [now intros ->|now intros [= ->]].
  - split; [discriminate|now intros [= -> ->]].
Qed.

Lemma has_label_spec ops : has_label ops = true ↔ In label_tm ops.
Proof.
  unfold has_label. rewrite existsb_exists. split.
  - intros (op & Hin & Heq). apply str_eqb_eq in Heq as <-. exact Hin.
  - intros Hin. exists label_tm. split; [exact Hin|now apply str_eqb_eq].
Qed.

Lemma has_label_app ops1 ops2 : has_label (ops1 ++ ops2) = has_label ops1 || has_label ops2.
Proof. apply existsb_app. Qed.

Lemma has_label_page_label n : has_label (page_label_ops Theme_default n) = true.
Proof. vm_compute. reflexivity. Qed.

(** Nothing on the first page before the body is placed there ... *)
Lemma has_label_first_head name subtitle :
  has_label (page_head Theme_default name subtitle 0) = false.
Proof.
  unfold page_head. rewrite !has_label_app.
  assert (has_label (header_ops Theme_default name subtitle true) = false) as ->
    by (vm_compute; reflexivity).
  assert (has_label (contact_ops Theme_default) = false) as -> by (vm_compute; reflexivity).
  assert (has_label (metrics_row_ops Theme_default) = false) as -> by (vm_compute; reflexivity).
  reflexivity.
Qed.

(** ... and no text of the body is: the body is drawn at the left. *)
Lemma has_label_body_text ops : body_text Theme_default ops → has_label ops = false.
Proof. intros [y value | y value | y value]; vm_compute; reflexivity. Qed.

Lemma has_label_body ops : body_ops Theme_default ops → has_label ops = false.
Proof.
  induction 1 as [|ops ops' _ IH Htext]; [reflexivity|].
  now rewrite has_label_app, IH, (has_label_body_text _ Htext).
Qed.

Lemma begin_page_counter self name subtitle first_page :
  page_no (begin_page self name subtitle first_page) = page_no self + 1.
Proof. rewrite begin_page_eq. apply page_no_mk. Qed.

(** C7.  [layout] returns an object on every input, and in its pages: the
    first page is the large header, the contact line, the metrics row and
    body text, with no label (no text of it is placed where a label goes);
    the page of index [i + 1], the [(i + 2)]-th in page order, is the small
    header, the label [Page (i + 2)] and body text.
    The label is the text [Page N] drawn in the muted colour at size 9.5,
    102 left of the right edge; its number is the page counter, which every
    [begin_page] puts up by one and which ends as the number of pages. *)
Theorem page_labels_number_the_pages name subtitle lines :
  (∀ self n s first_page, page_no (begin_page self n s first_page) = page_no self + 1)
  ∧ (∀ n, page_label_ops Theme_default n
          = [ py "0.770 0.840 0.910 rg" ++ [LF];
              py "BT" ++ [LF];
              py "/F1 9.50 Tf" ++ [LF];
              py "1 0 0 1 493.00 762.00 Tm" ++ [LF];
              py "(Page " ++ str_of_Z n ++ py ") Tj" ++ [LF];
              py "ET" ++ [LF] ])
  ∧ ∃ pdf,
      layout name subtitle lines = Some pdf
      ∧ page_no pdf = len (page_streams pdf)
      ∧ (∃ body, body_ops Theme_default body
           ∧ page_streams pdf !! 0%nat
             = Some (concat (header_ops Theme_default name subtitle true
                             ++ contact_ops Theme_default
                             ++ metrics_row_ops Theme_default ++ body))
           ∧ has_label (header_ops Theme_default name subtitle true
                        ++ contact_ops Theme_default
                        ++ metrics_row_ops Theme_default ++ body) = false)
      ∧ ∀ (i : nat) stream, page_streams pdf !! S i = Some stream →
          ∃ body, body_ops Theme_default body
            ∧ stream = concat (header_ops Theme_default name subtitle false
                               ++ page_label_ops Theme_default (Z.of_nat i + 2) ++ body)
            ∧ has_label (header_ops Theme_default name subtitle false
                         ++ page_label_ops Theme_default (Z.of_nat i + 2) ++ body) = true.
Proof.
  split; [apply begin_page_counter|]. split; [apply page_label_ops_eq|].
  destruct (layout_pages name subtitle lines)
    as (pdf & Hlayout & _ & _ & Hno & Hne & Hpages).
  exists pdf. split; [exact Hlayout|]. split; [exact Hno|]. split.
  - destruct (page_streams pdf) as [|stream streams] eqn:Hstreams; [now destruct Hne|].
    destruct (Hpages 0%nat stream eq_refl) as (ops & (body & Hbody & Hops) & ->).
    exists body. split; [exact Hbody|].
    pose proof (has_label_first_head name subtitle) as Hhead.
    pose proof (has_label_body body Hbody) as Hnone.
    rewrite Hops. unfold page_head in *. rewrite <- !app_assoc.
    split; [reflexivity|].
    rewrite !has_label_app in *. now rewrite Hnone, orb_false_r.
  - intros i stream Hi.
    destruct (Hpages (S i) stream Hi) as (ops & (body & Hbody & Hops) & ->).
    exists body. split; [exact Hbody|]. rewrite Hops, page_head_S, <- app_assoc.
    replace (Z.of_nat (S i) + 1) with (Z.of_nat i + 2) by lia.
    split; [reflexivity|].
    now rewrite !has_label_app, has_label_page_label, orb_true_r.
Qed.

(** Sixty bullets of 120 characters take three pages. *)
Example layout_sixty_bullets :
  let bullet := py "- " ++ concat (repeat (py "lorem ips ") 12) in
  len bullet = 122
  ∧ ∃ pdf, layout (py "A") (py "B") (repeat bullet 60) = Some pdf
           ∧ len (page_streams pdf) = 3.
Proof.
  split; [reflexivity|].
  assert (H : (λ o, len ∘ page_streams <$> o)
                (layout (py "A") (py "B")
                        (repeat (py "- " ++ concat (repeat (py "lorem ips ") 12)) 60))
              = Some 3) by (vm_compute; reflexivity).
  destruct (layout (py "A") (py "B") (repeat (py "- " ++ concat (repeat (py "lorem ips ") 12)) 60))
    as [pdf|]; [|discriminate H].
  exists pdf. split; [reflexivity|]. injection H as H. exact H.
Qed.

(** *** The number of pages *)

Lemma generate_unfold cv_txt :
  generate cv_txt
  = (pdf ← layout (load_cv_lines cv_txt).1.1 (load_cv_lines cv_txt).1.2
                  (load_cv_lines cv_txt).2;
     out ← write_pdf pdf;
     Some (out, py "Generated cv.pdf with " ++ str_of_Z (len (page_streams pdf))
                ++ py " page(s).")).
Proof. unfold generate. destruct (load_cv_lines cv_txt) as [[name subtitle] lines]. reflexivity. Qed.




(** *** Determinism *)








(* ===================================================================== *)
(** * Further properties of the code                                   *)
(* ===================================================================== *)

(* ===================================================================== *)
(** ** The string operand of a text                                       *)
(* ===================================================================== *)

Lemma read_literal_escape_char depth c s :
  read_literal depth (escape_char c ++ s)
  = ('(v, rest) ← read_literal depth s; Some (c :: v, rest)).
Proof.
  unfold escape_char.
  destruct (N.eqb_spec c 92) as [-> | H92]; [reflexivity|].
  destruct (N.eqb_spec c 40) as [-> | H40]; [reflexivity|].
  destruct (N.eqb_spec c 41) as [-> | H41]; [reflexivity|].
  cbn [orb app read_literal].
  destruct (N.eqb_spec c 92); [contradiction|].
  destruct (N.eqb_spec c 40); [contradiction|].
  destruct (N.eqb_spec c 41); [contradiction|]. reflexivity.
Qed.

Lemma read_literal_escaped value : ∀ rest,
  read_literal 0 (pdf_escape value ++ py ")" ++ rest) = Some (value, rest).
Proof.
  rewrite pdf_escape_flat_map.
  induction value as [|c value IH]; intros rest; [reflexivity|].
  cbn [flat_map]. rewrite <- app_assoc, read_literal_escape_char, IH. reflexivity.
Qed.

(** The instructions of a text, whatever the object it is drawn on. *)
Lemma text_stream self x y value size font color :
  current_stream (text self x y value size font color)
  = current_stream self
    ++ (match color with
        | Some (r, g, b) =>
            [(format_f 3 r ++ py " " ++ format_f 3 g ++ py " " ++ format_f 3 b ++ py " rg")
             ++ [LF]]
        | None => []
        end
        ++ [ py "BT" ++ [LF];
             (py "/" ++ font ++ py " " ++ format_f 2 size ++ py " Tf") ++ [LF];
             (py "1 0 0 1 " ++ format_f 2 x ++ py " " ++ format_f 2 y ++ py " Tm") ++ [LF] ])
    ++ [ (py "(" ++ pdf_escape value ++ py ") Tj") ++ [LF]; py "ET" ++ [LF] ].
Proof.
  unfold text, color_fill, cmd. destruct color as [[[r g] b]|]; cbn [current_stream].
  - rewrite <- !(app_assoc (current_stream self)). reflexivity.
  - rewrite <- !(app_assoc (current_stream self)). reflexivity.
Qed.

(** X1.  The text [text] shows is written as a string literal that reads
    back as that text, whatever characters it has: the instruction before
    the closing [ET] is an opening parenthesis and a literal that a reader
    ends exactly before [ Tj], having read the value unchanged. *)
Theorem text_operand_reads_back self x y value size font color :
  ∃ before literal,
    current_stream (text self x y value size font color)
    = current_stream self ++ before ++ [py "(" ++ literal; py "ET" ++ [LF]]
    ∧ read_literal 0 literal = Some (value, py " Tj" ++ [LF]).
Proof.
  exists (match color with
          | Some (r, g, b) =>
              [(format_f 3 r ++ py " " ++ format_f 3 g ++ py " " ++ format_f 3 b ++ py " rg")
               ++ [LF]]
          | None => []
          end
          ++ [ py "BT" ++ [LF];
               (py "/" ++ font ++ py " " ++ format_f 2 size ++ py " Tf") ++ [LF];
               (py "1 0 0 1 " ++ format_f 2 x ++ py " " ++ format_f 2 y ++ py " Tm") ++ [LF] ]),
         (pdf_escape value ++ py ")" ++ py " Tj" ++ [LF]).
  split.
  - assert (E : (py "(" ++ pdf_escape value ++ py ") Tj") ++ [LF]
                = py "(" ++ pdf_escape value ++ py ")" ++ py " Tj" ++ [LF])
      by (rewrite <- !app_assoc; reflexivity).
    rewrite text_stream, E. reflexivity.
  - apply read_literal_escaped.
Qed.

(* ===================================================================== *)
(** ** wrap_text: the shape of the lines and the failures                  *)
(* ===================================================================== *)

(** What the characters of the chunks have in common, the characters of
    the lines have; and no line is empty. *)
Lemma wrap_loop_lines (Q : N → Prop) width : 0 ≤ width → ∀ fuel lines chunks,
  Forall (fun c => c ≠ [] ∧ Forall Q c) chunks →
  ∃ new,
    textwrap.wrap_loop fuel width lines chunks = lines ++ new
    ∧ Forall (fun line => line ≠ [] ∧ Forall Q line) new.
Proof.
  intros Hw. induction fuel as [|fuel IH]; intros lines chunks Hchunks.
  - exists []. rewrite app_nil_r. split; [now destruct chunks|constructor].
  - destruct chunks as [|c chunks].
    + exists []. rewrite app_nil_r. split; [reflexivity|constructor].
    + cbn [textwrap.wrap_loop].
      destruct (wrap_line_spec width lines (c :: chunks) Hw ltac:(discriminate))
        as (pre & cur & post & rest & Hl & Hsplit & _ & _ & _ & _).
      rewrite Hl. rewrite Hsplit in Hchunks.
      apply Forall_app in Hchunks as (_ & Hchunks).
      apply Forall_app in Hchunks as (Hcur & Hchunks).
      apply Forall_app in Hchunks as (_ & Hrest).
      destruct cur as [|c0 cur]; cbn [is_empty].
      * exact (IH lines rest Hrest).
      * destruct (IH (lines ++ [concat (c0 :: cur)]) rest Hrest) as (new & Hloop & Hnew).
        exists (concat (c0 :: cur) :: new). split.
        -- rewrite Hloop, <- app_assoc. reflexivity.
        -- constructor; [|exact Hnew]. split.
           ++ apply Forall_cons in Hcur as ((Hne & _) & _).
              cbn [concat]. destruct c0; [congruence|discriminate].
           ++ apply Forall_concat. eapply Forall_impl; [exact Hcur|]. now intros ? [_ ?].
Qed.

Lemma well_formed_nonempty chunks : well_formed chunks → Forall (fun c => c ≠ []) chunks.
Proof.
  induction chunks as [|c chunks IH]; [constructor|].
  intros ((Hne & _) & _ & Hwf). constructor; [exact Hne|exact (IH Hwf)].
Qed.

(** After [_munge_whitespace] the only white space left is the space. *)
Lemma munge_only_spaces text :
  Forall (fun c => textwrap.whitespace c = true → c = SP) (textwrap._munge_whitespace text).
Proof.
  unfold textwrap._munge_whitespace. apply Forall_map, Forall_forall. intros c _.
  destruct (textwrap.whitespace c) eqn:Hc; [reflexivity|]. rewrite Hc. discriminate.
Qed.

Lemma textwrap_wrap_lines text width lines :
  textwrap.wrap text width = Some lines →
  Forall (fun line => line ≠ []
                      ∧ Forall (fun c => textwrap.whitespace c = true → c = SP) line) lines.
Proof.
  unfold textwrap.wrap, textwrap._wrap_chunks.
  destruct (Z.leb_spec width 0) as [|Hw]; [discriminate|]. intros [= <-].
  destruct (split_spec (textwrap._munge_whitespace text)) as (Hwf & Hconcat & _).
  pose proof (munge_only_spaces text) as Hmunge. rewrite <- Hconcat in Hmunge.
  destruct (wrap_loop_lines (fun c => textwrap.whitespace c = true → c = SP) width
              ltac:(lia) (length (textwrap._split (textwrap._munge_whitespace text))) []
              (textwrap._split (textwrap._munge_whitespace text))) as (new & -> & Hnew).
  - apply Forall_and. split; [now apply well_formed_nonempty|].
    now apply Forall_concat in Hmunge.
  - exact Hnew.
Qed.

(** X2.  [wrap_text] never returns an empty list, and for a text that is
    not empty none of its lines is empty.  Unless the text itself comes
    back as the only line, no line has a tab, a line break or any other
    white space of [textwrap] than the space. *)
Theorem wrap_text_lines_shape text width font_size bold lines :
  wrap_text text width font_size bold = Some lines →
  lines ≠ []
  ∧ (text ≠ [] → Forall (fun line => line ≠ []) lines)
  ∧ (lines = [text]
     ∨ Forall (Forall (fun c => textwrap.whitespace c = true → c = SP)) lines).
Proof.
  intros Hwrap. destruct text as [|c text].
  - injection Hwrap as <-. split; [discriminate|]. split; [congruence|now left].
  - destruct (wrap_text_nonempty (c :: text) _ _ _ _ ltac:(discriminate) Hwrap)
      as (n & lines0 & _ & Hw & ->).
    pose proof (textwrap_wrap_lines _ _ _ Hw) as Hshape.
    destruct lines0 as [|l lines0]; cbn [is_empty].
    + split; [discriminate|]. split; [|now left].
      intros _. constructor; [discriminate|constructor].
    + split; [discriminate|]. split.
      * intros _. eapply Forall_impl; [exact Hshape|]. now intros ? [? _].
      * right. eapply Forall_impl; [exact Hshape|]. now intros ? [_ ?].
Qed.

(** A tab is expanded, and the lines have spaces only. *)
Lemma wrap_text_lines_shape_witness :
  wrap_text (py "tab" ++ [TAB] ++ py "and  spaces") 60%float 10%float false
    = Some [py "tab     and"; py "spaces"]
  ∧ [py "tab     and"; py "spaces"] ≠ []
  ∧ (py "tab" ++ [TAB] ++ py "and  spaces" ≠ [] →
     Forall (fun line => line ≠ []) [py "tab     and"; py "spaces"])
  ∧ ([py "tab     and"; py "spaces"] = [py "tab" ++ [TAB] ++ py "and  spaces"]
     ∨ Forall (Forall (fun c => textwrap.whitespace c = true → c = SP))
              [py "tab     and"; py "spaces"]).
Proof.
  split; [vm_compute; reflexivity|].
  apply (wrap_text_lines_shape (py "tab" ++ [TAB] ++ py "and  spaces") 60%float 10%float false).
  vm_compute. reflexivity.
Defined.

(** X3.  On a text that is not empty [wrap_text] raises exactly when its
    budget cannot be computed: when the font size times the factor is zero
    (the division raises) or the quotient is an infinity or not a number
    ([int] raises).  [textwrap.wrap] never refuses the budget, which is at
    least 12.  The empty text gives one empty line even then. *)
Theorem wrap_text_raises_iff (text : list N) (width font_size : float) (bold : bool) :
  text ≠ [] →
  let divisor := (font_size * (if bold then 0.56%float else 0.53%float))%float in
  (wrap_text text width font_size bold = None
   ↔ PrimFloat.eqb divisor 0 = true ∨ py_int (width / divisor)%float = None)
  ∧ wrap_text [] width font_size bold = Some [[]].
Proof.
  intros Hne. cbv zeta. split; [|reflexivity].
  assert (Hmax : max_chars width font_size bold = None
                 ↔ PrimFloat.eqb (font_size * (if bold then 0.56%float else 0.53%float))%float 0 = true
                   ∨ py_int (width / (font_size * (if bold then 0.56%float else 0.53%float)))%float = None).
  { unfold max_chars, py_truediv.
    destruct (PrimFloat.eqb (font_size * (if bold then 0.56%float else 0.53%float))%float 0).
    - split; [now left|reflexivity].
    - cbn [mbind option_bind].
      destruct (py_int (width / (font_size * (if bold then 0.56%float else 0.53%float)))%float).
      + split; [discriminate|]. intros [H | H]; discriminate H.
      + split; [now right|reflexivity]. }
  rewrite <- Hmax. split.
  - intros Hnone. destruct (max_chars width font_size bold) as [n|] eqn:Hn; [|reflexivity].
    destruct (wrap_text_total text _ _ _ _ Hn) as [lines Hlines]. congruence.
  - intros Hn. unfold wrap_text. destruct text; [congruence|]. cbn [is_empty].
    rewrite Hn. reflexivity.
Qed.

Lemma wrap_text_raises_iff_witness :
  py "a" ≠ []
  ∧ (wrap_text (py "a") 100%float 0%float false = None
     ↔ PrimFloat.eqb (0 * 0.53)%float 0 = true ∨ py_int (100 / (0 * 0.53))%float = None)
  ∧ wrap_text [] 100%float 0%float false = Some [[]].
Proof.
  split; [discriminate|].
  apply (wrap_text_raises_iff (py "a") 100%float 0%float false). discriminate.
Defined.

(* ===================================================================== *)
(** ** load_cv_lines: the header and the lines                            *)
(* ===================================================================== *)

Lemma lstrip_suffix s : ∃ ws, s = ws ++ lstrip s.
Proof.
  induction s as [|c s (ws & IH)]; [now exists []|]. cbn [lstrip].
  destruct (isspace c); [|now exists []].
  exists (c :: ws). cbn [app]. now rewrite <- IH.
Qed.

Lemma lstrip_head s : match lstrip s with c :: _ => isspace c = false | [] => True end.
Proof.
  induction s as [|c s IH]; [exact I|]. cbn [lstrip].
  destruct (isspace c) eqn:Hc; [exact IH|exact Hc].
Qed.

Lemma lstrip_fixed s :
  match s with c :: _ => isspace c = false | [] => True end → lstrip s = s.
Proof. destruct s as [|c s]; [reflexivity|]. cbn [lstrip]. now intros ->. Qed.

Lemma rstrip_prefix s : ∃ ws, s = rstrip s ++ ws.
Proof.
  unfold rstrip. destruct (lstrip_suffix (rev s)) as (ws & Hws).
  exists (rev ws). rewrite <- rev_app_distr, <- Hws. now rewrite rev_involutive.
Qed.

Lemma last_rev {A} (l : list A) : last (rev l) = head l.
Proof. destruct l as [|x l]; [reflexivity|]. cbn [rev head]. apply last_snoc. Qed.

Lemma head_rev {A} (l : list A) : head (rev l) = last l.
Proof. rewrite <- (rev_involutive l) at 2. now rewrite last_rev. Qed.

Lemma rstrip_last s : match last (rstrip s) with Some c => isspace c = false | None => True end.
Proof.
  unfold rstrip. rewrite last_rev. pose proof (lstrip_head (rev s)) as H.
  now destruct (lstrip (rev s)).
Qed.

Lemma rstrip_fixed s :
  match last s with Some c => isspace c = false | None => True end → rstrip s = s.
Proof.
  intros H. unfold rstrip. rewrite lstrip_fixed; [apply rev_involutive|].
  rewrite <- head_rev in H. now destruct (rev s).
Qed.

(** A stripped string has no white space at either end ... *)
Lemma strip_ends s :
  match strip s with c :: _ => isspace c = false | [] => True end
  ∧ match last (strip s) with Some c => isspace c = false | None => True end.
Proof.
  unfold strip. split; [apply lstrip_head|].
  destruct (lstrip_suffix (rstrip s)) as (ws & Hws).
  pose proof (rstrip_last s) as Hlast. rewrite Hws, last_app in Hlast.
  now destruct (last (lstrip (rstrip s))).
Qed.

(** ... so stripping it again changes nothing. *)
Lemma strip_strip s : strip (strip s) = strip s.
Proof.
  destruct (strip_ends s) as (Hhead & Hlast).
  unfold strip at 1. now rewrite rstrip_fixed, lstrip_fixed.
Qed.

Lemma rstrip_rstrip s : rstrip (rstrip s) = rstrip s.
Proof. apply rstrip_fixed, rstrip_last. Qed.

Lemma strip_rstrip s : strip (rstrip s) = strip s.
Proof. unfold strip. now rewrite rstrip_rstrip. Qed.

(** The header [load_cv_lines] returns, from the non-blank lines. *)
Lemma load_cv_lines_header file_text :
  let non_blank := List.filter (fun ln => negb (blank_line ln)) (splitlines file_text) in
  (load_cv_lines file_text).1.1 = match non_blank with n :: _ => strip n | [] => default_name end
  ∧ (load_cv_lines file_text).1.2
    = match non_blank with _ :: s :: _ => strip s | _ => default_subtitle end.
Proof.
  cbv zeta. unfold load_cv_lines.
  destruct (fold_left keep_line (splitlines file_text) (0, [])) as [sk remaining].
  cbn [fst snd].
  change (fun ln : list N => negb (is_empty (strip ln)))
    with (fun ln : list N => negb (blank_line ln)).
  destruct (List.filter _ (splitlines file_text)) as [|n [|s rest]]; now split.
Qed.

(** X4.  When the file has two non-blank lines or more, the name is the
    first and the subtitle the second, both stripped.  Whatever the file,
    the name and the subtitle are not empty and have no white space at
    either end. *)
Theorem load_cv_lines_name_and_subtitle (file_text : list N) :
  let non_blank := List.filter (fun ln => negb (blank_line ln)) (splitlines file_text) in
  let name := (load_cv_lines file_text).1.1 in
  let subtitle := (load_cv_lines file_text).1.2 in
  (∀ first second rest, non_blank = first :: second :: rest →
     name = strip first ∧ subtitle = strip second)
  ∧ name ≠ [] ∧ subtitle ≠ []
  ∧ strip name = name ∧ strip subtitle = subtitle.
Proof.
  cbv zeta. destruct (load_cv_lines_header file_text) as (-> & ->).
  assert (Hnb : Forall (fun ln => strip ln ≠ [])
                  (List.filter (fun ln => negb (blank_line ln)) (splitlines file_text))).
  { apply List.Forall_forall. intros ln Hin%filter_In.
    destruct Hin as (_ & Hln). unfold blank_line in Hln. now destruct (strip ln). }
  destruct (List.filter _ (splitlines file_text)) as [|n [|s rest]].
  - split; [discriminate|]. split; [discriminate|]. split; [discriminate|].
    split; reflexivity.
  - apply Forall_cons in Hnb as (Hn & _).
    split; [discriminate|]. split; [exact Hn|]. split; [discriminate|].
    split; [apply strip_strip|reflexivity].
  - apply Forall_cons in Hnb as (Hn & Hnb). apply Forall_cons in Hnb as (Hs & _).
    split; [now intros ? ? ? [= <- <- _]|].
    split; [exact Hn|]. split; [exact Hs|]. split; apply strip_strip.
Qed.

(** *** No line break survives *)

Lemma Forall_rev_iff {A} (P : A → Prop) (l : list A) : Forall P l ↔ Forall P (rev l).
Proof.
  rewrite !List.Forall_forall. split; intros H x Hx; apply H.
  - now apply in_rev.
  - now apply in_rev in Hx.
Qed.

Lemma splitlines_from_no_break (k : nat) : ∀ s cur,
  (length s ≤ k)%nat →
  Forall (fun c => is_linebreak c = false) cur →
  Forall (Forall (fun c => is_linebreak c = false)) (splitlines_from cur s).
Proof.
  induction k as [|k IH]; intros s cur Hlen Hcur.
  - destruct s; [|cbn in Hlen; lia]. cbn [splitlines_from].
    destruct (is_empty cur); constructor; [|constructor].
    rewrite <- Forall_rev_iff. exact Hcur.
  - destruct s as [|c r].
    + cbn [splitlines_from].
      destruct (is_empty cur); constructor; [|constructor].
      rewrite <- Forall_rev_iff. exact Hcur.
    + cbn [splitlines_from]. cbn [length] in Hlen.
      assert (Hrev : Forall (fun c => is_linebreak c = false) (rev cur))
        by (rewrite <- Forall_rev_iff; exact Hcur).
      destruct (c =? CR)%N.
      * destruct r as [|d r'].
        -- constructor; [exact Hrev|constructor].
        -- destruct (d =? LF)%N; constructor; try exact Hrev;
             apply IH; try constructor; cbn [length] in *; lia.
      * destruct (is_linebreak c) eqn:Hc.
        -- constructor; [exact Hrev|]. apply IH; [lia|constructor].
        -- apply IH; [lia|]. constructor; [exact Hc|exact Hcur].
Qed.

Lemma splitlines_no_break s :
  Forall (Forall (fun c => is_linebreak c = false)) (splitlines s).
Proof. apply (splitlines_from_no_break (length s)); [lia|constructor]. Qed.

Lemma Forall_lstrip (P : N → Prop) s : Forall P s → Forall P (lstrip s).
Proof.
  destruct (lstrip_suffix s) as (ws & Hws). intros H. rewrite Hws in H.
  now apply Forall_app in H as (_ & H).
Qed.

Lemma Forall_rstrip (P : N → Prop) s : Forall P s → Forall P (rstrip s).
Proof.
  destruct (rstrip_prefix s) as (ws & Hws). intros H. rewrite Hws in H.
  now apply Forall_app in H as (H & _).
Qed.

Lemma Forall_strip (P : N → Prop) s : Forall P s → Forall P (strip s).
Proof. intros H. now apply Forall_lstrip, Forall_rstrip. Qed.

Lemma Forall_remove_first_nonblank (P : list N → Prop) lines : ∀ n,
  Forall P lines → Forall P (remove_first_nonblank n lines).
Proof.
  induction lines as [|ln lines IH]; intros n H; [constructor|].
  apply Forall_cons in H as (Hln & H). cbn [remove_first_nonblank].
  destruct (blank_line ln); [constructor; auto|].
  destruct n; [constructor; auto|auto].
Qed.

Lemma load_cv_lines_body file_text :
  (load_cv_lines file_text).2
  = map rstrip (remove_first_nonblank 2 (splitlines file_text)).
Proof.
  unfold load_cv_lines.
  pose proof (keep_line_fold (splitlines file_text) 0 [] ltac:(lia)) as Hbody.
  destruct (fold_left keep_line (splitlines file_text) (0, [])) as [sk remaining].
  cbn [snd] in *. exact Hbody.
Qed.

Lemma Forall_of_forallb {A} (f : A → bool) l : forallb f l = true → Forall (fun x => f x = true) l.
Proof. rewrite forallb_forall. intros H. now apply List.Forall_forall. Qed.

(** X5.  No string [load_cv_lines] returns has a line break in it, and no
    line of the body ends in white space. *)
Theorem load_cv_lines_no_line_break (file_text : list N) :
  let no_break := Forall (fun c : N => is_linebreak c = false) in
  no_break (load_cv_lines file_text).1.1
  ∧ no_break (load_cv_lines file_text).1.2
  ∧ Forall (fun ln => no_break ln ∧ rstrip ln = ln) (load_cv_lines file_text).2.
Proof.
  cbv zeta. destruct (load_cv_lines_header file_text) as (-> & ->).
  rewrite load_cv_lines_body.
  pose proof (splitlines_no_break file_text) as Hlines.
  assert (Hnb : Forall (Forall (fun c => is_linebreak c = false))
                  (List.filter (fun ln => negb (blank_line ln)) (splitlines file_text))).
  { apply List.Forall_forall. intros ln Hin%filter_In. destruct Hin as (Hin & _).
    rewrite List.Forall_forall in Hlines. now apply Hlines. }
  assert (Hdefault : ∀ s, forallb (fun c => negb (is_linebreak c)) s = true →
                          Forall (fun c => is_linebreak c = false) s).
  { intros s H%Forall_of_forallb. eapply Forall_impl; [exact H|].
    intros c Hc. cbv beta in Hc. now destruct (is_linebreak c). }
  split; [|split].
  - destruct Hnb as [|n ? Hn _]; [now apply Hdefault|now apply Forall_strip].
  - destruct Hnb as [|n ? _ [|s ? Hs _]]; [now apply Hdefault..|now apply Forall_strip].
  - apply Forall_map. apply (Forall_remove_first_nonblank _ _ 2).
    eapply Forall_impl; [exact Hlines|]. intros ln Hln.
    split; [now apply Forall_rstrip|apply rstrip_rstrip].
Qed.

(** *** Which lines make the body *)

Lemma remove_first_nonblank_blank n pre rest :
  Forall (fun ln => blank_line ln = true) pre →
  remove_first_nonblank n (pre ++ rest) = pre ++ remove_first_nonblank n rest.
Proof.
  induction 1 as [|ln pre Hln _ IH]; [reflexivity|].
  cbn [app remove_first_nonblank]. now rewrite Hln, IH.
Qed.

Lemma remove_first_nonblank_0 lines : remove_first_nonblank 0 lines = lines.
Proof.
  induction lines as [|ln lines IH]; [reflexivity|].
  cbn [remove_first_nonblank]. rewrite IH. now destruct (blank_line ln).
Qed.

Lemma remove_first_nonblank_S n ln rest :
  blank_line ln = false →
  remove_first_nonblank (S n) (ln :: rest) = remove_first_nonblank n rest.
Proof. intros H. cbn [remove_first_nonblank]. now rewrite H. Qed.

(** X6.  The body is the lines of the file without the first two that are
    not blank, each line right-stripped and every other line left where it
    stands: with the blank lines [pre] before the first non-blank line,
    [mid] between it and the second and the lines [post] after that, the
    body is [pre], [mid] and [post] in this order.  A file with one
    non-blank line gives the blank lines around it, a file of blank lines
    gives them all. *)
Theorem load_cv_lines_body_lines (file_text : list N) :
  let lines := splitlines file_text in
  let body := (load_cv_lines file_text).2 in
  let blank := Forall (fun ln => blank_line ln = true) in
  (∀ pre first mid second post,
     lines = pre ++ [first] ++ mid ++ [second] ++ post →
     blank pre → blank_line first = false → blank mid → blank_line second = false →
     body = map rstrip (pre ++ mid ++ post))
  ∧ (∀ pre first post,
       lines = pre ++ [first] ++ post →
       blank pre → blank_line first = false → blank post →
       body = map rstrip (pre ++ post))
  ∧ (blank lines → body = map rstrip lines).
Proof.
  cbv zeta. rewrite load_cv_lines_body. split; [|split].
  - intros pre first mid second post -> Hpre Hfirst Hmid Hsecond. f_equal.
    rewrite (remove_first_nonblank_blank _ _ _ Hpre). cbn [app].
    rewrite (remove_first_nonblank_S _ _ _ Hfirst).
    rewrite (remove_first_nonblank_blank _ _ _ Hmid).
    rewrite (remove_first_nonblank_S _ _ _ Hsecond).
    now rewrite remove_first_nonblank_0.
  - intros pre first post -> Hpre Hfirst Hpost. f_equal.
    rewrite (remove_first_nonblank_blank _ _ _ Hpre). cbn [app].
    rewrite (remove_first_nonblank_S _ _ _ Hfirst).
    rewrite <- (app_nil_r post) at 1.
    rewrite (remove_first_nonblank_blank _ _ _ Hpost). cbn [remove_first_nonblank].
    now rewrite app_nil_r.
  - intros Hlines. f_equal. rewrite <- (app_nil_r (splitlines file_text)) at 1.
    rewrite (remove_first_nonblank_blank _ _ _ Hlines). cbn [remove_first_nonblank].
    now rewrite app_nil_r.
Qed.

(** A file with a blank line before the name and one before the
    subtitle: both stay in the body. *)
Lemma load_cv_lines_body_lines_witness :
  splitlines ([LF] ++ py "Zoe" ++ [LF] ++ [LF] ++ py "Engineer" ++ [LF]
              ++ py "Jira  " ++ [LF])
  = [[]] ++ [py "Zoe"] ++ [[]] ++ [py "Engineer"] ++ [py "Jira  "]
  ∧ (load_cv_lines ([LF] ++ py "Zoe" ++ [LF] ++ [LF] ++ py "Engineer" ++ [LF]
                    ++ py "Jira  " ++ [LF])).2
    = [[]; []; py "Jira"].
Proof.
  split; [reflexivity|].
  apply (proj1 (load_cv_lines_body_lines
                  ([LF] ++ py "Zoe" ++ [LF] ++ [LF] ++ py "Engineer" ++ [LF]
                   ++ py "Jira  " ++ [LF]))
               [[]] (py "Zoe") [[]] (py "Engineer") [py "Jira  "]).
  - reflexivity.
  - repeat constructor.
  - reflexivity.
  - repeat constructor.
  - reflexivity.
Defined.

(* ===================================================================== *)
(** ** StyledPdf: what the drawing methods write                          *)
(* ===================================================================== *)

Lemma emits_id P : emits P (fun pdf => pdf).
Proof. split; [apply emitter_id|intros th; constructor]. Qed.

Lemma emits_cmd (P : list N → Prop) line : P (line ++ [LF]) → emits P (fun pdf => cmd pdf line).
Proof.
  intros HP. split; [apply emitter_cmd|].
  intros th. constructor; [exact HP|constructor].
Qed.

Lemma emits_compose P f g : emits P f → emits P g → emits P (fun pdf => g (f pdf)).
Proof.
  intros (Hf & Pf) (Hg & Pg). split; [now apply emitter_compose|].
  intros th. rewrite ops_of_compose by assumption. apply Forall_app. auto.
Qed.

Lemma emits_themed P (draw : Theme.Theme → StyledPdf → StyledPdf) :
  (∀ th, emits P (draw th)) → emits P (fun pdf => draw (theme pdf) pdf).
Proof.
  intros H. split; [apply emitter_themed; intros th; apply H|].
  intros th. exact (proj2 (H th) th).
Qed.

Lemma emits_fold {A} P (step : StyledPdf → A → StyledPdf) (items : list A) :
  (∀ x, emits P (fun pdf => step pdf x)) →
  emits P (fun pdf => fold_left step items pdf).
Proof.
  intros Hstep. induction items as [|x items IH]; [apply emits_id|].
  cbn [fold_left].
  exact (emits_compose P (fun pdf => step pdf x) (fun pdf => fold_left step items pdf)
           (Hstep x) IH).
Qed.

(** Numbers are written in ASCII, the infinities and the NaN too. *)
Lemma is_ascii_format_f prec x : is_ascii (format_f prec x) = true.
Proof.
  unfold format_f. destruct (Prim2SF x) as [s|s| |s m e].
  - destruct s, prec; ascii.
  - now destruct s.
  - reflexivity.
  - destruct s, prec; ascii.
Qed.

Lemma is_ascii_circle_path cx cy radius : is_ascii (circle_path cx cy radius) = true.
Proof.
  unfold circle_path. cbv zeta.
  repeat rewrite is_ascii_app. repeat rewrite is_ascii_format_f. reflexivity.
Qed.

Section Emits.

(** [P] holds of every line of ASCII that [cmd] writes. *)
Variable P : list N → Prop.
Hypothesis P_ascii : ∀ line, is_ascii line = true → P (line ++ [LF]).

Lemma emits_color_fill c : emits P (fun pdf => color_fill pdf c).
Proof.
  destruct c as [[r g] b]. apply emits_cmd, P_ascii.
  repeat rewrite is_ascii_app. repeat rewrite is_ascii_format_f. reflexivity.
Qed.

Lemma emits_color_stroke c : emits P (fun pdf => color_stroke pdf c).
Proof.
  destruct c as [[r g] b]. apply emits_cmd, P_ascii.
  repeat rewrite is_ascii_app. repeat rewrite is_ascii_format_f. reflexivity.
Qed.

Lemma emits_ascii_cmd line : is_ascii line = true → emits P (fun pdf => cmd pdf line).
Proof. intros H. now apply emits_cmd, P_ascii. Qed.

Lemma emits_rect x y w h fill stroke line_width :
  emits P (fun pdf => rect pdf x y w h fill stroke line_width).
Proof.
  unfold rect.
  apply (emits_compose P
           (fun pdf =>
              cmd (match stroke with
                   | Some c => cmd (color_stroke
                                      (match fill with
                                       | Some c => color_fill pdf c
                                       | None => pdf
                                       end) c)
                                   (format_f 2 line_width ++ py " w")
                   | None => match fill with
                             | Some c => color_fill pdf c
                             | None => pdf
                             end
                   end) _)
           (fun pdf => match fill, stroke with
                       | Some _, Some _ => cmd pdf (py "B")
                       | Some _, None => cmd pdf (py "f")
                       | None, _ => cmd pdf (py "S")
                       end)).
  - apply (emits_compose P _ (fun pdf => cmd pdf _)).
    2: { apply emits_ascii_cmd.
         repeat rewrite is_ascii_app. repeat rewrite is_ascii_format_f. reflexivity. }
    destruct stroke as [s|], fill as [f|].
    + apply (emits_compose P _ (fun pdf => cmd pdf _)).
      2: { apply emits_ascii_cmd. rewrite is_ascii_app, is_ascii_format_f. reflexivity. }
      apply (emits_compose P _ (fun pdf => color_stroke pdf _));
        [apply emits_color_fill|apply emits_color_stroke].
    + apply (emits_compose P _ (fun pdf => cmd pdf _)).
      2: { apply emits_ascii_cmd. rewrite is_ascii_app, is_ascii_format_f. reflexivity. }
      apply emits_color_stroke.
    + apply emits_color_fill.
    + apply emits_id.
  - destruct fill, stroke; now apply emits_ascii_cmd.
Qed.

Lemma emits_draw_decor : emits P draw_decor.
Proof.
  assert (Hcircle : ∀ cx cy radius op,
            is_ascii op = true → is_ascii (circle_path cx cy radius ++ op) = true).
  { intros. now rewrite is_ascii_app, is_ascii_circle_path. }
  unfold draw_decor.
  apply (emits_compose P _ (fun pdf => fold_left _ _ pdf));
    [|apply emits_fold; intros i; apply emits_rect].
  apply (emits_compose P _ (fun pdf => color_fill pdf _)); [|apply emits_color_fill].
  apply (emits_compose P _ (fun pdf => cmd pdf _));
    [|now apply emits_ascii_cmd, Hcircle].
  apply (emits_compose P _ (fun pdf => cmd pdf _));
    [|now apply emits_ascii_cmd, Hcircle].
  apply (emits_compose P _ (fun pdf => cmd pdf _)); [|now apply emits_ascii_cmd].
  apply (emits_compose P _ (fun pdf => color_stroke pdf (Theme.border (theme pdf)))).
  2: { apply (emits_themed P (fun th pdf => color_stroke pdf (Theme.border th))).
       intros th. apply emits_color_stroke. }
  apply (emits_compose P _ (fun pdf => cmd pdf _));
    [|now apply emits_ascii_cmd, Hcircle].
  apply (emits_compose P _ (fun pdf => color_fill pdf _)); [|apply emits_color_fill].
  apply (emits_compose P _ (fun pdf => cmd pdf _));
    [|now apply emits_ascii_cmd, Hcircle].
  apply (emits_compose P _ (fun pdf => color_fill pdf _)); [|apply emits_color_fill].
  apply (emits_themed P (fun th pdf => rect pdf _ _ _ _ (Some (Theme.bg th)) None _)).
  intros th. apply emits_rect.
Qed.

(** [text] writes its font name and its value besides. *)
Lemma emits_text x y value size font color :
  P ((py "/" ++ font ++ py " " ++ format_f 2 size ++ py " Tf") ++ [LF]) →
  P ((py "(" ++ pdf_escape value ++ py ") Tj") ++ [LF]) →
  emits P (fun pdf => text pdf x y value size font color).
Proof.
  intros Hfont Hvalue. unfold text.
  apply (emits_compose P _ (fun pdf => cmd pdf _)); [|now apply emits_ascii_cmd].
  apply (emits_compose P _ (fun pdf => cmd pdf _)); [|now apply emits_cmd].
  apply (emits_compose P _ (fun pdf => cmd pdf _)).
  2: { apply emits_ascii_cmd.
       repeat rewrite is_ascii_app. repeat rewrite is_ascii_format_f. reflexivity. }
  apply (emits_compose P _ (fun pdf => cmd pdf _)); [|now apply emits_cmd].
  apply (emits_compose P _ (fun pdf => cmd pdf _)); [|now apply emits_ascii_cmd].
  destruct color; [apply emits_color_fill|apply emits_id].
Qed.

End Emits.

Lemma last_line_feed (line : list N) : last (line ++ [LF]) = Some LF.
Proof. apply last_snoc. Qed.

Lemma drawing_call_emits draw :
  drawing_call draw → emits (fun op => last op = Some LF) draw.
Proof.
  assert (HP : ∀ line, is_ascii line = true → last (line ++ [LF]) = Some LF)
    by (intros; apply last_line_feed).
  intros [line | c | c | x y w h fill stroke line_width | x y value size font color | ].
  - apply emits_cmd, last_line_feed.
  - now apply emits_color_fill.
  - now apply emits_color_stroke.
  - now apply emits_rect.
  - apply emits_text; [exact HP|apply last_line_feed..].
  - now apply emits_draw_decor.
Qed.

(** X7.  A call of a drawing method ([cmd], [color_fill], [color_stroke],
    [rect], [text], [draw_decor]) changes nothing but the current stream:
    the theme, the finished pages and the page counter stay, and what is
    in the stream stays at its head.  What the call appends is the same
    on every object with that theme, whatever was drawn before, and each
    instruction appended ends with a line feed. *)
Theorem drawing_only_appends draw (self : StyledPdf) :
  drawing_call draw →
  theme (draw self) = theme self
  ∧ page_streams (draw self) = page_streams self
  ∧ page_no (draw self) = page_no self
  ∧ ∃ ops,
      current_stream (draw self) = current_stream self ++ ops
      ∧ Forall (fun op => last op = Some LF) ops
      ∧ ∀ other, theme other = theme self →
                 current_stream (draw other) = current_stream other ++ ops.
Proof.
  intros (Hemit & Hops)%drawing_call_emits.
  rewrite (Hemit self), theme_emit, page_streams_emit, page_no_emit, current_stream_emit.
  split; [reflexivity|]. split; [reflexivity|]. split; [reflexivity|].
  exists (ops_of draw (theme self)). split; [reflexivity|]. split; [apply Hops|].
  intros other Hth. rewrite (Hemit other), current_stream_emit, Hth. reflexivity.
Qed.

(** A rectangle with a fill and no stroke, on an object with a page open. *)
Lemma drawing_only_appends_witness :
  drawing_call (fun self => rect self 1 2 3 4 (Some (0.5, 0.5, 0.5)%float) None 1)
  ∧ ∃ ops,
      current_stream (rect (cmd StyledPdf_init (py "q")) 1 2 3 4
                           (Some (0.5, 0.5, 0.5)%float) None 1)
      = current_stream (cmd StyledPdf_init (py "q")) ++ ops
      ∧ Forall (fun op => last op = Some LF) ops
      ∧ ∀ other, theme other = theme (cmd StyledPdf_init (py "q")) →
                 current_stream (rect other 1 2 3 4 (Some (0.5, 0.5, 0.5)%float) None 1)
                 = current_stream other ++ ops.
Proof.
  split; [constructor|].
  apply (drawing_only_appends
           (fun self => rect self 1 2 3 4 (Some (0.5, 0.5, 0.5)%float) None 1)
           (cmd StyledPdf_init (py "q"))).
  constructor.
Defined.

Lemma is_ascii_pdf_escape value : is_ascii value = true → is_ascii (pdf_escape value) = true.
Proof.
  rewrite pdf_escape_flat_map. induction value as [|c value IH]; [reflexivity|].
  intros Hvalue. cbn [is_ascii forallb] in Hvalue.
  apply andb_true_iff in Hvalue as (Hc & Hvalue).
  cbn [flat_map]. rewrite is_ascii_app, (IH Hvalue), andb_true_r.
  unfold escape_char. destruct ((c =? 92) || (c =? 40) || (c =? 41))%N;
    cbn [is_ascii forallb]; now rewrite Hc.
Qed.

Lemma ascii_call_emits draw : ascii_call draw → emits (fun op => is_ascii op = true) draw.
Proof.
  assert (HP : ∀ line, is_ascii line = true → is_ascii (line ++ [LF]) = true).
  { intros line H. now rewrite is_ascii_app, H. }
  intros [c | c | x y w h fill stroke line_width | x y value size font color Hfont Hvalue | ].
  - now apply emits_color_fill.
  - now apply emits_color_stroke.
  - now apply emits_rect.
  - apply emits_text; [exact HP|..].
    + repeat rewrite is_ascii_app. now rewrite Hfont, is_ascii_format_f.
    + repeat rewrite is_ascii_app. now rewrite is_ascii_pdf_escape.
  - now apply emits_draw_decor.
Qed.

(** X8.  The instructions of [color_fill], [color_stroke], [rect] and
    [draw_decor] are ASCII whatever numbers they are given (an infinity or
    a NaN is written as a word), and so are those of [text] when the font
    name and the value are: encoding a page to Latin-1 with replacement
    can change characters of its texts only. *)
Theorem drawing_writes_ascii draw (self : StyledPdf) :
  ascii_call draw →
  ∃ ops,
    current_stream (draw self) = current_stream self ++ ops
    ∧ Forall (fun op => is_ascii op = true) ops
    ∧ encode_ascii (concat ops) = Some (encode_latin1_replace (concat ops)).
Proof.
  intros (Hemit & Hops)%ascii_call_emits.
  exists (ops_of draw (theme self)).
  split; [now rewrite (Hemit self), current_stream_emit|]. split; [apply Hops|].
  apply encode_ascii_ok. specialize (Hops (theme self)).
  induction Hops as [|op ops Hop _ IH]; [reflexivity|].
  cbn [concat]. now rewrite is_ascii_app, Hop, IH.
Qed.

(** A text in ASCII with a NaN for a coordinate. *)
Lemma drawing_writes_ascii_witness :
  ascii_call (fun self => text self nan 2 (py "a(b)") 11 (py "F1") None)
  ∧ ∃ ops,
      current_stream (text StyledPdf_init nan 2 (py "a(b)") 11 (py "F1") None)
      = current_stream StyledPdf_init ++ ops
      ∧ Forall (fun op => is_ascii op = true) ops
      ∧ encode_ascii (concat ops) = Some (encode_latin1_replace (concat ops)).
Proof.
  split; [now constructor|].
  apply (drawing_writes_ascii
           (fun self => text self nan 2 (py "a(b)") 11 (py "F1") None) StyledPdf_init).
  now constructor.
Defined.

(* ===================================================================== *)
(** ** Layout: the body stays inside the body area                        *)
(* ===================================================================== *)

Lemma page_within_head name subtitle i :
  page_within name subtitle i (page_head Theme_default name subtitle i).
Proof. exists []. split; [constructor|]. now rewrite app_nil_r. Qed.

Lemma page_within_text name subtitle i ops y ops' :
  page_within name subtitle i ops →
  body_text_at Theme_default y ops' →
  bottom_limit + 10 ≤ y ≤ top_of_body i →
  page_within name subtitle i (ops ++ ops').
Proof.
  intros (body & Hbody & ->) Htext Hy.
  exists (body ++ ops'). split.
  - now apply (body_between_snoc _ _ _ body y ops').
  - now rewrite app_assoc.
Qed.

Lemma layout_bounds_first_page name subtitle :
  layout_bounds name subtitle (first_page name subtitle, container_y - 18).
Proof.
  unfold first_page. split; cbn [fst snd].
  - apply theme_mk.
  - rewrite page_no_mk, page_streams_mk. reflexivity.
  - rewrite page_streams_mk. cbn [length top_of_body]. lia.
  - intros i stream. rewrite page_streams_mk. intros H. discriminate H.
  - rewrite page_streams_mk, current_stream_mk. apply page_within_head.
Qed.

Lemma layout_bounds_pages_snoc name subtitle st :
  layout_bounds name subtitle st →
  ∀ (i : nat) stream,
    (page_streams st.1 ++ [concat (current_stream st.1)]) !! i = Some stream →
    ∃ ops, page_within name subtitle i ops ∧ stream = concat ops.
Proof.
  intros [Hth Hno Hcursor Hpages Hcur] i stream Hi.
  apply lookup_app_Some in Hi as [Hi | [Hlen Hi]].
  - exact (Hpages i stream Hi).
  - destruct (i - length (page_streams st.1))%nat as [|k] eqn:Hk; [|destruct k; discriminate Hi].
    injection Hi as <-. exists (current_stream st.1). split; [|reflexivity].
    replace i with (length (page_streams st.1)) by lia. exact Hcur.
Qed.

(** A page break: the cursor is at the top of the body of the new page. *)
Lemma layout_bounds_new_page name subtitle st :
  layout_bounds name subtitle st →
  layout_bounds name subtitle (new_page name subtitle st.1).
Proof.
  intros Hb. rewrite new_page_eq. split; cbn [fst snd].
  - rewrite theme_mk. apply Hb.
  - rewrite page_no_mk, page_streams_mk. rewrite (bounds_page_no _ _ _ Hb).
    unfold len. rewrite length_app. cbn [length]. lia.
  - rewrite page_streams_mk, length_app. cbn [length]. rewrite Nat.add_1_r.
    cbn [top_of_body]. lia.
  - rewrite page_streams_mk. apply layout_bounds_pages_snoc, Hb.
  - rewrite page_streams_mk, current_stream_mk, (bounds_theme _ _ _ Hb).
    rewrite length_app. cbn [length]. rewrite Nat.add_1_r.
    rewrite (bounds_page_no _ _ _ Hb). unfold len.
    replace (Z.of_nat (length (page_streams st.1)) + 1 + 1)
      with (Z.of_nat (S (length (page_streams st.1))) + 1) by lia.
    rewrite <- page_head_S. apply page_within_head.
Qed.

(** A text of the body drawn at the cursor, which then goes down. *)
Lemma layout_bounds_text name subtitle pdf x y value size font color (down : Z) :
  layout_bounds name subtitle (pdf, y) →
  body_text_at Theme_default y
    (text_ops Theme_default x y value size font (color Theme_default)) →
  bottom_limit + 10 ≤ y → 0 ≤ down →
  layout_bounds name subtitle
    (text pdf (float_of_Z x) (float_of_Z y) value size font (Some (color (theme pdf))),
     y - down).
Proof.
  intros [Hth Hno Hcursor Hpages Hcur] Htext Hy Hdown. cbn [fst snd] in *.
  rewrite text_emit. split; cbn [fst snd].
  - rewrite theme_emit. exact Hth.
  - rewrite page_no_emit, page_streams_emit. exact Hno.
  - rewrite page_streams_emit. lia.
  - rewrite page_streams_emit. exact Hpages.
  - rewrite page_streams_emit, current_stream_emit, Hth.
    apply (page_within_text name subtitle _ _ y); [exact Hcur|exact Htext|lia].
Qed.

Lemma layout_bounds_cursor name subtitle pdf y y' :
  layout_bounds name subtitle (pdf, y) → y' ≤ y → layout_bounds name subtitle (pdf, y').
Proof.
  intros [Hth Hno Hcursor Hpages Hcur] Hle. cbn [fst snd] in *.
  split; cbn [fst snd]; try assumption. lia.
Qed.

Lemma new_page_cursor name subtitle pdf : (new_page name subtitle pdf).2 = PAGE_HEIGHT - 112.
Proof. reflexivity. Qed.

(** The test before a part of a wrapped line: the cursor is then at least
    10 above the bottom limit. *)
Lemma layout_bounds_break_if_low name subtitle st :
  layout_bounds name subtitle st →
  layout_bounds name subtitle (break_if_low name subtitle st)
  ∧ bottom_limit + 10 ≤ (break_if_low name subtitle st).2.
Proof.
  destruct st as [pdf y]. intros Hb. rewrite break_if_low_eq.
  destruct (Z.ltb_spec y (bottom_limit + 10)) as [Hlow | Hhigh].
  - split; [exact (layout_bounds_new_page _ _ _ Hb)|].
    rewrite new_page_cursor. unfold bottom_limit, PAGE_HEIGHT. lia.
  - split; [exact Hb|exact Hhigh].
Qed.

Lemma layout_bounds_bullet_part name subtitle st item :
  layout_bounds name subtitle st →
  layout_bounds name subtitle (draw_bullet_part name subtitle st item).
Proof.
  intros Hb. destruct item as [i part]. rewrite draw_bullet_part_eq.
  destruct (layout_bounds_break_if_low _ _ _ Hb) as (Hb' & Hy).
  destruct (break_if_low name subtitle st) as [pdf y]. cbn [fst snd] in *.
  apply (layout_bounds_text name subtitle pdf (x_text + 8) y _ _ _ Theme.text 12);
    [exact Hb'|apply bullet_text_at|exact Hy|lia].
Qed.

Lemma layout_bounds_plain_part name subtitle st part :
  layout_bounds name subtitle st →
  layout_bounds name subtitle (draw_plain_part name subtitle st part).
Proof.
  intros Hb. rewrite draw_plain_part_eq.
  destruct (layout_bounds_break_if_low _ _ _ Hb) as (Hb' & Hy).
  destruct (break_if_low name subtitle st) as [pdf y]. cbn [fst snd] in *.
  apply (layout_bounds_text name subtitle pdf x_text y _ _ _ Theme.text 12);
    [exact Hb'|apply plain_text_at|exact Hy|lia].
Qed.

Lemma layout_bounds_fold {A} name subtitle (step : StyledPdf * Z → A → StyledPdf * Z) items :
  (∀ st item, layout_bounds name subtitle st → layout_bounds name subtitle (step st item)) →
  ∀ st, layout_bounds name subtitle st →
        layout_bounds name subtitle (fold_left step items st).
Proof.
  intros Hstep. induction items as [|item items IH]; intros st Hb; [exact Hb|].
  cbn [fold_left]. apply IH, Hstep, Hb.
Qed.

Lemma layout_line_bounds name subtitle st raw_line :
  layout_bounds name subtitle st →
  ∃ st', layout_line name subtitle st raw_line = Some st'
         ∧ layout_bounds name subtitle st'.
Proof.
  destruct st as [pdf y]. intros Hb.
  destruct (is_empty (strip raw_line)) eqn:Hempty.
  { rewrite (layout_line_blank _ _ _ _ _ Hempty). eexists. split; [reflexivity|].
    destruct (y - 7 <? bottom_limit).
    - exact (layout_bounds_new_page _ _ _ Hb).
    - apply (layout_bounds_cursor _ _ _ y); [exact Hb|lia]. }
  destruct (is_heading (strip raw_line)) eqn:Hhead.
  { rewrite (layout_line_heading _ _ _ _ _ Hhead). eexists. split; [reflexivity|].
    destruct (Z.ltb_spec (y - 6) (bottom_limit + 16)) as [Hlow | Hhigh].
    - pose proof (layout_bounds_new_page _ _ _ Hb) as Hb'. cbn [fst] in Hb'.
      rewrite new_page_cursor.
      destruct (new_page name subtitle pdf) as [pdf' y'] eqn:Hnew.
      assert (Hy' : y' = PAGE_HEIGHT - 112)
        by (change y' with (pdf', y').2; rewrite <- Hnew; apply new_page_cursor).
      subst y'. cbn [fst].
      apply (layout_bounds_text name subtitle pdf' x_text _ _ _ _ Theme.accent 14);
        [exact Hb'|apply heading_text_at|unfold bottom_limit, PAGE_HEIGHT; lia|lia].
    - cbn [fst snd].
      apply (layout_bounds_text name subtitle pdf x_text _ _ _ _ Theme.accent 14);
        [apply (layout_bounds_cursor _ _ _ y); [exact Hb|lia]|apply heading_text_at|lia|lia]. }
  destruct (is_bullet (strip raw_line)) eqn:Hbullet.
  - rewrite (layout_line_bullet _ _ _ _ _ Hempty Hhead Hbullet).
    destruct (wrap_text_total (strip (drop 2 (strip raw_line))) _ _ _ _ max_chars_bullet)
      as [wrapped ->].
    rewrite bind_Some. eexists. split; [reflexivity|].
    apply layout_bounds_fold; [apply layout_bounds_bullet_part|exact Hb].
  - rewrite (layout_line_plain _ _ _ _ _ Hempty Hhead Hbullet).
    destruct (wrap_text_total (strip raw_line) _ _ _ _ max_chars_plain) as [wrapped ->].
    rewrite bind_Some. eexists. split; [reflexivity|].
    apply layout_bounds_fold; [apply layout_bounds_plain_part|exact Hb].
Qed.

Lemma layout_lines_bounds name subtitle lines : ∀ st,
  layout_bounds name subtitle st →
  ∃ st', for_each (layout_line name subtitle) lines st = Some st'
         ∧ layout_bounds name subtitle st'.
Proof.
  induction lines as [|raw_line lines IH]; intros st Hb.
  - exists st. split; [reflexivity|exact Hb].
  - destruct (layout_line_bounds name subtitle st raw_line Hb) as (st1 & Hst1 & Hb1).
    destruct (IH st1 Hb1) as (st' & Hst' & Hb').
    exists st'. split; [|exact Hb'].
    rewrite for_each_cons, Hst1, bind_Some. exact Hst'.
Qed.

(** X9.  No text of the body is drawn outside the body area: on every
    page of the layout each heading, bullet part and plain part is drawn
    with the cursor at 66 or above (10 above the bottom limit), and at 608
    or below on the first page (below the metrics row), 730 or below on
    the others (below the small header). *)
Theorem body_drawn_inside_body_area (name subtitle : list N) (lines : list (list N)) :
  bottom_limit + 10 = 66 ∧ top_of_body 0 = 608 ∧ (∀ i, top_of_body (S i) = 730)
  ∧ ∃ pdf,
      layout name subtitle lines = Some pdf
      ∧ ∀ (i : nat) stream, page_streams pdf !! i = Some stream →
          ∃ body,
            stream = concat (page_head Theme_default name subtitle i ++ body)
            ∧ body_between Theme_default (bottom_limit + 10) (top_of_body i) body.
Proof.
  split; [reflexivity|]. split; [reflexivity|]. split; [reflexivity|].
  destruct (layout_lines_bounds name subtitle lines _ (layout_bounds_first_page name subtitle))
    as ([pdf y] & Hrun & Hb).
  exists (finish_page pdf). split.
  { rewrite layout_unfold, first_page_eq, bind_Some, Hrun, bind_Some. reflexivity. }
  unfold finish_page. rewrite page_streams_mk. intros i stream Hi.
  destruct (layout_bounds_pages_snoc _ _ _ Hb i stream Hi) as (ops & (body & Hbody & ->) & ->).
  exists body. split; [reflexivity|exact Hbody].
Qed.

(* ===================================================================== *)
(** ** Layout: more lines leave the pages before them as they are         *)
(* ===================================================================== *)

Lemma continues_refl pdf : continues pdf pdf.
Proof. exists [], []. unfold pages_so_far. now rewrite !app_nil_r. Qed.

Lemma continues_trans pdf1 pdf2 pdf3 :
  continues pdf1 pdf2 → continues pdf2 pdf3 → continues pdf1 pdf3.
Proof.
  intros (e1 & r1 & H1) (e2 & r2 & H2). unfold continues. rewrite H2. clear H2.
  unfold pages_so_far in H1.
  destruct r1 as [|x r1 _] using rev_ind.
  - rewrite app_nil_r in H1. apply app_inj_tail in H1 as (-> & ->).
    exists (e1 ++ e2), r2. now rewrite <- app_assoc.
  - rewrite !app_assoc in H1. apply app_inj_tail in H1 as (-> & ->).
    exists e1, (r1 ++ [x ++ e2] ++ r2). now rewrite <- !app_assoc.
Qed.

Lemma continues_emit pdf ops : continues pdf (emit pdf ops).
Proof.
  exists (concat ops), []. unfold pages_so_far.
  now rewrite page_streams_emit, current_stream_emit, concat_app, app_nil_r.
Qed.

Lemma continues_new_page name subtitle pdf : continues pdf (new_page name subtitle pdf).1.
Proof.
  rewrite new_page_eq. cbn [fst]. eexists [], [_]. unfold pages_so_far.
  rewrite page_streams_mk, current_stream_mk, app_nil_r, <- app_assoc. reflexivity.
Qed.

Lemma continues_break name subtitle pdf y (low : bool) :
  continues pdf (if low then new_page name subtitle pdf else (pdf, y)).1.
Proof. destruct low; [apply continues_new_page|apply continues_refl]. Qed.

Lemma continues_text pdf pdf' x y value size font color :
  continues pdf pdf' → continues pdf (text pdf' x y value size font color).
Proof.
  intros H. apply (continues_trans _ _ _ H). rewrite text_emit. apply continues_emit.
Qed.

Lemma continues_fold {A} (step : StyledPdf * Z → A → StyledPdf * Z) items :
  (∀ st item, continues st.1 (step st item).1) →
  ∀ st, continues st.1 (fold_left step items st).1.
Proof.
  intros Hstep. induction items as [|item items IH]; intros st; [apply continues_refl|].
  cbn [fold_left]. exact (continues_trans _ _ _ (Hstep st item) (IH (step st item))).
Qed.

Lemma continues_bullet_part name subtitle st item :
  continues st.1 (draw_bullet_part name subtitle st item).1.
Proof.
  destruct item as [i part]. rewrite draw_bullet_part_eq. cbn [fst].
  apply continues_text. destruct st as [pdf y]. rewrite break_if_low_eq.
  apply continues_break.
Qed.

Lemma continues_plain_part name subtitle st part :
  continues st.1 (draw_plain_part name subtitle st part).1.
Proof.
  rewrite draw_plain_part_eq. cbn [fst].
  apply continues_text. destruct st as [pdf y]. rewrite break_if_low_eq.
  apply continues_break.
Qed.

Lemma layout_line_continues name subtitle st raw_line st' :
  layout_line name subtitle st raw_line = Some st' → continues st.1 st'.1.
Proof.
  destruct st as [pdf y]. cbn [fst].
  destruct (is_empty (strip raw_line)) eqn:Hempty.
  { rewrite (layout_line_blank _ _ _ _ _ Hempty). intros [= <-]. apply continues_break. }
  destruct (is_heading (strip raw_line)) eqn:Hhead.
  { rewrite (layout_line_heading _ _ _ _ _ Hhead). intros [= <-]. cbn [fst].
    apply continues_text, continues_break. }
  destruct (is_bullet (strip raw_line)) eqn:Hbullet.
  - rewrite (layout_line_bullet _ _ _ _ _ Hempty Hhead Hbullet).
    destruct (wrap_text _ _ _ _) as [wrapped|]; [|discriminate].
    rewrite bind_Some. intros [= <-].
    exact (continues_fold _ _ (continues_bullet_part name subtitle) (pdf, y)).
  - rewrite (layout_line_plain _ _ _ _ _ Hempty Hhead Hbullet).
    destruct (wrap_text _ _ _ _) as [wrapped|]; [|discriminate].
    rewrite bind_Some. intros [= <-].
    exact (continues_fold _ _ (continues_plain_part name subtitle) (pdf, y)).
Qed.

Lemma layout_lines_continues name subtitle lines : ∀ st st',
  for_each (layout_line name subtitle) lines st = Some st' → continues st.1 st'.1.
Proof.
  induction lines as [|raw_line lines IH]; intros st st'.
  - intros [= <-]. apply continues_refl.
  - rewrite for_each_cons.
    destruct (layout_line name subtitle st raw_line) as [st1|] eqn:Hline; [|discriminate].
    rewrite bind_Some. intros Hrest.
    exact (continues_trans _ _ _ (layout_line_continues _ _ _ _ _ Hline) (IH _ _ Hrest)).
Qed.

Lemma for_each_app {S A} (body : S → A → option S) (l1 l2 : list A) : ∀ st,
  for_each body (l1 ++ l2) st = (for_each body l1 st ≫= for_each body l2).
Proof.
  induction l1 as [|x l1 IH]; intros st; [reflexivity|].
  cbn [app]. rewrite !for_each_cons. destruct (body st x) as [st1|]; [|reflexivity].
  rewrite !bind_Some. apply IH.
Qed.

(** X10.  Lines added at the end of the body leave the pages before the
    last as they are and only add to the last: the pages of the longer
    body are those of the shorter one, the last of them with more at its
    end, then further pages. *)
Theorem more_lines_keep_pages (name subtitle : list N) (lines more : list (list N)) :
  ∃ pdf1 pdf2 pages last extra rest,
    layout name subtitle lines = Some pdf1
    ∧ layout name subtitle (lines ++ more) = Some pdf2
    ∧ page_streams pdf1 = pages ++ [last]
    ∧ page_streams pdf2 = pages ++ [last ++ extra] ++ rest.
Proof.
  destruct (layout_lines_inv name subtitle lines (first_page name subtitle, container_y - 18)
              (layout_inv_first_page name subtitle)) as (st1 & Hrun1 & Hinv1).
  destruct (layout_lines_inv name subtitle more st1 Hinv1) as (st2 & Hrun2 & _).
  destruct (layout_lines_continues _ _ _ _ _ Hrun2) as (extra & rest & Hcont).
  exists (finish_page st1.1), (finish_page st2.1), (page_streams st1.1),
         (concat (current_stream st1.1)), extra, rest.
  split; [|split; [|split]].
  - rewrite layout_unfold, first_page_eq, bind_Some, Hrun1, bind_Some. reflexivity.
  - rewrite layout_unfold, first_page_eq, bind_Some, for_each_app, Hrun1, bind_Some,
      Hrun2, bind_Some. reflexivity.
  - reflexivity.
  - exact Hcont.
Qed.

(* ===================================================================== *)
(** ** write_pdf: the file from its first byte to its last                *)
(* ===================================================================== *)

Lemma obj_token_eq obj_id :
  obj_token obj_id = Some (encode_latin1_replace (str_of_Z obj_id ++ py " 0 obj" ++ [LF])).
Proof. unfold obj_token. now rewrite encode_ascii_ok by ascii. Qed.

(** The loop that writes the objects, as the bytes it adds and the offsets
    it records. *)
Lemma emit_objects_bytes (objects : gmap Z (list byte)) ids :
  ∀ (parts : list (list byte)) (offsets : gmap Z Z),
  NoDup ids → (∀ id, id ∈ ids → is_Some (objects !! id)) →
  ∃ parts' objs (offsets' : gmap Z Z),
    for_each (emit_object objects) ids (parts, offsets) = Some (parts', offsets')
    ∧ mapM (object_bytes objects) ids = Some objs
    ∧ concat parts' = concat parts ++ concat objs
    ∧ (∀ id, id ∉ ids → offsets' !! id = offsets !! id)
    ∧ ∀ (k : nat) id, ids !! k = Some id →
        offsets' !! id = Some (len (concat parts ++ concat (take k objs))).
Proof.
  induction ids as [|id ids IH]; intros parts offsets Hnd Hdom.
  - exists parts, [], offsets. split; [reflexivity|]. split; [reflexivity|].
    split; [cbn [concat]; now rewrite app_nil_r|]. split; [auto|].
    intros k id Hk. discriminate Hk.
  - apply NoDup_cons in Hnd as (Hnotin & Hnd).
    destruct (Hdom id ltac:(left)) as [body Hbody].
    cbn [for_each]. rewrite (emit_object_eq _ _ _ _ _ _ (obj_token_eq id) Hbody).
    cbn [mbind option_bind].
    set (token := encode_latin1_replace (str_of_Z id ++ py " 0 obj" ++ [LF])).
    destruct (IH (parts ++ [token; body; NL ++ pyb "endobj" ++ NL])
                 (<[id := sum_len parts]> offsets) Hnd
                 ltac:(intros; apply Hdom; now right))
      as (parts' & objs & offsets' & Hloop & Hobjs & Hconcat & Hother & Hoffs).
    assert (Hparts : concat (parts ++ [token; body; NL ++ pyb "endobj" ++ NL])
                     = concat parts ++ (token ++ body ++ NL ++ pyb "endobj" ++ NL)).
    { rewrite concat_app. cbn [concat]. now rewrite app_nil_r. }
    exists parts', ((token ++ body ++ NL ++ pyb "endobj" ++ NL) :: objs), offsets'.
    split; [exact Hloop|]. split; [|split; [|split]].
    + apply mapM_Some_2. constructor; [|now apply mapM_Some_1].
      unfold object_bytes. now rewrite Hbody.
    + rewrite Hconcat, Hparts. cbn [concat]. now rewrite <- !app_assoc.
    + intros id' Hid'. apply not_elem_of_cons in Hid' as (Hne & Hid').
      rewrite Hother by assumption. now rewrite lookup_insert_ne.
    + intros [|k] id' Hk.
      * injection Hk as <-. rewrite Hother by assumption. rewrite lookup_insert_eq.
        cbn [take concat]. rewrite app_nil_r. f_equal. apply sum_len_concat.
      * cbn [lookup list_lookup] in Hk. rewrite (Hoffs k id' Hk).
        cbn [take concat]. rewrite Hparts, <- !app_assoc. reflexivity.
Qed.

Lemma len_pdf_header : len pdf_header = 15.
Proof. reflexivity. Qed.

Lemma concat_lookup_middle {A} (l : list (list A)) (k : nat) x :
  l !! k = Some x → concat l = concat (take k l) ++ x ++ concat (drop (S k) l).
Proof.
  intros Hk. rewrite <- (take_drop_middle l k x Hk) at 1.
  rewrite concat_app. reflexivity.
Qed.

Lemma len_concat_take_le {A} (l : list (list A)) (k : nat) :
  len (concat (take k l)) ≤ len (concat l).
Proof.
  rewrite <- (take_drop k l) at 2. rewrite concat_app, len_app.
  pose proof (len_nonneg (concat (drop k l))). lia.
Qed.

Lemma len_prefix_take_le {A} (head : list A) (l : list (list A)) (k : nat) tail :
  len (head ++ concat (take k l)) ≤ len (head ++ concat l ++ tail).
Proof.
  rewrite !len_app. pose proof (len_concat_take_le l k). pose proof (len_nonneg tail). lia.
Qed.

(** The file as [write_pdf] assembles it, part by part. *)
Lemma write_pdf_structure (self : StyledPdf) :
  let max_id := 4 + 2 * len (page_streams self) in
  ∃ (objects : gmap Z (list byte)) ids objs entries,
    build_objects self = Some (objects, ids)
    ∧ mapM (object_bytes objects) (seqZ 1 max_id) = Some objs
    ∧ length entries = Z.to_nat max_id
    ∧ (∀ (k : nat) entry, entries !! k = Some entry →
         entry = encode_latin1_replace
                   (format_0wd 10 (len (pdf_header ++ concat (take k objs)))
                    ++ py " 00000 n " ++ [LF]))
    ∧ write_pdf self
      = Some (pdf_header ++ concat objs
              ++ encode_latin1_replace
                   (py "xref" ++ [LF] ++ py "0 " ++ str_of_Z (max_id + 1) ++ [LF])
              ++ (pyb "0000000000 65535 f " ++ NL)
              ++ concat entries
              ++ encode_latin1_replace
                   (py "trailer" ++ [LF] ++ py "<< /Size " ++ str_of_Z (max_id + 1)
                    ++ py " /Root 1 0 R >>" ++ [LF] ++ py "startxref" ++ [LF]
                    ++ str_of_Z (len (pdf_header ++ concat objs)) ++ [LF]
                    ++ py "%%EOF" ++ [LF])).
Proof.
  cbv zeta. pose proof (len_nonneg (page_streams self)) as Hn.
  set (max_id := 4 + 2 * len (page_streams self)).
  destruct (build_objects_spec self) as (objects & Hbuild & _ & _ & _ & _ & _ & Hdom).
  cbv zeta in Hbuild. fold max_id in Hdom.
  pose proof (sorted_dense objects max_id ltac:(lia) Hdom) as Hsorted.
  destruct (emit_objects_bytes objects (seqZ 1 max_id) [pdf_header] {[0 := 0]}
              (NoDup_seqZ _ _))
    as (parts & objs & offsets & Hemit & Hobjs & Hconcat & _ & Hoffs).
  { intros id Hid%elem_of_seqZ. apply Hdom. lia. }
  cbn [concat] in Hconcat, Hoffs. rewrite app_nil_r in Hconcat, Hoffs.
  set (entry := fun i : Z =>
         encode_latin1_replace
           (format_0wd 10 (default 0 (offsets !! i)) ++ py " 00000 n " ++ [LF])).
  assert (Hxref : xref_table offsets max_id
                  = Some ([encode_latin1_replace
                             (py "xref" ++ [LF] ++ py "0 " ++ str_of_Z (max_id + 1) ++ [LF]);
                           pyb "0000000000 65535 f " ++ NL]
                          ++ map entry (seqZ 1 max_id))).
  { unfold xref_table. rewrite encode_ascii_ok by ascii. cbn [mbind option_bind].
    rewrite (mapM_total _ entry); [reflexivity|].
    intros i. unfold xref_entry. now rewrite encode_ascii_ok by ascii. }
  eexists objects, _, objs, (map entry (seqZ 1 max_id)).
  split; [exact Hbuild|]. split; [exact Hobjs|]. split; [|split].
  - now rewrite length_map, length_seqZ.
  - intros k e Hk. rewrite list_lookup_fmap in Hk.
    destruct (seqZ 1 max_id !! k) as [i|] eqn:Hi; [|discriminate Hk].
    injection Hk as <-. unfold entry. now rewrite (Hoffs k i Hi).
  - unfold write_pdf. rewrite Hbuild. cbn [mbind option_bind].
    unfold emit_objects. rewrite Hsorted, Hemit. cbn [mbind option_bind].
    replace max_id with (Z.of_nat (S (Z.to_nat (max_id - 1)))) at 1 by lia.
    rewrite py_max_seqZ. cbn [mbind option_bind].
    replace (Z.of_nat (S (Z.to_nat (max_id - 1)))) with max_id by lia.
    rewrite Hxref. cbn [mbind option_bind].
    unfold pdf_trailer. rewrite encode_ascii_ok by ascii. cbn [mbind option_bind].
    f_equal. rewrite sum_len_concat, !concat_app, Hconcat. cbn [concat].
    rewrite !app_nil_r, <- !app_assoc. reflexivity.
Qed.

(** X11.  The file [write_pdf] writes is, from its first byte to its last:
    the header line and the line of binary bytes; the objects 1 to the
    largest id in ascending order, each as the digits of its id and
    [0 obj] on a line, its bytes and [endobj] on a line, with nothing
    between them; the cross-reference table; the trailer.  The table is
    the line [xref], the count of entries, the free entry and one entry
    per object, whose digits (ten of them as long as the file is shorter
    than 10^10 bytes) read back as the number of bytes before that
    object.  The trailer gives the count as [/Size] and object 1 as
    [/Root], the number after [startxref] is the number of bytes before
    the table, and the file ends with the end-of-file marker and a line
    feed. *)
Theorem write_pdf_file_structure (self : StyledPdf) :
  let max_id := 4 + 2 * len (page_streams self) in
  ∃ (objects : gmap Z (list byte)) ids objs entries out,
    build_objects self = Some (objects, ids)
    ∧ write_pdf self = Some out
    ∧ mapM (object_bytes objects) (seqZ 1 max_id) = Some objs
    ∧ length entries = Z.to_nat max_id
    ∧ (∀ (k : nat) entry, entries !! k = Some entry →
         ∃ digits,
           entry = encode_latin1_replace (digits ++ py " 00000 n " ++ [LF])
           ∧ int_of_str digits = Some (len (pdf_header ++ concat (take k objs)))
           ∧ (len out < 10 ^ 10 → length digits = 10%nat))
    ∧ out
      = pdf_header ++ concat objs
        ++ encode_latin1_replace (py "xref" ++ [LF] ++ py "0 " ++ str_of_Z (max_id + 1) ++ [LF])
        ++ (pyb "0000000000 65535 f " ++ NL)
        ++ concat entries
        ++ encode_latin1_replace
             (py "trailer" ++ [LF] ++ py "<< /Size " ++ str_of_Z (max_id + 1)
              ++ py " /Root 1 0 R >>" ++ [LF] ++ py "startxref" ++ [LF]
              ++ str_of_Z (len (pdf_header ++ concat objs)) ++ [LF] ++ py "%%EOF" ++ [LF])
    ∧ int_of_str (str_of_Z (len (pdf_header ++ concat objs)))
      = Some (len (pdf_header ++ concat objs)).
Proof.
  cbv zeta.
  destruct (write_pdf_structure self)
    as (objects & ids & objs & entries & Hbuild & Hobjs & Hlen & Hentries & Hwrite).
  cbv zeta in *.
  eexists objects, ids, objs, entries, _.
  split; [exact Hbuild|]. split; [exact Hwrite|]. split; [exact Hobjs|].
  split; [exact Hlen|]. split; [|split; [reflexivity|]].
  - intros k entry Hk. eexists. split; [exact (Hentries k entry Hk)|].
    split; [apply int_of_str_format_0wd, len_nonneg|].
    intros Hsmall. apply length_format_0wd. split; [apply len_nonneg|].
    eapply Z.le_lt_trans; [apply len_prefix_take_le|exact Hsmall].
  - apply int_of_str_of_Z, len_nonneg.
Qed.

Lemma len_concat_uniform {A} (l : list (list A)) n :
  Forall (fun x => len x = n) l → len (concat l) = n * len l.
Proof.
  induction 1 as [|x l Hx _ IH]; [unfold len; cbn [concat length]; lia|].
  cbn [concat]. rewrite len_app, len_cons, IH, Hx. lia.
Qed.

(** X12.  As long as the file is shorter than 10^10 bytes the
    cross-reference table can be read by position.  The number after
    [startxref], at the end of the file, is the byte position of the line
    [xref] and the count; the free entry follows it, and the entry of the
    object [id] stands [20 * id] bytes after the free entry's first byte.
    That entry is ten digits, [ 00000 n ] and a line feed, twenty bytes,
    and its digits read back as the byte position at which the object's
    [id 0 obj] stands. *)
Theorem xref_entries_twenty_bytes (self : StyledPdf) :
  let max_id := 4 + 2 * len (page_streams self) in
  let head :=
    encode_latin1_replace (py "xref" ++ [LF] ++ py "0 " ++ str_of_Z (max_id + 1) ++ [LF]) in
  ∃ out xref_pos before,
    write_pdf self = Some out
    ∧ out = before ++ encode_latin1_replace
                        (py "startxref" ++ [LF] ++ str_of_Z xref_pos ++ [LF]
                         ++ py "%%EOF" ++ [LF])
    ∧ int_of_str (str_of_Z xref_pos) = Some xref_pos
    ∧ occurs_at out xref_pos head
    ∧ (len out < 10 ^ 10 →
       occurs_at out (xref_pos + len head) (pyb "0000000000 65535 f " ++ NL)
       ∧ ∀ id, 1 ≤ id ≤ max_id →
           ∃ digits off,
             length digits = 10%nat
             ∧ int_of_str digits = Some off
             ∧ occurs_at out (xref_pos + len head + 20 * id)
                         (encode_latin1_replace (digits ++ py " 00000 n " ++ [LF]))
             ∧ occurs_at out off
                         (encode_latin1_replace (str_of_Z id ++ py " 0 obj" ++ [LF]))).
Proof.
  cbv zeta. pose proof (len_nonneg (page_streams self)) as Hn.
  destruct (write_pdf_structure self)
    as (objects & ids & objs & entries & _ & Hobjs & Hlen & Hentries & Hwrite).
  cbv zeta in *.
  set (max_id := 4 + 2 * len (page_streams self)) in *.
  set (head := encode_latin1_replace
                 (py "xref" ++ [LF] ++ py "0 " ++ str_of_Z (max_id + 1) ++ [LF])) in *.
  set (free := pyb "0000000000 65535 f " ++ NL) in *.
  set (xref_pos := len (pdf_header ++ concat objs)) in *.
  set (trailer1 := py "trailer" ++ [LF] ++ py "<< /Size " ++ str_of_Z (max_id + 1)
                   ++ py " /Root 1 0 R >>" ++ [LF]).
  set (trailer2 := py "startxref" ++ [LF] ++ str_of_Z xref_pos ++ [LF] ++ py "%%EOF" ++ [LF]).
  assert (Htrailer : encode_latin1_replace
                       (py "trailer" ++ [LF] ++ py "<< /Size " ++ str_of_Z (max_id + 1)
                        ++ py " /Root 1 0 R >>" ++ [LF] ++ py "startxref" ++ [LF]
                        ++ str_of_Z xref_pos ++ [LF] ++ py "%%EOF" ++ [LF])
                     = encode_latin1_replace trailer1 ++ encode_latin1_replace trailer2).
  { rewrite <- encode_latin1_app. unfold trailer1, trailer2.
    now rewrite <- !app_assoc. }
  rewrite Htrailer in Hwrite.
  set (out := pdf_header ++ concat objs ++ head ++ free ++ concat entries
              ++ encode_latin1_replace trailer1 ++ encode_latin1_replace trailer2) in *.
  exists out, xref_pos,
         (pdf_header ++ concat objs ++ head ++ free ++ concat entries
          ++ encode_latin1_replace trailer1).
  split; [exact Hwrite|].
  split; [unfold out; now rewrite <- !app_assoc|].
  split; [apply int_of_str_of_Z, len_nonneg|].
  split.
  { exists (pdf_header ++ concat objs), (free ++ concat entries
            ++ encode_latin1_replace trailer1 ++ encode_latin1_replace trailer2).
    split; [unfold out; now rewrite <- !app_assoc|reflexivity]. }
  intros Hsmall. split.
  { exists ((pdf_header ++ concat objs) ++ head), (concat entries
            ++ encode_latin1_replace trailer1 ++ encode_latin1_replace trailer2).
    split; [unfold out; now rewrite <- !app_assoc|].
    rewrite len_app. reflexivity. }
  assert (Hdigits : ∀ k : nat,
             length (format_0wd 10 (len (pdf_header ++ concat (take k objs)))) = 10%nat).
  { intros k. apply length_format_0wd. split; [apply len_nonneg|].
    eapply Z.le_lt_trans; [apply len_prefix_take_le|exact Hsmall]. }
  assert (Htwenty : Forall (fun e : list byte => len e = 20) entries).
  { apply Forall_lookup. intros k e Hk. rewrite (Hentries k e Hk).
    unfold len at 1. rewrite length_encode_latin1, length_app, Hdigits. reflexivity. }
  intros id Hid.
  set (k := Z.to_nat (id - 1)).
  assert (Hk : (k < length entries)%nat) by lia.
  destruct (lookup_lt_is_Some_2 _ _ Hk) as [entry Hentry].
  pose proof (Hentries k entry Hentry) as Heq.
  exists (format_0wd 10 (len (pdf_header ++ concat (take k objs)))),
         (len (pdf_header ++ concat (take k objs))).
  split; [apply Hdigits|].
  split; [apply int_of_str_format_0wd, len_nonneg|].
  split.
  - rewrite <- Heq.
    exists ((pdf_header ++ concat objs) ++ head ++ free ++ concat (take k entries)),
           (concat (drop (S k) entries)
            ++ encode_latin1_replace trailer1 ++ encode_latin1_replace trailer2).
    split.
    + unfold out. rewrite (concat_lookup_middle entries k entry Hentry) at 1.
      now rewrite <- !app_assoc.
    + assert (Hlk : len (take k entries) = Z.of_nat k)
        by (unfold len; rewrite length_take; lia).
      unfold xref_pos. rewrite !len_app.
      rewrite (len_concat_uniform (take k entries) 20)
        by (apply Forall_take; exact Htwenty).
      rewrite Hlk. change (len free) with 20. unfold k. lia.
  - assert (Hid' : seqZ 1 max_id !! k = Some id).
    { rewrite lookup_seqZ. split; lia. }
    apply mapM_Some_1 in Hobjs.
    destruct (Forall2_lookup_l _ _ _ _ _ Hobjs Hid') as (obj & Hobj & Hbytes).
    unfold object_bytes in Hbytes.
    destruct (objects !! id) as [body|]; [|discriminate Hbytes].
    cbn [mbind option_bind] in Hbytes. injection Hbytes as <-.
    exists (pdf_header ++ concat (take k objs)),
           ((body ++ NL ++ pyb "endobj" ++ NL) ++ concat (drop (S k) objs)
            ++ head ++ free ++ concat entries
            ++ encode_latin1_replace trailer1 ++ encode_latin1_replace trailer2).
    split; [|reflexivity].
    unfold out. rewrite (concat_lookup_middle objs k _ Hobj) at 1.
    now rewrite <- !app_assoc.
Qed.

(* ===================================================================== *)
(** ** write_pdf: the bytes of a page                                      *)
(* ===================================================================== *)

Lemma decode_encode_latin1 s :
  decode_latin1 (encode_latin1_replace s)
  = map (fun c => if (c <? 256)%N then c else 63%N) s.
Proof.
  unfold decode_latin1, encode_latin1_replace. rewrite map_map. apply map_ext.
  intros c. cbv beta. destruct (Byte.of_N c) as [b|] eqn:Hb; unfold default; cbn [from_option id].
  - rewrite (Byte.to_of_N _ Hb).
    destruct (N.ltb_spec c 256) as [|Hge]; [reflexivity|].
    assert (Byte.of_N c = None) as Hnone by (apply Byte.of_N_None_iff; lia). congruence.
  - apply Byte.of_N_None_iff in Hb.
    destruct (N.ltb_spec c 256); [lia|reflexivity].
Qed.

Lemma decode_encode_latin1_id s :
  latin1 s = true → decode_latin1 (encode_latin1_replace s) = s.
Proof.
  intros Hs. rewrite decode_encode_latin1. induction s as [|c s IH]; [reflexivity|].
  cbn [latin1 forallb] in Hs. apply andb_true_iff in Hs as (Hc & Hs).
  cbn [map]. rewrite Hc. f_equal. exact (IH Hs).
Qed.

(** X13.  The content object of a page holds its stream one byte per
    character: read back as Latin-1 the bytes between [stream] and
    [endstream] are the stream with a question mark for every character
    above U+00FF, and the stream itself when it has none. *)
Theorem content_bytes_decode (stream : list N) :
  ∃ dict body,
    content_object stream = Some (dict ++ pyb "stream" ++ NL ++ body ++ pyb "endstream")
    ∧ decode_latin1 body = map (fun c => if (c <? 256)%N then c else 63%N) stream
    ∧ (latin1 stream = true → decode_latin1 body = stream).
Proof.
  exists (encode_latin1_replace
            (py "<< /Length " ++ str_of_Z (len (encode_latin1_replace stream))
             ++ py " >>" ++ [LF])),
         (encode_latin1_replace stream).
  split; [|split].
  - rewrite content_object_eq. f_equal.
    rewrite !encode_latin1_app, <- !app_assoc. reflexivity.
  - apply decode_encode_latin1.
  - apply decode_encode_latin1_id.
Qed.

(* ===================================================================== *)
(** ** From cv.txt to the bytes of the pages: Latin-1 text is kept          *)
(* ===================================================================== *)

Lemma latin1_app s1 s2 : latin1 (s1 ++ s2) = latin1 s1 && latin1 s2.
Proof. apply forallb_app. Qed.

Lemma latin1_Forall s : latin1 s = true ↔ Forall (fun c => (c < 256)%N) s.
Proof.
  unfold latin1. rewrite forallb_forall, List.Forall_forall.
  split; intros H c Hc; apply N.ltb_lt; now apply H.
Qed.

Lemma latin1_ascii s : is_ascii s = true → latin1 s = true.
Proof.
  unfold is_ascii, latin1. rewrite !forallb_forall. intros H c Hc.
  specialize (H c Hc). apply N.ltb_lt in H. apply N.ltb_lt. lia.
Qed.

Lemma latin1_concat ops : Forall (fun op => latin1 op = true) ops → latin1 (concat ops) = true.
Proof.
  induction 1 as [|op ops Hop _ IH]; [reflexivity|].
  cbn [concat]. now rewrite latin1_app, Hop, IH.
Qed.

Lemma latin1_pdf_escape value : latin1 value = true → latin1 (pdf_escape value) = true.
Proof.
  rewrite pdf_escape_flat_map. induction value as [|c value IH]; [reflexivity|].
  intros Hvalue. cbn [latin1 forallb] in Hvalue.
  apply andb_true_iff in Hvalue as (Hc & Hvalue).
  cbn [flat_map]. rewrite latin1_app, (IH Hvalue), andb_true_r.
  unfold escape_char. destruct ((c =? 92) || (c =? 40) || (c =? 41))%N;
    cbn [latin1 forallb]; now rewrite Hc.
Qed.

Lemma latin1_upper s : latin1 s = true → latin1 (upper s) = true.
Proof.
  rewrite !latin1_Forall. unfold upper. intros H. apply Forall_map.
  eapply Forall_impl; [exact H|]. intros c Hc. cbv beta in *. unfold upper_char.
  destruct ((97 <=? c) && (c <=? 122))%N; lia.
Qed.

Lemma latin1_strip s : latin1 s = true → latin1 (strip s) = true.
Proof. rewrite !latin1_Forall. apply Forall_strip. Qed.

Lemma latin1_rstrip s : latin1 s = true → latin1 (rstrip s) = true.
Proof. rewrite !latin1_Forall. apply Forall_rstrip. Qed.

Lemma latin1_drop k s : latin1 s = true → latin1 (drop k s) = true.
Proof. rewrite !latin1_Forall. apply Forall_drop. Qed.

(** *** The lines [wrap_text] returns have the characters of the text *)

Lemma Forall_expandtabs (Q : N → Prop) s : Q SP → ∀ col,
  Forall Q s → Forall Q (textwrap.expandtabs_from 8 col s).
Proof.
  intros Hsp. induction s as [|c s IH]; intros col Hs; [constructor|].
  apply Forall_cons in Hs as (Hc & Hs). cbn [textwrap.expandtabs_from].
  destruct (c =? TAB)%N.
  - apply Forall_app. split; [|now apply IH].
    apply List.Forall_forall. intros x Hx%repeat_spec. now subst x.
  - destruct ((c =? LF) || (c =? CR))%N; constructor; auto.
Qed.

Lemma wrap_text_chars (Q : N → Prop) text width font_size bold lines :
  Q SP → Forall Q text →
  wrap_text text width font_size bold = Some lines → Forall (Forall Q) lines.
Proof.
  intros Hsp Htext Hwrap. destruct text as [|c text].
  - injection Hwrap as <-. repeat constructor.
  - destruct (wrap_text_nonempty (c :: text) _ _ _ _ ltac:(discriminate) Hwrap)
      as (n & lines0 & _ & Hw & ->).
    destruct lines0 as [|l lines0]; cbn [is_empty]; [constructor; [exact Htext|constructor]|].
    revert Hw. unfold textwrap.wrap, textwrap._wrap_chunks.
    destruct (Z.leb_spec n 0) as [|Hn]; [discriminate|]. intros [= Hw].
    destruct (split_spec (textwrap._munge_whitespace (c :: text))) as (Hwf & Hconcat & _).
    assert (Hmunge : Forall Q (textwrap._munge_whitespace (c :: text))).
    { unfold textwrap._munge_whitespace. apply Forall_map.
      eapply Forall_impl; [apply (Forall_expandtabs Q _ Hsp 0%nat Htext)|].
      intros x Hx. cbv beta. now destruct (textwrap.whitespace x). }
    rewrite <- Hconcat in Hmunge.
    destruct (wrap_loop_lines Q n ltac:(lia)
                (length (textwrap._split (textwrap._munge_whitespace (c :: text)))) []
                (textwrap._split (textwrap._munge_whitespace (c :: text))))
      as (new & Hloop & Hnew).
    + apply Forall_and. split; [now apply well_formed_nonempty|].
      now apply Forall_concat in Hmunge.
    + rewrite Hloop in Hw. cbn [app] in Hw. subst new.
      eapply Forall_impl; [exact Hnew|]. now intros ? [_ ?].
Qed.

Lemma wrap_text_latin1 text width font_size bold lines :
  latin1 text = true →
  wrap_text text width font_size bold = Some lines →
  Forall (fun line => latin1 line = true) lines.
Proof.
  intros Htext%latin1_Forall Hwrap.
  pose proof (wrap_text_chars (fun c => (c < 256)%N) _ _ _ _ _ ltac:(reflexivity)
                Htext Hwrap) as H.
  eapply Forall_impl; [exact H|]. intros line. apply latin1_Forall.
Qed.

(** *** The drawing steps *)

Lemma latin1_line line : is_ascii line = true → latin1 (line ++ [LF]) = true.
Proof. intros H%latin1_ascii. now rewrite latin1_app, H. Qed.

Lemma latin1_text self x y value size font color :
  is_ascii font = true → latin1 value = true →
  latin1_object self → latin1_object (text self x y value size font color).
Proof.
  intros Hfont Hvalue (Hpages & Hcur).
  destruct (emits_text (fun op => latin1 op = true) latin1_line x y value size font color)
    as (Hemit & Hops).
  - apply latin1_line. repeat rewrite is_ascii_app. now rewrite Hfont, is_ascii_format_f.
  - rewrite !latin1_app, (latin1_pdf_escape _ Hvalue). reflexivity.
  - rewrite (Hemit self). split.
    + now rewrite page_streams_emit.
    + rewrite current_stream_emit. apply Forall_app. split; [exact Hcur|apply Hops].
Qed.

Lemma emits_draw_header P name subtitle first_page :
  (∀ line, is_ascii line = true → P (line ++ [LF])) →
  P ((py "(" ++ pdf_escape name ++ py ") Tj") ++ [LF]) →
  P ((py "(" ++ pdf_escape subtitle ++ py ") Tj") ++ [LF]) →
  emits P (draw_header name subtitle first_page).
Proof.
  intros HP Hname Hsubtitle.
  assert (Hfont : ∀ size font, is_ascii font = true →
            P ((py "/" ++ font ++ py " " ++ format_f 2 size ++ py " Tf") ++ [LF])).
  { intros size font Hf. apply HP. repeat rewrite is_ascii_app.
    now rewrite Hf, is_ascii_format_f. }
  unfold draw_header.
  apply (emits_compose P _
           (fun pdf => text pdf _ _ subtitle _ _ (Some (Theme.text (theme pdf))))).
  2: { apply (emits_themed P (fun th pdf => text pdf _ _ _ _ _ (Some (Theme.text th)))).
       intros th. apply emits_text; [exact HP|now apply Hfont|exact Hsubtitle]. }
  apply (emits_compose P _
           (fun pdf => text pdf _ _ name _ _ (Some (Theme.accent (theme pdf))))).
  2: { apply (emits_themed P (fun th pdf => text pdf _ _ _ _ _ (Some (Theme.accent th)))).
       intros th. apply emits_text; [exact HP|now apply Hfont|exact Hname]. }
  apply (emits_compose P draw_decor
           (fun pdf => rect pdf _ _ _ _ (Some (Theme.panel (theme pdf)))
                            (Some (Theme.border (theme pdf))) _));
    [now apply emits_draw_decor|].
  apply (emits_themed P
           (fun th pdf => rect pdf _ _ _ _ (Some (Theme.panel th)) (Some (Theme.border th)) _)).
  intros th. now apply emits_rect.
Qed.

Lemma latin1_header_ops th name subtitle first_page :
  latin1 name = true → latin1 subtitle = true →
  Forall (fun op => latin1 op = true) (header_ops th name subtitle first_page).
Proof.
  intros Hname Hsubtitle. unfold header_ops.
  apply (emits_draw_header (fun op => latin1 op = true) name subtitle first_page latin1_line).
  - rewrite !latin1_app, (latin1_pdf_escape _ Hname). reflexivity.
  - rewrite !latin1_app, (latin1_pdf_escape _ Hsubtitle). reflexivity.
Qed.

Lemma latin1_page_label_ops th n :
  Forall (fun op => latin1 op = true) (page_label_ops th n).
Proof.
  unfold page_label_ops.
  apply (emits_text (fun op => latin1 op = true) latin1_line).
  - apply latin1_line. repeat rewrite is_ascii_app. now rewrite is_ascii_format_f.
  - apply latin1_line. repeat rewrite is_ascii_app.
    rewrite is_ascii_pdf_escape; [reflexivity|]. now rewrite is_ascii_app, is_ascii_str_of_Z.
Qed.

Lemma latin1_first_page name subtitle :
  latin1 name = true → latin1 subtitle = true → latin1_object (first_page name subtitle).
Proof.
  intros Hname Hsubtitle. unfold first_page, latin1_object.
  rewrite page_streams_mk, current_stream_mk. split; [constructor|].
  unfold page_head. apply Forall_app. split; [now apply latin1_header_ops|].
  assert (H : forallb latin1 (contact_ops Theme_default ++ metrics_row_ops Theme_default) = true)
    by (vm_compute; reflexivity).
  now apply Forall_of_forallb in H.
Qed.

Lemma latin1_new_page name subtitle pdf :
  latin1 name = true → latin1 subtitle = true →
  latin1_object pdf → latin1_object (new_page name subtitle pdf).1.
Proof.
  intros Hname Hsubtitle (Hpages & Hcur). rewrite new_page_eq. cbn [fst].
  unfold latin1_object. rewrite page_streams_mk, current_stream_mk. split.
  - apply Forall_app. split; [exact Hpages|]. constructor; [|constructor].
    now apply latin1_concat.
  - apply Forall_app. split; [now apply latin1_header_ops|apply latin1_page_label_ops].
Qed.

Section Latin1.

Variables name subtitle : list N.
Hypothesis name_latin1 : latin1 name = true.
Hypothesis subtitle_latin1 : latin1 subtitle = true.

Lemma latin1_break pdf y (low : bool) :
  latin1_object pdf → latin1_object (if low then new_page name subtitle pdf else (pdf, y)).1.
Proof. intros H. destruct low; [now apply latin1_new_page|exact H]. Qed.

Lemma latin1_bullet_part st item :
  latin1 item.2 = true →
  latin1_object st.1 → latin1_object (draw_bullet_part name subtitle st item).1.
Proof.
  destruct item as [i part]. cbn [snd]. intros Hpart Hst.
  rewrite draw_bullet_part_eq. cbn [fst]. apply latin1_text; [reflexivity| |].
  - rewrite latin1_app, Hpart. now destruct (i =? 0).
  - destruct st as [pdf y]. rewrite break_if_low_eq. now apply latin1_break.
Qed.

Lemma latin1_plain_part st part :
  latin1 part = true →
  latin1_object st.1 → latin1_object (draw_plain_part name subtitle st part).1.
Proof.
  intros Hpart Hst. rewrite draw_plain_part_eq. cbn [fst].
  apply latin1_text; [reflexivity|exact Hpart|].
  destruct st as [pdf y]. rewrite break_if_low_eq. now apply latin1_break.
Qed.

Lemma latin1_fold {A} (ok : A → Prop) (step : StyledPdf * Z → A → StyledPdf * Z) items :
  (∀ st item, ok item → latin1_object st.1 → latin1_object (step st item).1) →
  Forall ok items →
  ∀ st, latin1_object st.1 → latin1_object (fold_left step items st).1.
Proof.
  intros Hstep. induction 1 as [|item items Hitem _ IH]; intros st Hst; [exact Hst|].
  cbn [fold_left]. apply IH, Hstep; assumption.
Qed.

Lemma Forall_enumerate {A} (ok : A → Prop) (l : list A) :
  Forall ok l → Forall (fun item => ok item.2) (enumerate l).
Proof.
  unfold enumerate. generalize (range (length l)). intros ks H. revert ks.
  induction H as [|x l Hx _ IH]; intros [|k ks]; cbn [combine]; constructor; auto.
Qed.

Lemma layout_line_latin1 st raw_line st' :
  latin1 raw_line = true → latin1_object st.1 →
  layout_line name subtitle st raw_line = Some st' → latin1_object st'.1.
Proof.
  destruct st as [pdf y]. cbn [fst]. intros Hraw Hst.
  destruct (is_empty (strip raw_line)) eqn:Hempty.
  { rewrite (layout_line_blank _ _ _ _ _ Hempty). intros [= <-]. now apply latin1_break. }
  destruct (is_heading (strip raw_line)) eqn:Hhead.
  { rewrite (layout_line_heading _ _ _ _ _ Hhead). intros [= <-]. cbn [fst].
    apply latin1_text; [reflexivity|now apply latin1_upper, latin1_strip|].
    now apply latin1_break. }
  destruct (is_bullet (strip raw_line)) eqn:Hbullet.
  - rewrite (layout_line_bullet _ _ _ _ _ Hempty Hhead Hbullet).
    destruct (wrap_text _ _ _ _) as [wrapped|] eqn:Hwrap; [|discriminate].
    rewrite bind_Some. intros [= <-].
    apply (latin1_fold (fun item => latin1 item.2 = true) _ _ latin1_bullet_part);
      [|exact Hst].
    apply (Forall_enumerate (fun part => latin1 part = true)).
    eapply wrap_text_latin1; [|exact Hwrap].
    now apply latin1_strip, latin1_drop, latin1_strip.
  - rewrite (layout_line_plain _ _ _ _ _ Hempty Hhead Hbullet).
    destruct (wrap_text _ _ _ _) as [wrapped|] eqn:Hwrap; [|discriminate].
    rewrite bind_Some. intros [= <-].
    apply (latin1_fold (fun part => latin1 part = true) _ _ latin1_plain_part);
      [|exact Hst].
    eapply wrap_text_latin1; [|exact Hwrap]. now apply latin1_strip.
Qed.

Lemma layout_lines_latin1 lines : ∀ st st',
  Forall (fun ln => latin1 ln = true) lines → latin1_object st.1 →
  for_each (layout_line name subtitle) lines st = Some st' → latin1_object st'.1.
Proof.
  induction lines as [|raw_line lines IH]; intros st st' Hlines Hst.
  - intros [= <-]. exact Hst.
  - apply Forall_cons in Hlines as (Hraw & Hlines). rewrite for_each_cons.
    destruct (layout_line name subtitle st raw_line) as [st1|] eqn:Hline; [|discriminate].
    rewrite bind_Some. apply IH; [exact Hlines|].
    exact (layout_line_latin1 _ _ _ Hraw Hst Hline).
Qed.

Lemma layout_latin1 lines :
  Forall (fun ln => latin1 ln = true) lines →
  ∃ pdf, layout name subtitle lines = Some pdf
         ∧ Forall (fun stream => latin1 stream = true) (page_streams pdf).
Proof.
  intros Hlines.
  destruct (layout_lines_inv name subtitle lines (first_page name subtitle, container_y - 18)
              (layout_inv_first_page name subtitle)) as (st & Hrun & _).
  destruct (layout_lines_latin1 lines (first_page name subtitle, container_y - 18) st Hlines
              (latin1_first_page name subtitle name_latin1 subtitle_latin1) Hrun)
    as (Hpages & Hcur).
  exists (finish_page st.1). split.
  - rewrite layout_unfold, first_page_eq, bind_Some, Hrun, bind_Some. reflexivity.
  - unfold finish_page. rewrite page_streams_mk. apply Forall_app. split; [exact Hpages|].
    constructor; [|constructor]. now apply latin1_concat.
Qed.

End Latin1.

(** *** The text of the file *)

Lemma splitlines_from_Forall (Q : N → Prop) (k : nat) : ∀ s cur,
  (length s ≤ k)%nat → Forall Q s → Forall Q cur →
  Forall (Forall Q) (splitlines_from cur s).
Proof.
  induction k as [|k IH]; intros s cur Hlen Hs Hcur.
  - destruct s; [|cbn in Hlen; lia]. cbn [splitlines_from].
    destruct (is_empty cur); constructor; [|constructor].
    rewrite <- Forall_rev_iff. exact Hcur.
  - destruct s as [|c r].
    + cbn [splitlines_from].
      destruct (is_empty cur); constructor; [|constructor].
      rewrite <- Forall_rev_iff. exact Hcur.
    + cbn [splitlines_from]. cbn [length] in Hlen.
      apply Forall_cons in Hs as (Hc & Hr).
      assert (Hrev : Forall Q (rev cur)) by (rewrite <- Forall_rev_iff; exact Hcur).
      destruct (c =? CR)%N.
      * destruct r as [|d r'].
        -- constructor; [exact Hrev|constructor].
        -- apply Forall_cons in Hr as (Hd & Hr').
           destruct (d =? LF)%N; constructor; try exact Hrev;
             apply IH; try constructor; try assumption; cbn [length] in *; lia.
      * destruct (is_linebreak c).
        -- constructor; [exact Hrev|]. apply IH; [lia|exact Hr|constructor].
        -- apply IH; [lia|exact Hr|]. constructor; [exact Hc|exact Hcur].
Qed.

Lemma load_cv_lines_latin1 file_text :
  latin1 file_text = true →
  latin1 (load_cv_lines file_text).1.1 = true
  ∧ latin1 (load_cv_lines file_text).1.2 = true
  ∧ Forall (fun ln => latin1 ln = true) (load_cv_lines file_text).2.
Proof.
  intros Htext%latin1_Forall.
  pose proof (splitlines_from_Forall (fun c => (c < 256)%N) (length file_text) file_text []
                ltac:(lia) Htext ltac:(constructor)) as Hlines.
  fold (splitlines file_text) in Hlines.
  destruct (load_cv_lines_header file_text) as (-> & ->). rewrite load_cv_lines_body.
  assert (Hnb : Forall (Forall (fun c => (c < 256)%N))
                  (List.filter (fun ln => negb (blank_line ln)) (splitlines file_text))).
  { apply List.Forall_forall. intros ln Hin%filter_In. destruct Hin as (Hin & _).
    rewrite List.Forall_forall in Hlines. now apply Hlines. }
  split; [|split].
  - destruct Hnb as [|n ? Hn _]; [reflexivity|]. now apply latin1_Forall, Forall_strip.
  - destruct Hnb as [|n ? _ [|s ? Hs _]]; [reflexivity..|].
    now apply latin1_Forall, Forall_strip.
  - apply Forall_map. apply (Forall_remove_first_nonblank _ _ 2).
    eapply Forall_impl; [exact Hlines|]. intros ln Hln.
    now apply latin1_Forall, Forall_rstrip.
Qed.

(** The content object of every page as it stands in the file. *)
Lemma write_pdf_content_objects (self : StyledPdf) :
  ∃ out,
    write_pdf self = Some out
    ∧ ∀ (i : nat) stream, page_streams self !! i = Some stream →
        ∃ off,
          occurs_at out off
            (encode_latin1_replace (str_of_Z (6 + 2 * Z.of_nat i) ++ py " 0 obj" ++ [LF])
             ++ encode_latin1_replace
                  (py "<< /Length " ++ str_of_Z (len stream) ++ py " >>" ++ [LF])
             ++ pyb "stream" ++ NL ++ encode_latin1_replace stream ++ pyb "endstream"
             ++ NL ++ pyb "endobj" ++ NL).
Proof.
  destruct (build_objects_spec self) as (objects & Hbuild & _ & _ & _ & _ & Hpages & _).
  destruct (write_pdf_layout self)
    as (objects' & ids & offsets & parts & xref & trailer
        & Hbuild' & _ & Hwrite & _ & _ & Hobj).
  cbv zeta in Hbuild. rewrite Hbuild in Hbuild'. injection Hbuild' as <- <-.
  eexists. split; [exact Hwrite|].
  intros i stream Hi.
  destruct (Hpages i stream Hi) as (_ & Hcontent).
  assert (Hi' : (i < length (page_streams self))%nat) by (eapply lookup_lt_Some; eauto).
  destruct (Hobj (6 + 2 * Z.of_nat i) ltac:(unfold len; lia))
    as (off & token & obody & _ & Htoken & Hbody & Hocc).
  rewrite obj_token_eq in Htoken. rewrite Hcontent, content_object_eq in Hbody.
  assert (Et : token = encode_latin1_replace
                         (str_of_Z (6 + 2 * Z.of_nat i) ++ py " 0 obj" ++ [LF]))
    by congruence.
  assert (Eb : obody = encode_latin1_replace
                         (py "<< /Length " ++ str_of_Z (len (encode_latin1_replace stream))
                          ++ py " >>" ++ [LF] ++ py "stream" ++ [LF])
                       ++ encode_latin1_replace stream ++ pyb "endstream")
    by congruence.
  subst token obody.
  exists off. destruct Hocc as (before & after & Hout & Hoff).
  exists before, after. split; [|exact Hoff].
  rewrite Hout. do 2 f_equal.
  replace (len (encode_latin1_replace stream)) with (len stream)
    by (unfold len; now rewrite length_encode_latin1).
  rewrite !encode_latin1_app, <- !app_assoc. reflexivity.
Qed.

(** X14.  A cv.txt of Latin-1 characters loses nothing on its way to the
    file.  [generate] returns the bytes of the file and the line it
    prints; every page stream of the layout is Latin-1; and the file
    holds, for the page of index [i], the object [6 + 2i] whose bytes
    between [stream] and [endstream] read back as that page stream, with
    no character replaced. *)
Theorem latin1_cv_is_kept (cv_txt : list N) :
  latin1 cv_txt = true →
  ∃ pdf out,
    layout (load_cv_lines cv_txt).1.1 (load_cv_lines cv_txt).1.2 (load_cv_lines cv_txt).2
    = Some pdf
    ∧ generate cv_txt
      = Some (out, py "Generated cv.pdf with " ++ str_of_Z (len (page_streams pdf))
                   ++ py " page(s).")
    ∧ ∀ (i : nat) stream, page_streams pdf !! i = Some stream →
        latin1 stream = true
        ∧ ∃ off body,
            occurs_at out off
              (encode_latin1_replace (str_of_Z (6 + 2 * Z.of_nat i) ++ py " 0 obj" ++ [LF])
               ++ encode_latin1_replace
                    (py "<< /Length " ++ str_of_Z (len stream) ++ py " >>" ++ [LF])
               ++ pyb "stream" ++ NL ++ body ++ pyb "endstream"
               ++ NL ++ pyb "endobj" ++ NL)
            ∧ decode_latin1 body = stream.
Proof.
  intros (Hname & Hsubtitle & Hlines)%load_cv_lines_latin1.
  destruct (layout_latin1 _ _ Hname Hsubtitle _ Hlines) as (pdf & Hlayout & Hpages).
  destruct (write_pdf_content_objects pdf) as (out & Hout & Hobjects).
  exists pdf, out. split; [exact Hlayout|]. split.
  - rewrite generate_unfold, Hlayout, bind_Some, Hout, bind_Some. reflexivity.
  - intros i stream Hi.
    assert (Hstream : latin1 stream = true).
    { rewrite Forall_lookup in Hpages. exact (Hpages i stream Hi). }
    split; [exact Hstream|].
    destruct (Hobjects i stream Hi) as (off & Hocc).
    exists off, (encode_latin1_replace stream). split; [exact Hocc|].
    now apply decode_encode_latin1_id.
Qed.

(** A file with an accented letter. *)
Lemma latin1_cv_is_kept_witness :
  latin1 (py "Zoe" ++ [LF] ++ py "Engineer" ++ [LF] ++ [233%N]) = true
  ∧ ∃ pdf out,
      layout (load_cv_lines (py "Zoe" ++ [LF] ++ py "Engineer" ++ [LF] ++ [233%N])).1.1
             (load_cv_lines (py "Zoe" ++ [LF] ++ py "Engineer" ++ [LF] ++ [233%N])).1.2
             (load_cv_lines (py "Zoe" ++ [LF] ++ py "Engineer" ++ [LF] ++ [233%N])).2
      = Some pdf
      ∧ generate (py "Zoe" ++ [LF] ++ py "Engineer" ++ [LF] ++ [233%N])
        = Some (out, py "Generated cv.pdf with " ++ str_of_Z (len (page_streams pdf))
                     ++ py " page(s).")
      ∧ ∀ (i : nat) stream, page_streams pdf !! i = Some stream →
          latin1 stream = true
          ∧ ∃ off body,
              occurs_at out off
                (encode_latin1_replace (str_of_Z (6 + 2 * Z.of_nat i) ++ py " 0 obj" ++ [LF])
                 ++ encode_latin1_replace
                      (py "<< /Length " ++ str_of_Z (len stream) ++ py " >>" ++ [LF])
                 ++ pyb "stream" ++ NL ++ body ++ pyb "endstream"
                 ++ NL ++ pyb "endobj" ++ NL)
              ∧ decode_latin1 body = stream.
Proof.
  split; [reflexivity|].
  apply (latin1_cv_is_kept (py "Zoe" ++ [LF] ++ py "Engineer" ++ [LF] ++ [233%N])).
  reflexivity.
Defined.

(* ===================================================================== *)
(** ** Layout: every text asked for is drawn once, in order               *)
(* ===================================================================== *)











